(** * Stratigraphic dictionary skills: run consolidation, depth mapping,
      confidence scoring and dictionary validation

    A shallow embedding of the computational core of the repository:

    - [Merging]: [entry-exit-count-processing/scripts/merging.py]
      (function [process_drilling_data]);
    - [Classifier]: [stratigraphic-classification/scripts/process_drilling_data.py]
      (class [StratigraphicClassifier]);
    - [Confidence]: [stratigraphic-classification/scripts/analyze_confidence.py]
      (class [WellCategoryAnalyzer]);
    - [Validator]: [stratigraphic-classification/scripts/validate_dictionary.py]
      (class [DictionaryValidator]);
    - [Converter]: [csv_to_json_converter.py] (function [convert_csv_to_json]);
    - [SimpleAnalysis]: [stratigraphic-classification/scripts/simple_analysis.py]
      (class [SimpleStratigraphicAnalyzer]);
    - [DepthTable]: the loading of the depth table in
      [stratigraphic-classification/scripts/process_drilling_data.py].

    Numbers.  The scripts compute with binary floating point.  Here every
    numeric cell is an exact rational ([Q]); [py_round] is decimal rounding
    with ties to even, the rounding mode of Python's [round].  A missing
    numeric cell (pandas NaN) is [None].  Comparisons of numbers are the
    comparisons of their values ([Qeq_bool], [Qle_bool]), never of their
    representations.  Python rounds the double it has computed, which is
    not always the exact value: at a tie the written cell can be the other
    neighbour.  Statements that fix the value of a rounded cell are
    therefore given up to [FloatSpec.rounded_to], which allows for it.

    Strings are byte strings holding the UTF-8 encoding of the text. *)

From Stdlib Require Import ZArith QArith Qround Qabs Qminmax Lia Lqa Sorted.
From Stdlib Require Import String Ascii DecimalString DecimalNat.
From stdpp Require Import base list strings gmap.

Local Open Scope Q_scope.

(** ** Numbers *)

Definition Qlt_bool (a b : Q) : bool := negb (Qle_bool b a).

(** The integer nearest to [q], ties going to the even neighbour. *)
Definition round_half_even (q : Q) : Z :=
  let f := Qfloor q in
  match Qcompare (q - inject_Z f) (1 # 2) with
  | Lt => f
  | Gt => (f + 1)%Z
  | Eq => if Z.even f then f else (f + 1)%Z
  end.

Definition pow10 (ndigits : nat) : positive := Z.to_pos (10 ^ Z.of_nat ndigits).

(** [round(q, ndigits)] *)
Definition py_round (q : Q) (ndigits : nat) : Q :=
  Qred (round_half_even (q * inject_Z (Zpos (pow10 ndigits))) # pow10 ndigits).

(** [abs], [min] and [max] are [Qabs], [Qmin] and [Qmax]. *)

(** ** Run consolidation: merging.py *)

Module Merging.

(** The 序号 cell: a number read from the file, or text such as [a1]. *)
Inductive Label :=
| LInt (n : Z)
| LStr (s : string).

(** One row of the data frame.  [xuhao] is [None] when the frame has no
    序号 column; [mechanical_speed] is [None] for NaN; [drill_type] and
    [manufacturer] are the texts of the cells in the file.  [entry_count]
    is the integer of the cell: the frame holds it in 64 bits (or as a
    double), and [count + 1] is computed here without the wrap-around of
    the frame, which is the same for counts of ordinary size. *)
Record Row := mkRow {
  xuhao : option Label;          (* 序号 *)
  entry_count : Z;               (* 入井次数 *)
  start_depth : Q;               (* 起始井深 *)
  end_depth : Q;                 (* 结束井深 *)
  footage : Q;                   (* 进尺 *)
  drill_time : Q;                (* 纯钻时间 *)
  mud_density : Q;               (* 钻井液密度 *)
  mechanical_speed : option Q;   (* 机械钻速 *)
  drill_type : string;           (* 钻头型号, or 型号 *)
  manufacturer : string;         (* 生产厂家, or 厂家 *)
  drill_press_a : Q;             (* 钻压A *)
  drill_press_b : Q;             (* 钻压B *)
  rpm_a : Q;                     (* 转速A *)
  rpm_b : Q;                     (* 转速B *)
  flow_a : Q;                    (* 排量A *)
  flow_b : Q;                    (* 排量B *)
  pump_press_a : Q;              (* 泵压A *)
  pump_press_b : Q;              (* 泵压B *)
  start_formation : string;      (* 起始地层 *)
  end_formation : string;        (* 结束地层 *)
  hit_rate : Q                   (* 进尺命中率 *)
}.

Definition set_xuhao (v : option Label) (r : Row) : Row :=
  mkRow v (entry_count r) (start_depth r) (end_depth r) (footage r)
        (drill_time r) (mud_density r) (mechanical_speed r) (drill_type r)
        (manufacturer r) (drill_press_a r) (drill_press_b r) (rpm_a r)
        (rpm_b r) (flow_a r) (flow_b r) (pump_press_a r) (pump_press_b r)
        (start_formation r) (end_formation r) (hit_rate r).

Definition set_footage (v : Q) (r : Row) : Row :=
  mkRow (xuhao r) (entry_count r) (start_depth r) (end_depth r) v
        (drill_time r) (mud_density r) (mechanical_speed r) (drill_type r)
        (manufacturer r) (drill_press_a r) (drill_press_b r) (rpm_a r)
        (rpm_b r) (flow_a r) (flow_b r) (pump_press_a r) (pump_press_b r)
        (start_formation r) (end_formation r) (hit_rate r).

Definition set_hit_rate (v : Q) (r : Row) : Row :=
  mkRow (xuhao r) (entry_count r) (start_depth r) (end_depth r) (footage r)
        (drill_time r) (mud_density r) (mechanical_speed r) (drill_type r)
        (manufacturer r) (drill_press_a r) (drill_press_b r) (rpm_a r)
        (rpm_b r) (flow_a r) (flow_b r) (pump_press_a r) (pump_press_b r)
        (start_formation r) (end_formation r) v.

(** An entry of [rows_to_modify]: [('depth', k, v)], [('hit_rate', k, v)]
    or the two-element [(k, v)]. *)
Inductive Mod :=
| ModDepth (idx : nat) (new_value : Q)
| ModHitRate (idx : nat) (new_value : Q)
| ModPlain (idx : nat) (new_value : Q).

(** What the scan accumulates.  [warnings] records, per printed
    type-mismatch warning, the list [drill_types] it prints. *)
Record ScanState := mkScan {
  new_rows_to_add : list (nat * Row);
  rows_to_modify : list Mod;
  warnings : list (list string)
}.

Definition init_state : ScanState := mkScan [] [] [].

(** [result_df.iloc[s], ..., result_df.iloc[e]] *)
Definition range_rows (df : list Row) (s e : nat) : list Row :=
  take (S e - s) (drop s df).

(** Forward search, lines 47-54: [j] runs from [i + 1] while row [j]
    continues the count of row [j - 1]. *)
Fixpoint find_sequence_end (fuel : nat) (df : list Row) (j sequence_end : nat) : nat :=
  match fuel with
  | O => sequence_end
  | S fuel' =>
      match df !! j, df !! (j - 1)%nat with
      | Some rj, Some rp =>
          if (entry_count rj =? entry_count rp + 1)%Z
          then find_sequence_end fuel' df (S j) j
          else sequence_end
      | _, _ => sequence_end
      end
  end.

(** Backward search, lines 57-64; the argument is [k + 1], so the loop
    condition [k >= 0] is the successor case. *)
Fixpoint find_sequence_start (df : list Row) (k1 sequence_start : nat) : nat :=
  match k1 with
  | O => sequence_start
  | S k =>
      match df !! k, df !! S k with
      | Some rk, Some rn =>
          if (entry_count rk =? entry_count rn - 1)%Z
          then find_sequence_start df k k
          else sequence_start
      | _, _ => sequence_start
      end
  end.

(** The cell texts that [pd.read_csv] reads as a missing value (NaN). *)
Definition na_values : list string :=
  [""; "#N/A"; "#N/A N/A"; "#NA"; "-1.#IND"; "-1.#QNAN"; "-NaN"; "-nan";
   "1.#IND"; "1.#QNAN"; "<NA>"; "N/A"; "NA"; "NULL"; "NaN"; "None"; "n/a";
   "nan"; "null"].

Definition isna (cell : string) : bool := bool_decide (cell ∈ na_values).

(** [a == b] on two cells of a text column: a missing cell is NaN, which
    equals nothing, itself included; [a != b] is the negation. *)
Definition cell_eq (a b : string) : bool :=
  negb (isna a) && negb (isna b) && bool_decide (a = b).

(** Lines 78-87. *)
Definition consistent_drill_info (range : list Row)
    (base_drill_type base_manufacturer : string) : bool :=
  forallb (fun r => negb (negb (cell_eq (drill_type r) base_drill_type)
                          || negb (cell_eq (manufacturer r) base_manufacturer)))
          range.

(** Lines 90-95. *)
Fixpoint depth_continuous (range : list Row) : bool :=
  match range with
  | r :: ((r' :: _) as rest) =>
      Qeq_bool (end_depth r) (start_depth r') && depth_continuous rest
  | _ => true
  end.

(** [cell in cells]: some element is the same object, as all missing cells
    are, or is equal. *)
Definition cell_in (cell : string) (cells : list string) : bool :=
  existsb (fun other => (isna cell && isna other) || cell_eq cell other) cells.

(** Lines 102-106: the distinct bit types of the range, in order of first
    occurrence. *)
Definition collect_drill_types (range : list Row) : list string :=
  fold_left (fun drill_types r =>
               if cell_in (drill_type r) drill_types then drill_types
               else drill_types ++ [drill_type r]) range [].

(** [sum(... for k in range(sequence_start, sequence_end + 1))] *)
Definition py_sum (values : list Q) : Q := fold_left Qplus values 0.

(** The accumulation loops of lines 125-130 and 179-188. *)
Definition weighted_sum (value : Row -> Q) (range : list Row) : Q :=
  fold_left (fun acc r => acc + value r * footage r) range 0.

Definition total_weight (range : list Row) : Q :=
  fold_left (fun acc r => acc + footage r) range 0.

(** Lines 132-135 and 190-208. *)
Definition weighted_average (value : Row -> Q) (range : list Row) (last : Row) : Q :=
  if Qlt_bool 0 (total_weight range)
  then weighted_sum value range / total_weight range
  else value last.

(** Lines 150-157: the pair (weighted_mechanical_speed, total_weight_for_speed). *)
Definition speed_sums (range : list Row) : Q * Q :=
  fold_left (fun acc r =>
               match mechanical_speed r with
               | Some v => (acc.1 + v * footage r, acc.2 + footage r)
               | None => acc
               end) range (0, 0).

(** Lines 159-167. *)
Definition weighted_mechanical_speed (range : list Row) (last : Row) : Q :=
  let '(weighted, total_weight_for_speed) := speed_sums range in
  if Qlt_bool 0 total_weight_for_speed
  then weighted / total_weight_for_speed
  else match mechanical_speed last with
       | None => 0
       | Some last_valid_speed => last_valid_speed
       end.

(** [f"a{n}"] *)
Definition new_index (n : nat) : string :=
  "a" +:+ NilEmpty.string_of_uint (Nat.to_uint n).

(** Lines 211-231: the synthesized row. *)
Definition merged_row (range : list Row) (first last_row : Row) (n : nat) : Row :=
  {| xuhao := Some (LStr (new_index n));
     entry_count := entry_count last_row;
     start_depth := start_depth first;
     end_depth := end_depth last_row;
     footage := py_round (py_sum (footage <$> range)) 6;
     drill_time := py_round (py_sum (drill_time <$> range)) 6;
     mud_density := py_round (weighted_average mud_density range last_row) 6;
     mechanical_speed := Some (py_round (weighted_mechanical_speed range last_row) 6);
     drill_type := drill_type last_row;
     manufacturer := manufacturer last_row;
     drill_press_a := py_round (weighted_average drill_press_a range last_row) 6;
     drill_press_b := py_round (weighted_average drill_press_b range last_row) 6;
     rpm_a := py_round (weighted_average rpm_a range last_row) 6;
     rpm_b := py_round (weighted_average rpm_b range last_row) 6;
     flow_a := py_round (weighted_average flow_a range last_row) 6;
     flow_b := py_round (weighted_average flow_b range last_row) 6;
     pump_press_a := py_round (weighted_average pump_press_a range last_row) 6;
     pump_press_b := py_round (weighted_average pump_press_b range last_row) 6;
     start_formation := start_formation first;
     end_formation := end_formation last_row;
     hit_rate := py_round 1 6 |}.

(** Lines 241-246. *)
Definition row_hit_rate (original_depth total_depth : Q) : Q :=
  py_round (if Qeq_bool total_depth 0 then 1 else original_depth / total_depth) 6.

(** Lines 237-247: two entries per row of the range. *)
Fixpoint range_mods (range : list Row) (k : nat) (total_depth : Q) : list Mod :=
  match range with
  | [] => []
  | r :: range' =>
      ModDepth k (py_round total_depth 6)
      :: ModHitRate k (row_hit_rate (footage r) total_depth)
      :: range_mods range' (S k) total_depth
  end.

(** Line 33, right of the first [and]: the next row exists and is a first entry. *)
Definition next_entry_is_one (df : list Row) (i : nat) : bool :=
  match df !! S i with
  | Some next => (entry_count next =? 1)%Z
  | None => false
  end.

(** Line 113. *)
Definition checks_pass (range : list Row) (first : Row) : bool :=
  consistent_drill_info range (drill_type first) (manufacturer first)
  && depth_continuous range.

(** Line 100: depth continuous, same manufacturer on the first two rows,
    but the bit information not consistent. *)
Definition is_type_mismatch_warning (range : list Row) (first second : Row) : bool :=
  negb (consistent_drill_info range (drill_type first) (manufacturer first))
  && depth_continuous range
  && cell_eq (manufacturer first) (manufacturer second).

(** One iteration of the [while i < len(result_df)] loop: the next value
    of [i] and the updated lists.  [None] stands for an [IndexError]. *)
Definition scan_step (df : list Row) (i : nat) (st : ScanState)
    : option (nat * ScanState) :=
  current_row ← df !! i;
  if (entry_count current_row =? 1)%Z && next_entry_is_one df i then
    Some ((i + 2)%nat,
          mkScan (new_rows_to_add st)
                 (rows_to_modify st
                    ++ ModPlain i (py_round 1 6)
                    :: (if next_entry_is_one df i
                        then [ModPlain (i + 1) (py_round 1 6)] else []))
                 (warnings st))
  else if (1 <=? entry_count current_row)%Z then
    let sequence_end := find_sequence_end (length df) df (i + 1) i in
    let sequence_start := find_sequence_start df i i in
    if (sequence_start <? sequence_end)%nat then
      first ← df !! sequence_start;
      second ← df !! (sequence_start + 1)%nat;
      last_row ← df !! sequence_end;
      let range := range_rows df sequence_start sequence_end in
      let warnings' :=
        if is_type_mismatch_warning range first second
        then warnings st ++ [collect_drill_types range]
        else warnings st in
      if checks_pass range first then
        let total_depth := py_sum (footage <$> range) in
        Some ((sequence_end + 1)%nat,
              mkScan (new_rows_to_add st
                        ++ [(sequence_end,
                             merged_row range first last_row
                                        (length (new_rows_to_add st) + 1))])
                     (rows_to_modify st ++ range_mods range sequence_start total_depth)
                     warnings')
      else
        Some ((sequence_end + 1)%nat,
              mkScan (new_rows_to_add st) (rows_to_modify st) warnings')
    else Some ((i + 1)%nat, st)
  else Some ((i + 1)%nat, st).

(** The scan loop, lines 27-259.  [None] is fuel running out, or an
    [IndexError] of a step. *)
Fixpoint scan (fuel : nat) (df : list Row) (i : nat) (st : ScanState)
    : option ScanState :=
  if (length df <=? i)%nat then Some st
  else match fuel with
       | O => None
       | S fuel' =>
           '(i', st') ← scan_step df i st;
           scan fuel' df i' st'
       end.

(** [result_df.iloc[idx, col] = v]: an [IndexError] out of range. *)
Definition set_iloc (df : list Row) (idx : nat) (f : Row -> Row) : option (list Row) :=
  if (idx <? length df)%nat then Some (alter f idx df) else None.

(** Lines 267-281. *)
Definition apply_mod (df : list Row) (entry : Mod) : option (list Row) :=
  match entry with
  | ModDepth idx new_value => set_iloc df idx (set_footage (py_round new_value 6))
  | ModHitRate idx new_value => set_iloc df idx (set_hit_rate (py_round new_value 6))
  | ModPlain idx new_value => set_iloc df idx (set_hit_rate (py_round new_value 6))
  end.

Fixpoint apply_mods (df : list Row) (mods : list Mod) : option (list Row) :=
  match mods with
  | [] => Some df
  | entry :: mods' => df' ← apply_mod df entry; apply_mods df' mods'
  end.

(** [sorted(new_rows_to_add, key=lambda x: x[0], reverse=True)]: a stable
    sort, rows of equal key keep their order. *)
Fixpoint insert_desc (x : nat * Row) (l : list (nat * Row)) : list (nat * Row) :=
  match l with
  | [] => [x]
  | y :: l' => if (x.1 <? y.1)%nat then y :: insert_desc x l' else x :: l
  end.

Definition sorted_new_rows (l : list (nat * Row)) : list (nat * Row) :=
  foldr insert_desc [] l.

(** Lines 288-296: [pd.concat] of the rows before [actual_insert_pos], the
    new row, and the rows from [actual_insert_pos] on. *)
Definition insert_row (df : list Row) (entry : nat * Row) : list Row :=
  let actual_insert_pos := (entry.1 + 1)%nat in
  take actual_insert_pos df ++ [entry.2] ++ drop actual_insert_pos df.

Definition insert_new_rows (df : list Row) (sorted : list (nat * Row)) : list Row :=
  fold_left insert_row sorted df.

(** Lines 11-16: the temporary 序号 column and the 进尺命中率 column. *)
Definition prepare (has_xuhao : bool) (df : list Row) : list Row :=
  imap (fun k r =>
          set_hit_rate 1
            (if has_xuhao then r else set_xuhao (Some (LInt (Z.of_nat k + 1))) r)) df.

(** Lines 300-301. *)
Definition finish (has_xuhao : bool) (df : list Row) : list Row :=
  if has_xuhao then df else set_xuhao None <$> df.

(** The whole pass over an already parsed frame: [has_xuhao] tells whether
    the frame has a 序号 column.  The result is the frame written to the
    output file. *)
Definition process_drilling_data (has_xuhao : bool) (df : list Row) : option (list Row) :=
  let result_df := prepare has_xuhao df in
  st ← scan (length result_df) result_df 0 init_state;
  modified ← apply_mods result_df (rows_to_modify st);
  Some (finish has_xuhao
          (insert_new_rows modified (sorted_new_rows (new_rows_to_add st)))).

End Merging.

(** ** The formation dictionary, shared by the validator and the classifier *)

Module Dictionary.

(** A field value of the JSON dictionary: a number or a string (other
    JSON values, such as null, are not part of the model). *)
Inductive JVal :=
| JNum (q : Q)
| JStr (s : string).

(** One entry of the dictionary; a field is [None] when the key is absent. *)
Record Info := mkInfo {
  parent_formation : option string;   (* 所属层位 *)
  top_position : option JVal;         (* 顶界所处位置（0~1） *)
  bottom_position : option JVal       (* 底界所处位置（0~1） *)
}.

Inductive Exception :=
| KeyError (key : string)
| ValueError (text : string)
| TypeError.

(** A computation that returns or raises. *)
Inductive Result (A : Type) :=
| Ok (a : A)
| Raise (e : Exception).
Arguments Ok {A} a.
Arguments Raise {A} e.

#[global] Instance result_bind : MBind Result :=
  fun A B (k : A -> Result B) (m : Result A) =>
    match m with
    | Ok a => k a
    | Raise e => Raise e
    end.

(** [d[key]] on a field that may be absent. *)
Definition getitem {A : Type} (key : string) (field : option A) : Result A :=
  match field with
  | Some a => Ok a
  | None => Raise (KeyError key)
  end.

(** [row[key]] on a record of [csv.DictReader] that has a text in every
    column of the header. *)
Definition text_cell (row : gmap string string) (key : string) : Result string :=
  getitem key (row !! key).

(** [float(v)], given what [float] does on strings. *)
Definition float_of (py_float : string -> option Q) (v : JVal) : Result Q :=
  match v with
  | JNum q => Ok q
  | JStr s =>
      match py_float s with
      | Some q => Ok q
      | None => Raise (ValueError s)
      end
  end.

End Dictionary.

(** ** Depth mapping and adjustment: process_drilling_data.py *)

Module Classifier.
Import Dictionary.

(** A row of 地层分层.csv as kept in [formation_depths]. *)
Record Depths := mkDepths {
  top_depth : Q;      (* 顶深 *)
  bottom_depth : Q    (* 底深 *)
}.

(** [str.replace(old, '')]: [skip] counts the characters of a match still
    to be dropped. *)
Fixpoint remove_from (old s : string) (skip : nat) : string :=
  match s with
  | EmptyString => EmptyString
  | String c s' =>
      match skip with
      | S k => remove_from old s' k
      | O =>
          if String.prefix old s
          then remove_from old s' (String.length old - 1)
          else String c (remove_from old s' 0)
      end
  end.

Definition remove (old s : string) : string :=
  match old with
  | EmptyString => s
  | _ => remove_from old s 0
  end.

(** [sub in s] *)
Fixpoint contains (sub s : string) : bool :=
  String.prefix sub s
  || match s with
     | EmptyString => false
     | String _ s' => contains sub s'
     end.

(** [.replace('亚段', '').replace('1', '').replace('2', '').replace('3', '')] *)
Definition strip_subsegment (name : string) : string :=
  remove "3" (remove "2" (remove "1" (remove "亚段" name))).

(** The result of [check_depth_range]: 是, 偏小, 偏大 or 无法判断. *)
Inductive Judgment :=
| InRange
| TooLow
| TooHigh
| Indeterminate.

Section WithFloat.

(** What [float] returns on a string, [None] for a [ValueError]. *)
Variable py_float : string -> option Q.

(** [self.stratigraphic_dict] *)
Variable stratigraphic_dict : gmap string Info.

(** [self.formation_depths], in insertion order, keys distinct. *)
Variable formation_depths : list (string * Depths).

Definition depths_of (formation_name : string) : option Depths :=
  snd <$> List.find (fun p => bool_decide (p.1 = formation_name)) formation_depths.

Definition max_bottom (l : list (string * Depths)) : Q :=
  match l with
  | [] => 0
  | p :: l' => fold_left (fun m p' => Qmax m (bottom_depth p'.2)) l' (bottom_depth p.2)
  end.

(** Lines 57-74. *)
Definition predict_formation_by_depth (depth : Q) : string :=
  match formation_depths with
  | [] => "未知"
  | _ =>
      match List.find (fun p => Qle_bool (top_depth p.2) depth
                                && Qlt_bool depth (bottom_depth p.2))
                      formation_depths with
      | Some p => p.1
      | None =>
          let max_depth := max_bottom formation_depths in
          if Qeq_bool depth max_depth then
            match List.find (fun p => Qeq_bool (bottom_depth p.2) max_depth)
                            formation_depths with
            | Some p => p.1
            | None => "未知"
            end
          else "未知"
      end
  end.

(** Lines 85-86 and 100-101. *)
Definition mapped_depth_in (position_value : JVal) (depth_info : Depths) : Result Q :=
  position ← float_of py_float position_value;
  Ok (py_round (position * (bottom_depth depth_info - top_depth depth_info)
                + top_depth depth_info) 2).

(** Lines 89-93. *)
Definition similar_formations (formation_name : string) : list (string * Depths) :=
  List.filter (fun p => contains (remove "段" formation_name) p.1
                        || bool_decide (strip_subsegment p.1 = remove "段" formation_name))
              formation_depths.

(** Lines 76-103; [Ok None] is the returned [None]. *)
Definition calculate_mapped_depth (position_value : JVal) (formation_name : string)
    : Result (option Q) :=
  match formation_depths with
  | [] => Ok None
  | _ =>
      match depths_of formation_name with
      | Some depth_info =>
          mapped_depth ← mapped_depth_in position_value depth_info;
          Ok (Some mapped_depth)
      | None =>
          match similar_formations formation_name with
          | closest_formation :: _ =>
              mapped_depth ← mapped_depth_in position_value closest_formation.2;
              Ok (Some mapped_depth)
          | [] => Ok None
          end
      end
  end.

(** Lines 105-114; [true] is 是 and [false] is 否. *)
Definition compare_predicted_and_actual (predicted actual : string) : bool :=
  if bool_decide (predicted = actual) then true
  else if bool_decide (strip_subsegment predicted = remove "段" actual) then true
  else if bool_decide (strip_subsegment actual = remove "段" predicted) then true
  else false.

(** Lines 116-129. *)
Definition check_depth_range (actual_depth : Q)
    (mapped_depth_start mapped_depth_end : option Q) : Judgment :=
  match mapped_depth_start, mapped_depth_end with
  | Some s, Some e =>
      let min_mapped_depth := Qmin s e in
      let max_mapped_depth := Qmax s e in
      if Qle_bool min_mapped_depth actual_depth
         && Qle_bool actual_depth max_mapped_depth
      then InRange
      else if Qlt_bool actual_depth min_mapped_depth then TooLow
      else TooHigh
  | _, _ => Indeterminate
  end.

(** Lines 131-146. *)
Definition adjust_depth_based_on_judgment (judgment : Judgment) (actual_depth : Q)
    (top_mapped_depth bottom_mapped_depth : option Q) : Q :=
  match judgment with
  | InRange => actual_depth
  | TooHigh =>
      match top_mapped_depth, bottom_mapped_depth with
      | Some t, Some b => Qmax t b
      | _, _ => actual_depth
      end
  | TooLow =>
      match top_mapped_depth, bottom_mapped_depth with
      | Some t, Some b => Qmin t b
      | _, _ => actual_depth
      end
  | Indeterminate => actual_depth
  end.

(** Lines 211-234: the two judgments and the two adjusted depths of a row. *)
Definition adjust_boundaries (start_depth end_depth : Q)
    (start_top_mapped_depth start_bottom_mapped_depth
     end_top_mapped_depth end_bottom_mapped_depth : option Q)
    : Judgment * Judgment * Q * Q :=
  let start_depth_in_range :=
    check_depth_range start_depth start_top_mapped_depth start_bottom_mapped_depth in
  let end_depth_in_range :=
    check_depth_range end_depth end_top_mapped_depth end_bottom_mapped_depth in
  let adjusted_start_depth :=
    adjust_depth_based_on_judgment start_depth_in_range start_depth
      start_top_mapped_depth start_bottom_mapped_depth in
  let adjusted_end_depth :=
    adjust_depth_based_on_judgment end_depth_in_range end_depth
      end_top_mapped_depth end_bottom_mapped_depth in
  let adjusted_start_depth :=
    match start_depth_in_range, end_depth_in_range with
    | TooHigh, TooHigh =>
        match start_top_mapped_depth, start_bottom_mapped_depth with
        | Some t, Some b => py_round ((t + b) / 2) 2
        | _, _ => adjusted_start_depth
        end
    | _, _ => adjusted_start_depth
    end in
  let adjusted_end_depth :=
    match start_depth_in_range, end_depth_in_range with
    | TooLow, TooLow =>
        match end_top_mapped_depth, end_bottom_mapped_depth with
        | Some t, Some b => py_round ((t + b) / 2) 2
        | _, _ => adjusted_end_depth
        end
    | _, _ => adjusted_end_depth
    end in
  (start_depth_in_range, end_depth_in_range, adjusted_start_depth, adjusted_end_depth).

(** The default of [self.stratigraphic_dict.get], lines 170-180. *)
Definition unknown_info : Info :=
  mkInfo (Some "未知") (Some (JStr "0")) (Some (JStr "1")).

(** A row written to the output file, lines 237-265. *)
Record OutRow := mkOutRow {
  out_xuhao : option string;                   (* 序号 *)
  out_start_depth : option string;             (* 起始井深 *)
  out_end_depth : option string;               (* 结束井深 *)
  out_start_formation : option string;         (* 起始地层 *)
  out_start_parent : string;                   (* 起始地层_所属层位 *)
  out_start_top_position : JVal;               (* 起始地层_顶界所处位置（0~1） *)
  out_start_top_mapped_depth : option Q;       (* 起始地层_顶界映射深度 *)
  out_start_bottom_position : JVal;            (* 起始地层_底界所处位置（0~1） *)
  out_start_bottom_mapped_depth : option Q;    (* 起始地层_底界映射深度 *)
  out_end_formation : option string;           (* 结束地层 *)
  out_end_parent : string;                     (* 结束地层_所属层位 *)
  out_end_top_position : JVal;                 (* 结束地层_顶界所处位置（0~1） *)
  out_end_top_mapped_depth : option Q;         (* 结束地层_顶界映射深度 *)
  out_end_bottom_position : JVal;              (* 结束地层_底界所处位置（0~1） *)
  out_end_bottom_mapped_depth : option Q;      (* 结束地层_底界映射深度 *)
  predicted_start_formation : string;          (* 起始井深预测所属大层 *)
  start_consistency : bool;                    (* 起始预测大层与所属层位一致性 *)
  start_depth_in_range : Judgment;             (* 起始井深是否在映射深度间 *)
  predicted_end_formation : string;            (* 结束井深预测所属大层 *)
  end_consistency : bool;                      (* 结束预测大层与所属层位一致性 *)
  end_depth_in_range : Judgment;               (* 结束井深是否在映射深度间 *)
  adjusted_start_depth : Q;                    (* 调整后起始井深 *)
  adjusted_end_depth : Q                       (* 调整后结束井深 *)
}.

(** One record of [csv.DictReader]: a key for every column of the header;
    the cell is [None] when the record ends before the column. *)
Definition CsvRow : Type := gmap string (option string).

(** [row[key]]: a [KeyError] when the header has no such column. *)
Definition cell (row : CsvRow) (key : string) : Result (option string) :=
  getitem key (row !! key).

(** [float(row[key])]: a [TypeError] on the cell [None]. *)
Definition float_of_cell (value : option string) : Result Q :=
  match value with
  | Some text => float_of py_float (JStr text)
  | None => Raise TypeError
  end.

(** [self.stratigraphic_dict.get(name, default)], lines 170-180; [None] is
    no key of a dictionary read from JSON. *)
Definition dict_get (name : option string) : Info :=
  default unknown_info (name ≫= (stratigraphic_dict !!.)).

(** The body of the [for row in reader] loop, lines 160-267. *)
Definition process_row (row : CsvRow) : Result OutRow :=
  start_formation ← cell row "起始地层";
  end_formation ← cell row "结束地层";
  start_text ← cell row "起始井深";
  start_depth ← float_of_cell start_text;
  end_text ← cell row "结束井深";
  end_depth ← float_of_cell end_text;
  let predicted_start := predict_formation_by_depth start_depth in
  let predicted_end := predict_formation_by_depth end_depth in
  let start_info := dict_get start_formation in
  let end_info := dict_get end_formation in
  start_formation_for_depth ← getitem "所属层位" (parent_formation start_info);
  end_formation_for_depth ← getitem "所属层位" (parent_formation end_info);
  start_top_position ← getitem "顶界所处位置（0~1）" (top_position start_info);
  start_top ← calculate_mapped_depth start_top_position start_formation_for_depth;
  start_bottom_position ← getitem "底界所处位置（0~1）" (bottom_position start_info);
  start_bottom ← calculate_mapped_depth start_bottom_position start_formation_for_depth;
  end_top_position ← getitem "顶界所处位置（0~1）" (top_position end_info);
  end_top ← calculate_mapped_depth end_top_position end_formation_for_depth;
  end_bottom_position ← getitem "底界所处位置（0~1）" (bottom_position end_info);
  end_bottom ← calculate_mapped_depth end_bottom_position end_formation_for_depth;
  let start_ok := compare_predicted_and_actual predicted_start start_formation_for_depth in
  let end_ok := compare_predicted_and_actual predicted_end end_formation_for_depth in
  let '(start_in_range, end_in_range, adjusted_start, adjusted_end) :=
    adjust_boundaries start_depth end_depth start_top start_bottom end_top end_bottom in
  xuhao ← cell row "序号";
  Ok (mkOutRow xuhao start_text end_text
               start_formation start_formation_for_depth
               start_top_position start_top start_bottom_position start_bottom
               end_formation end_formation_for_depth
               end_top_position end_top end_bottom_position end_bottom
               predicted_start start_ok start_in_range
               predicted_end end_ok end_in_range
               adjusted_start adjusted_end).

(** The loop over the rows: the first exception ends it. *)
Fixpoint process_rows (rows : list CsvRow) : Result (list OutRow) :=
  match rows with
  | [] => Ok []
  | row :: rows' =>
      new_row ← process_row row;
      processed_rows ← process_rows rows';
      Ok (new_row :: processed_rows)
  end.

(** Lines 153-294, for a dictionary and a depth table that loaded: the
    rows written to the output file, or [None] when the [except] clause
    returned [False] and nothing was written. *)
Definition process_drilling_data (rows : list CsvRow) : option (list OutRow) :=
  match process_rows rows with
  | Ok processed_rows => Some processed_rows
  | Raise _ => None
  end.

End WithFloat.

End Classifier.

(** ** Confidence scoring: analyze_confidence.py *)

Module Confidence.

(** A row of 地层分层.csv: 类别, 地层顶深, 地层底深. *)
Record FormationRow := mkFormationRow {
  row_category : string;
  row_top : Q;
  row_bottom : Q
}.

(** An entry of [self.categories]. *)
Record CategoryInfo := mkCategoryInfo {
  category : string;
  cat_start_depth : Q;   (* start_depth *)
  cat_end_depth : Q      (* end_depth *)
}.

(** Lines 30-34: the group of the row's category takes the row in. *)
Fixpoint add_to_group (row : FormationRow) (grouped : list CategoryInfo)
    : list CategoryInfo :=
  match grouped with
  | [] => [mkCategoryInfo (row_category row) (row_top row) (row_bottom row)]
  | g :: grouped' =>
      if bool_decide (category g = row_category row)
      then mkCategoryInfo (category g)
                          (Qmin (cat_start_depth g) (row_top row))
                          (Qmax (cat_end_depth g) (row_bottom row)) :: grouped'
      else g :: add_to_group row grouped'
  end.

(** Lines 23-44. *)
Definition load_categories (formation_df : list FormationRow) : list CategoryInfo :=
  fold_left (fun grouped row => add_to_group row grouped) formation_df [].

(** A row of the processed well data. *)
Record WellRow := mkWellRow {
  idx : Merging.Label;           (* 序号 *)
  adjusted_start_depth : Q;      (* 调整后起始井深 *)
  adjusted_end_depth : Q         (* 调整后结束井深 *)
}.

(** An output row: 序号, 类别, 置信度. *)
Record ConfidenceRow := mkConfidenceRow {
  conf_idx : Merging.Label;
  conf_category : string;
  confidence : Q
}.

(** Lines 78-82: the ends of the overlap of the well section and the category. *)
Definition overlap_start (row : WellRow) (category_info : CategoryInfo) : Q :=
  Qmax (Qmin (adjusted_start_depth row) (adjusted_end_depth row))
       (cat_start_depth category_info).

Definition overlap_end (row : WellRow) (category_info : CategoryInfo) : Q :=
  Qmin (Qmax (adjusted_start_depth row) (adjusted_end_depth row))
       (cat_end_depth category_info).

(** Line 69. *)
Definition total_length (row : WellRow) : Q :=
  Qabs (adjusted_end_depth row - adjusted_start_depth row).

(** Lines 73-99: the row appended for one category, if any. *)
Definition category_row (row : WellRow) (category_info : CategoryInfo)
    : option ConfidenceRow :=
  if Qle_bool (overlap_start row category_info) (overlap_end row category_info) then
    let overlap_length :=
      Qabs (overlap_end row category_info - overlap_start row category_info) in
    let confidence :=
      if Qeq_bool (total_length row) 0 then 1
      else overlap_length / total_length row in
    Some (mkConfidenceRow (idx row) (category category_info) (py_round confidence 6))
  else None.

(** Lines 60-99: [output_rows] after the two loops. *)
Definition calculate_confidence (categories : list CategoryInfo)
    (well_data_df : list WellRow) : list ConfidenceRow :=
  flat_map (fun row => omap (category_row row) categories) well_data_df.

End Confidence.

(** ** Dictionary validation: validate_dictionary.py *)

Module Validator.
Import Dictionary.

(** The entries of [errors]; each stands for the message built from its
    arguments. *)
Inductive Error :=
| EmptyDictionary                                  (* 字典数据为空或加载失败 *)
| EmptyDatatest                                    (* datatest.csv数据为空或加载失败 *)
| EmptyStratigraphic                               (* 地层分层.csv数据为空或加载失败 *)
| MissingInDictionary (missing_in_dict : list string)
                                                   (* 字典中缺少以下地层项：[...] *)
| MissingField (formation field : string)          (* 地层 '..' 缺少 '..' 字段 *)
| ParentNotListed (formation parent : string)
                                   (* 地层 '..' 的所属层位 '..' 不在地层分层信息中 *)
| OutOfRange (formation field : string) (value : Q)
                                   (* 地层 '..' 的 '..' 值 .. 不在范围(0~1)内 *)
| NotANumber (formation field text : string).
                                   (* 地层 '..' 的 '..' 值 '..' 不是有效的数字 *)

Section WithFloat.

Variable py_float : string -> option Q.

(** Lines 89-100, for one formation. *)
Definition check_parent (json_data : gmap string Info)
    (stratigraphic_formations : gset string) (formation : string) : list Error :=
  match json_data !! formation with
  | None => []
  | Some details =>
      match parent_formation details with
      | None => [MissingField formation "所属层位"]
      | Some parent =>
          if bool_decide (parent ∈ stratigraphic_formations) then []
          else [ParentNotListed formation parent]
      end
  end.

(** Lines 108-118, for one field. *)
Definition check_field (formation field : string) (value : option JVal) : list Error :=
  match value with
  | None => [MissingField formation field]
  | Some v =>
      match float_of py_float v with
      | Ok value =>
          if Qle_bool 0 value && Qle_bool value 1 then []
          else [OutOfRange formation field value]
      | Raise _ =>
          match v with
          | JStr text => [NotANumber formation field text]
          | JNum _ => []
          end
      end
  end.

(** Lines 103-118, for one formation. *)
Definition check_range (json_data : gmap string Info) (formation : string) : list Error :=
  match json_data !! formation with
  | None => []
  | Some details =>
      check_field formation "顶界所处位置（0~1）" (top_position details)
      ++ check_field formation "底界所处位置（0~1）" (bottom_position details)
  end.

(** Line 84: the set difference, as a list, here in the order of
    [datatest_formations]; the script lists the set in its own order. *)
Definition missing_in_dict (json_data : gmap string Info)
    (datatest_formations : list string) : list string :=
  List.filter (fun formation => bool_decide (json_data !! formation = None))
              datatest_formations.

(** Lines 67-120.  [datatest_formations] lists the set in the order in
    which the loops visit it. *)
Definition validate_dictionary (json_data : gmap string Info)
    (datatest_formations : list string) (stratigraphic_formations : gset string)
    : list Error :=
  if bool_decide (json_data = ∅) then [EmptyDictionary]
  else if bool_decide (datatest_formations = []) then [EmptyDatatest]
  else if bool_decide (stratigraphic_formations = ∅) then [EmptyStratigraphic]
  else
    (match missing_in_dict json_data datatest_formations with
     | [] => []
     | missing => [MissingInDictionary missing]
     end)
    ++ flat_map (check_parent json_data stratigraphic_formations) datatest_formations
    ++ flat_map (check_range json_data) datatest_formations.

End WithFloat.

End Validator.

(** ** Building the dictionary: csv_to_json_converter.py *)

Module Converter.
Import Dictionary.

(** Lines 36-40: the three attributes of a row of the CSV file, for a
    record with a text in each column the header has. *)
Definition csv_attributes (row : gmap string string) : Result Info :=
  parent ← Dictionary.text_cell row "所属层位";
  top ← Dictionary.text_cell row "顶界所处位置（0~1）";
  bottom ← Dictionary.text_cell row "底界所处位置（0~1）";
  Ok (mkInfo (Some parent) (Some (JStr top)) (Some (JStr bottom))).

(** Lines 31-51: the loop over the rows, with [result_dict] threaded
    through.  A missing column raises [KeyError]. *)
Fixpoint convert_rows (existing_data result_dict : gmap string Info)
    (update_strategy : string) (rows : list (gmap string string))
    : Result (gmap string Info) :=
  match rows with
  | [] => Ok result_dict
  | row :: rows' =>
      stratigraphic_name ← Dictionary.text_cell row "地层名称";
      attributes ← csv_attributes row;
      if bool_decide (update_strategy = "u") then
        if bool_decide (is_Some (existing_data !! stratigraphic_name))
        then convert_rows existing_data result_dict update_strategy rows'
        else convert_rows existing_data
               (<[stratigraphic_name := attributes]> result_dict) update_strategy rows'
      else if bool_decide (update_strategy = "r") then
        convert_rows existing_data
          (<[stratigraphic_name := attributes]> result_dict) update_strategy rows'
      else convert_rows existing_data result_dict update_strategy rows'
  end.

(** Lines 7-53.  [config] is the content of the configuration file, [None]
    when no path is given or the file does not exist. *)
Definition convert_csv_to_json (rows : list (gmap string string))
    (config : option (gmap string Info)) (update_strategy : string)
    : Result (gmap string Info) :=
  let existing_data := default ∅ config in
  convert_rows existing_data existing_data update_strategy rows.

End Converter.

(** ** The one-step analysis: simple_analysis.py *)

Module SimpleAnalysis.
Import Confidence.


(** [column.min()] and [column.max()] of a column that is not empty. *)
Definition column_min (column : list Q) : Q :=
  match column with
  | [] => 0
  | x :: column' => fold_left Qmin column' x
  end.

Definition column_max (column : list Q) : Q :=
  match column with
  | [] => 0
  | x :: column' => fold_left Qmax column' x
  end.


(** Lines 89-111. *)
Definition calculate_confidence (df_formations : list FormationRow)
    (start_depth end_depth : Q) (category : string) : Q :=
  let category_rows :=
    List.filter (fun row => bool_decide (row_category row = category)) df_formations in
  match category_rows with
  | [] => 0
  | _ =>
      let min_start := column_min (row_top <$> category_rows) in
      let max_end := column_max (row_bottom <$> category_rows) in
      let well_start := Qmin start_depth end_depth in
      let well_end := Qmax start_depth end_depth in
      let overlap_start := Qmax well_start min_start in
      let overlap_end := Qmin well_end max_end in
      if Qle_bool overlap_start overlap_end then
        let overlap_length := overlap_end - overlap_start in
        let total_length := Qabs (end_depth - start_depth) in
        if Qlt_bool 0 total_length then overlap_length / total_length else 1
      else 0
  end.


End SimpleAnalysis.

(** ** Loading the depth table: process_drilling_data.py, lines 38-55 *)

Module DepthTable.
Import Dictionary Classifier.

(** [d[key] = value] on a dict kept in insertion order: a key that is
    there keeps its place. *)
Fixpoint dict_set (key : string) (value : Depths) (d : list (string * Depths))
    : list (string * Depths) :=
  match d with
  | [] => [(key, value)]
  | p :: d' =>
      if bool_decide (p.1 = key) then (key, value) :: d'
      else p :: dict_set key value d'
  end.

Section WithFloat.

Variable py_float : string -> option Q.

(** Lines 45-51: the depths of one row, for a record with a text in
    each of the three columns the header has. *)
Definition read_row (row : gmap string string) : Result (string * Depths) :=
  formation_name ← text_cell row "地层信息";
  top_text ← text_cell row "地层顶深";
  top_depth ← float_of py_float (JStr top_text);
  bottom_text ← text_cell row "地层底深";
  bottom_depth ← float_of py_float (JStr bottom_text);
  Ok (formation_name, mkDepths top_depth bottom_depth).

(** Lines 44-51: the loop, with [self.formation_depths] threaded through. *)
Fixpoint load_rows (rows : list (gmap string string))
    (formation_depths : list (string * Depths)) : Result (list (string * Depths)) :=
  match rows with
  | [] => Ok formation_depths
  | row :: rows' =>
      entry ← read_row row;
      load_rows rows' (dict_set entry.1 entry.2 formation_depths)
  end.

(** Lines 38-55 for a file that is there: the table, or the exception that
    leaves the function ([KeyError] and [ValueError] are not caught). *)
Definition load_formation_depths (rows : list (gmap string string))
    : Result (list (string * Depths)) :=
  load_rows rows [].

(** Lines 148-294, for a dictionary that loaded: the depth table is loaded
    before the [try], so what it raises leaves the method. *)
Definition process_drilling_data (stratigraphic_dict : gmap string Info)
    (table_rows : list (gmap string string)) (rows : list CsvRow)
    : Result (option (list OutRow)) :=
  formation_depths ← load_formation_depths table_rows;
  Ok (Classifier.process_drilling_data py_float stratigraphic_dict
        formation_depths rows).

End WithFloat.

End DepthTable.

(** ** Vocabulary of the statements: rounded cells *)

Module FloatSpec.

(** A bound for the error of a computation on doubles: [ops] operations,
    the conversions of the operands from and to decimal text included, on
    values whose magnitude is at most [scale].  One operation is off by at
    most 2^-53 of its result; 10^-15 is nine times that. *)
Definition float_error (ops : nat) (scale : Q) : Q :=
  inject_Z (Z.of_nat ops) * (1 + scale) * (1 # 1000000000000000).

(** [cell] is [exact] rounded to [ndigits] decimals by a computation on
    doubles of error [err] at most: a number of [ndigits] decimals that is
    at most half a unit of the last decimal, and [err], away from [exact].
    At a tie, and within [err] of one, either neighbour can be written. *)
Definition rounded_to (ndigits : nat) (err exact cell : Q) : Prop :=
  (exists z : Z, cell == z # pow10 ndigits)
  /\ Qabs (cell - exact) <= (1 # (2 * pow10 ndigits)) + err.

End FloatSpec.

(** * Vocabulary of the statements *)

Module MergingSpec.
Import Merging.

(** The index a modification writes to. *)
Definition mod_idx (m : Mod) : nat :=
  match m with
  | ModDepth idx _ | ModHitRate idx _ | ModPlain idx _ => idx
  end.

(** A scheduled row was synthesized from a range of at least two rows that
    ends at its anchor. *)
Definition synthesized_from (df : list Row) (entry : nat * Row) : Prop :=
  exists (sequence_start : nat) (first last_row : Row) (n : nat),
    (sequence_start < entry.1)%nat
    /\ df !! sequence_start = Some first
    /\ df !! entry.1 = Some last_row
    /\ entry.2 = merged_row (range_rows df sequence_start entry.1) first last_row n.

Record scan_invariant (df : list Row) (i : nat) (st : ScanState) : Prop := {
  inv_cursor : (i <= length df)%nat;
  inv_anchor_lt : Forall (fun e : nat * Row => (e.1 < i)%nat) (new_rows_to_add st);
  inv_anchor_sorted :
    StronglySorted (fun x y : nat * Row => (x.1 < y.1)%nat) (new_rows_to_add st);
  inv_synthesized : Forall (synthesized_from df) (new_rows_to_add st);
  inv_mods : Forall (fun m => (mod_idx m < length df)%nat) (rows_to_modify st)
}.


(** Row [b] does not continue the count of the row before it. *)
Definition break_at (df : list Row) (b : nat) : Prop :=
  match b with
  | O => True
  | S k =>
      match df !! k, df !! S k with
      | Some rk, Some rn => entry_count rn <> (entry_count rk + 1)%Z
      | _, _ => True
      end
  end.

(** A scheduled row together with the overwrites of its run: the run goes
    from [sequence_start] to the anchor, its overwrites are in the list of
    modifications, and no later modification touches a row of the run. *)
Definition merged_run (df : list Row) (mods : list Mod) (entry : nat * Row)
    (sequence_start : nat) : Prop :=
  exists (first last_row : Row) (n : nat) (before after : list Mod),
    (sequence_start < entry.1)%nat
    /\ df !! sequence_start = Some first
    /\ df !! entry.1 = Some last_row
    /\ entry.2 = merged_row (range_rows df sequence_start entry.1) first last_row n
    /\ mods = before
              ++ range_mods (range_rows df sequence_start entry.1) sequence_start
                            (py_sum (footage <$> range_rows df sequence_start entry.1))
              ++ after
    /\ Forall (fun m => (entry.1 < mod_idx m)%nat) after.

(** What the scan maintains about the overwrites: behind the barrier [b]
    lie all runs merged so far, and no later run reaches back over it. *)
Definition overwrite_invariant (df : list Row) (i : nat) (st : ScanState) : Prop :=
  exists b : nat,
    (b <= i)%nat /\ break_at df b
    /\ Forall (fun entry : nat * Row =>
                 (entry.1 < b)%nat
                 /\ exists sequence_start, merged_run df (rows_to_modify st) entry sequence_start)
              (new_rows_to_add st).

(** [r'] is [r] with at most its 进尺 and 进尺命中率 cells overwritten. *)
Definition overwritten (r r' : Row) : Prop :=
  exists (new_footage new_hit_rate : Q),
    r' = set_footage new_footage (set_hit_rate new_hit_rate r).

(** The row as it is written out: without the 序号 cell when the input
    frame had no such column. *)
Definition label_out (has_xuhao : bool) (r : Row) : Row :=
  if has_xuhao then r else set_xuhao None r.

(** The plain sum of a list of numbers. *)
Definition Qsum (l : list Q) : Q := foldr Qplus 0 l.

(** The nine cells of a synthesized row that are footage-weighted averages
    over all rows of the run. *)
Definition weighted_cells : list (Row -> Q) :=
  [mud_density; drill_press_a; drill_press_b; rpm_a; rpm_b;
   flow_a; flow_b; pump_press_a; pump_press_b].

(** The magnitudes of a cell over the rows of a run, added up: the scale of
    the error of the doubles in an average of that cell. *)
Definition magnitude (value : Row -> Q) (range : list Row) : Q :=
  Qsum ((fun r => Qabs (value r)) <$> range).

(** Entry counts that the frame holds as they are in the file: pandas
    keeps the column as 64-bit integers, which wrap around, or as doubles,
    which hold 53 bits. *)
Definition ordinary_counts (df : list Row) : Prop :=
  Forall (fun r => (Z.abs (entry_count r) < 2 ^ 53)%Z) df.

(** The hit-rates that lines 272-276 write for the ['hit_rate'] entries. *)
Definition written_hit_rates (mods : list Mod) : list Q :=
  omap (fun m => match m with
                 | ModHitRate _ new_value => Some (py_round new_value 6)
                 | _ => None
                 end) mods.

(** Rows for the examples: entry count [n], drilled from [top] to [bottom]. *)
Definition example_row (n : Z) (top bottom drilled : Q) (speed : option Q) : Row :=
  {| xuhao := Some (LInt n); entry_count := n;
     start_depth := top; end_depth := bottom; footage := drilled;
     drill_time := 10; mud_density := 1.2; mechanical_speed := speed;
     drill_type := "HJ517"; manufacturer := "JZ";
     drill_press_a := 100; drill_press_b := 120; rpm_a := 60; rpm_b := 80;
     flow_a := 30; flow_b := 32; pump_press_a := 15; pump_press_b := 16;
     start_formation := "A"; end_formation := "B"; hit_rate := 0 |}.

(** Scenario A: entry counts 1 and 2, footages 50 and 30, joined at 1000. *)
Definition scenario_A_rows : list Row :=
  [example_row 1 950 1000 50 (Some 5); example_row 2 1000 1030 30 (Some 5)].

(** Entry counts 1, 2, 3, with a gap in depth between the first two rows. *)
Definition discontinuous_run : list Row :=
  [example_row 1 950 1000 50 (Some 5);
   example_row 2 1005 1030 25 (Some 5);
   example_row 3 1030 1040 10 (Some 5)].

(** Entry counts 1 to 6, one unit of footage each, depth continuous. *)
Definition six_equal_rows : list Row :=
  [example_row 1 0 1 1 (Some 5); example_row 2 1 2 1 (Some 5);
   example_row 3 2 3 1 (Some 5); example_row 4 3 4 1 (Some 5);
   example_row 5 4 5 1 (Some 5); example_row 6 5 6 1 (Some 5)].

(** A run of two rows, neither with a mechanical rate. *)
Definition null_speed_run : list Row :=
  [example_row 1 950 1000 50 None; example_row 2 1000 1030 30 None].

End MergingSpec.

Module ClassifierSpec.
Import Dictionary Classifier.

(** The adjustment rule in the words of the specification, for the two
    boundaries of a run: judgments [js] and [je], actual depths, mapped
    depths of the start and of the end formation, adjusted depths. *)
Definition boundary_rule (js je : Judgment) (actual_start actual_end : Q)
    (start_top start_bottom end_top end_bottom : option Q)
    (adjusted_start adjusted_end : Q) : Prop :=
  (js = InRange \/ js = Indeterminate -> adjusted_start = actual_start)
  /\ (js = TooHigh ->
      exists t b, start_top = Some t /\ start_bottom = Some b
                  /\ adjusted_start = match je with
                                      | TooHigh => py_round ((t + b) / 2) 2
                                      | _ => Qmax t b
                                      end)
  /\ (js = TooLow ->
      exists t b, start_top = Some t /\ start_bottom = Some b
                  /\ adjusted_start = Qmin t b)
  /\ (je = InRange \/ je = Indeterminate -> adjusted_end = actual_end)
  /\ (je = TooLow ->
      exists t b, end_top = Some t /\ end_bottom = Some b
                  /\ adjusted_end = match js with
                                    | TooLow => py_round ((t + b) / 2) 2
                                    | _ => Qmin t b
                                    end)
  /\ (je = TooHigh ->
      exists t b, end_top = Some t /\ end_bottom = Some b
                  /\ adjusted_end = Qmax t b).

(** The rule for the cells that are written: the midpoint is the one cell
    of the rule that is rounded, and it is rounded from the double computed
    for [(t + b) / 2]. *)
Definition midpoint_cell (t b cell : Q) : Prop :=
  FloatSpec.rounded_to 2 (FloatSpec.float_error 5 (Qabs t + Qabs b)) ((t + b) / 2) cell.

Definition adjustment_rule (js je : Judgment) (actual_start actual_end : Q)
    (start_top start_bottom end_top end_bottom : option Q)
    (adjusted_start adjusted_end : Q) : Prop :=
  (js = InRange \/ js = Indeterminate -> adjusted_start = actual_start)
  /\ (js = TooHigh ->
      exists t b, start_top = Some t /\ start_bottom = Some b
                  /\ match je with
                     | TooHigh => midpoint_cell t b adjusted_start
                     | _ => adjusted_start = Qmax t b
                     end)
  /\ (js = TooLow ->
      exists t b, start_top = Some t /\ start_bottom = Some b
                  /\ adjusted_start = Qmin t b)
  /\ (je = InRange \/ je = Indeterminate -> adjusted_end = actual_end)
  /\ (je = TooLow ->
      exists t b, end_top = Some t /\ end_bottom = Some b
                  /\ match js with
                     | TooLow => midpoint_cell t b adjusted_end
                     | _ => adjusted_end = Qmin t b
                     end)
  /\ (je = TooHigh ->
      exists t b, end_top = Some t /\ end_bottom = Some b
                  /\ adjusted_end = Qmax t b).

(** [float] on plain decimal text: an optional sign, digits, and an
    optional fraction; any other text counts as not a number. *)
Definition digit_of (c : ascii) : option Z :=
  let n := nat_of_ascii c in
  if (48 <=? n)%nat && (n <=? 57)%nat then Some (Z.of_nat (n - 48)) else None.

Fixpoint read_digits (s : string) (acc : Z) (count : nat) : Z * nat * string :=
  match s with
  | String c s' =>
      match digit_of c with
      | Some d => read_digits s' (acc * 10 + d)%Z (S count)
      | None => (acc, count, s)
      end
  | EmptyString => (acc, count, s)
  end.

Definition decimal_float (s : string) : option Q :=
  let '(negative, body) :=
    match s with
    | String "-" s' => (true, s')
    | String "+" s' => (false, s')
    | _ => (false, s)
    end in
  let '(whole, n1, rest) := read_digits body 0 0 in
  let '(digits, n2, rest') :=
    match rest with
    | String "." fraction => read_digits fraction whole 0
    | _ => (whole, 0%nat, rest)
    end in
  match rest' with
  | EmptyString =>
      if (0 <? n1 + n2)%nat
      then Some (Qred ((if negative then - digits else digits)%Z # pow10 n2))
      else None
  | _ => None
  end.

(** A dictionary with the single formation A段 of the category P1, and a
    depth table with the single category P1 from 1000 to 1200. *)
Definition example_dict : gmap string Info :=
  {[ "A段" := mkInfo (Some "P1") (Some (JStr "0.0")) (Some (JStr "0.5")) ]}.

Definition example_depths : list (string * Depths) :=
  [("P1", mkDepths 1000 1200)].

Definition example_csv_row (xuhao start_depth end_depth start_formation end_formation : string)
    : CsvRow :=
  list_to_map [("序号", Some xuhao); ("起始井深", Some start_depth);
               ("结束井深", Some end_depth);
               ("起始地层", Some start_formation); ("结束地层", Some end_formation)].

(** A row whose start and end both lie below the mapped depths of A段
    (1000 to 1100), and the row written for it. *)
Definition both_high_row : CsvRow :=
  example_csv_row "1" "1150" "1250" "A段" "A段".

Definition both_high_out : OutRow :=
  {| out_xuhao := Some "1"; out_start_depth := Some "1150";
     out_end_depth := Some "1250";
     out_start_formation := Some "A段"; out_start_parent := "P1";
     out_start_top_position := JStr "0.0"; out_start_top_mapped_depth := Some 1000;
     out_start_bottom_position := JStr "0.5"; out_start_bottom_mapped_depth := Some 1100;
     out_end_formation := Some "A段"; out_end_parent := "P1";
     out_end_top_position := JStr "0.0"; out_end_top_mapped_depth := Some 1000;
     out_end_bottom_position := JStr "0.5"; out_end_bottom_mapped_depth := Some 1100;
     predicted_start_formation := "P1"; start_consistency := true;
     start_depth_in_range := TooHigh;
     predicted_end_formation := "未知"; end_consistency := false;
     end_depth_in_range := TooHigh;
     adjusted_start_depth := 1050; adjusted_end_depth := 1100 |}.





(** A well-formed row, a row whose start depth is not a number, and a row
    whose formations are not in the dictionary. *)
Definition well_formed_row : CsvRow :=
  example_csv_row "1" "1050" "1080" "A段" "A段".



End ClassifierSpec.

Module ConfidenceSpec.
Import Confidence.

(** A run from 1000 to 1100 and a category from 1100 to 1200: they touch
    in the single depth 1100. *)
Definition touching_run : WellRow := mkWellRow (Merging.LInt 1) 1000 1100.

Definition touching_category : CategoryInfo := mkCategoryInfo "P2" 1100 1200.

(** Scenario D: a run from 1050 to 1150 and a category from 1000 to 1100. *)
Definition scenario_D_run : WellRow := mkWellRow (Merging.LInt 1) 1050 1150.

Definition scenario_D_category : CategoryInfo := mkCategoryInfo "P1" 1000 1100.

(** The confidence cell of a section and a category that meet: 1 for a
    section of length zero, and otherwise the overlap length over the
    section length rounded to 6 decimals.  The quotient is computed on
    doubles from differences of depths, so its error is that of the
    depths, relative to the length of the section. *)
Definition confidence_cell (row : WellRow) (category_info : CategoryInfo)
    (cell : Q) : Prop :=
  let depths := Qabs (adjusted_start_depth row) + Qabs (adjusted_end_depth row)
                + Qabs (cat_start_depth category_info)
                + Qabs (cat_end_depth category_info) in
  (total_length row == 0 -> cell == 1)
  /\ (0 < total_length row ->
      FloatSpec.rounded_to 6 (FloatSpec.float_error 8 (depths / total_length row))
        ((overlap_end row category_info - overlap_start row category_info)
         / total_length row)
        cell).

End ConfidenceSpec.

Module ValidatorSpec.
Import Dictionary Validator.

(** The completeness errors among the entries of [errors]. *)
Definition is_completeness (e : Error) : bool :=
  match e with
  | MissingInDictionary _ => true
  | _ => false
  end.

(** A dictionary that knows A段 only. *)
Definition dict_A : gmap string Info :=
  {[ "A段" := mkInfo (Some "P1") (Some (JStr "0.0")) (Some (JStr "0.5")) ]}.

Definition categories_P1 : gset string := {[ "P1" ]}.

End ValidatorSpec.

(** ** Vocabulary of the further properties *)

Module MergingMore.
Import Merging MergingSpec.

(** Rows [k] and [k + 1] of the frame belong together: the count goes up by
    one, the bit is the same and the depth is continuous. *)
Definition joined_at (df : list Row) (k : nat) : Prop :=
  exists r r',
    df !! k = Some r /\ df !! S k = Some r'
    /\ entry_count r' = (entry_count r + 1)%Z
    /\ drill_type r' = drill_type r
    /\ manufacturer r' = manufacturer r
    /\ end_depth r == start_depth r'.


(** The value a modification writes into the hit-rate cell lies in [0,1]. *)
Definition hit_rate_in_unit (m : Mod) : Prop :=
  match m with
  | ModDepth _ _ => True
  | ModHitRate _ v | ModPlain _ v => 0 <= v <= 1
  end.

End MergingMore.

Module ClassifierMore.
Import Dictionary Classifier.

(** A mapped depth, when there is one, is a number of two decimals. *)
Definition rounded2 (x : option Q) : Prop :=
  forall m, x = Some m -> py_round m 2 = m.

(** A row of the input file whose five cells can be read: the file has
    the serial-number column, the two formation names are among the names
    that were validated, and the two depths are numbers. *)
Definition readable_row (py_float : string -> option Q)
    (datatest_formations : list string) (row : CsvRow) : Prop :=
  is_Some (row !! "序号")
  /\ (exists formation, row !! "起始地层" = Some (Some formation)
                        /\ formation ∈ datatest_formations)
  /\ (exists formation, row !! "结束地层" = Some (Some formation)
                        /\ formation ∈ datatest_formations)
  /\ (exists text depth, row !! "起始井深" = Some (Some text)
                         /\ py_float text = Some depth)
  /\ (exists text depth, row !! "结束井深" = Some (Some text)
                         /\ py_float text = Some depth).

(** An output row with its four mapped depths and both judgments settled,
    and with adjusted depths that are judged in range. *)
Definition resolved_row (categories : gset string) (o : OutRow) : Prop :=
  out_start_parent o ∈ categories /\ out_end_parent o ∈ categories
  /\ is_Some (out_start_top_mapped_depth o)
  /\ is_Some (out_start_bottom_mapped_depth o)
  /\ is_Some (out_end_top_mapped_depth o)
  /\ is_Some (out_end_bottom_mapped_depth o)
  /\ check_depth_range (adjusted_start_depth o)
       (out_start_top_mapped_depth o) (out_start_bottom_mapped_depth o) = InRange
  /\ check_depth_range (adjusted_end_depth o)
       (out_end_top_mapped_depth o) (out_end_bottom_mapped_depth o) = InRange.

End ClassifierMore.

Module ValidatorMore.
Import Dictionary Validator.

(** A position field that is there, reads as a number, and lies in [0,1]. *)
Definition position_ok (py_float : string -> option Q) (value : option JVal) : Prop :=
  exists v q, value = Some v /\ float_of py_float v = Ok q /\ 0 <= q <= 1.

(** A dictionary entry with a listed category and two such positions. *)
Definition entry_ok (py_float : string -> option Q)
    (stratigraphic_formations : gset string) (details : Info) : Prop :=
  (exists parent, parent_formation details = Some parent
                  /\ parent ∈ stratigraphic_formations)
  /\ position_ok py_float (top_position details)
  /\ position_ok py_float (bottom_position details).

(** The position field of an entry under its key. *)
Definition position_field (details : Info) (field : string) : option JVal :=
  if bool_decide (field = "顶界所处位置（0~1）") then top_position details
  else if bool_decide (field = "底界所处位置（0~1）") then bottom_position details
  else None.

(** An entry without a category, and one whose bottom position is 1.5. *)
Definition dict_defects : gmap string Info :=
  {[ "A段" := mkInfo (Some "P9") (Some (JStr "0.0")) (Some (JStr "1.5"));
     "B段" := mkInfo (Some "P1") (Some (JStr "x")) (Some (JNum (1 # 2))) ]}.

End ValidatorMore.

Module ConfidenceMore.
Import Confidence.

(** The same well section with its two depths exchanged. *)
Definition reversed (row : WellRow) : WellRow :=
  mkWellRow (idx row) (adjusted_end_depth row) (adjusted_start_depth row).

End ConfidenceMore.

Module ConverterMore.
Import Dictionary Converter.

(** A record with a text in each of the four columns that the converter
    reads. *)
Definition complete_row (row : gmap string string) : Prop :=
  is_Some (row !! "地层名称") /\ is_Some (row !! "所属层位")
  /\ is_Some (row !! "顶界所处位置（0~1）") /\ is_Some (row !! "底界所处位置（0~1）").

(** The attributes that the CSV file gives a name: those of its last row
    for that name. *)
Fixpoint csv_entry (rows : list (gmap string string)) (name : string) : option Info :=
  match rows with
  | [] => None
  | row :: rows' =>
      match csv_entry rows' name with
      | Some attributes => Some attributes
      | None =>
          match Dictionary.text_cell row "地层名称", csv_attributes row with
          | Ok stratigraphic_name, Ok attributes =>
              if bool_decide (stratigraphic_name = name) then Some attributes else None
          | _, _ => None
          end
      end
  end.

Definition converter_row (name parent top bottom : string) : gmap string string :=
  list_to_map [("地层名称", name); ("所属层位", parent);
               ("顶界所处位置（0~1）", top); ("底界所处位置（0~1）", bottom)].

(** A CSV file that names A段 twice and B段 once, and a configuration file
    that knows A段. *)
Definition example_csv : list (gmap string string) :=
  [converter_row "A段" "P1" "0.1" "0.4"; converter_row "B段" "P2" "0" "1";
   converter_row "A段" "P1" "0.2" "0.6"].

Definition example_config : gmap string Info :=
  {[ "A段" := mkInfo (Some "P1") (Some (JNum 0)) (Some (JNum (1 # 2))) ]}.

End ConverterMore.

Module SimpleAnalysisMore.
Import Confidence SimpleAnalysis.



End SimpleAnalysisMore.

Module DepthTableMore.
Import Dictionary Classifier DepthTable.

(** The depths that the file gives a name: those of its last row for that
    name. *)
Fixpoint last_depths (py_float : string -> option Q)
    (rows : list (gmap string string)) (name : string) : option Depths :=
  match rows with
  | [] => None
  | row :: rows' =>
      match last_depths py_float rows' name with
      | Some depths => Some depths
      | None =>
          match read_row py_float row with
          | Ok entry => if bool_decide (entry.1 = name) then Some entry.2 else None
          | Raise _ => None
          end
      end
  end.

(** A record of the depth table with a name and two depths that are
    numbers. *)
Definition depth_record (py_float : string -> option Q)
    (row : gmap string string) : Prop :=
  exists name top bottom (t b : Q),
    row !! "地层信息" = Some name
    /\ row !! "地层顶深" = Some top /\ py_float top = Some t
    /\ row !! "地层底深" = Some bottom /\ py_float bottom = Some b.

(** A record of the depth table with a name, in which [text] is the first
    depth that is not a number. *)
Definition bad_depth_record (py_float : string -> option Q)
    (row : gmap string string) (text : string) : Prop :=
  is_Some (row !! "地层信息")
  /\ ((row !! "地层顶深" = Some text /\ py_float text = None)
      \/ (exists top t, row !! "地层顶深" = Some top /\ py_float top = Some t
                        /\ row !! "地层底深" = Some text /\ py_float text = None)).

Definition depth_row (name top bottom : string) : gmap string string :=
  list_to_map [("地层信息", name); ("地层顶深", top); ("地层底深", bottom)].

(** A depth table file that names P1 twice. *)
Definition example_table : list (gmap string string) :=
  [depth_row "P1" "1000" "1100"; depth_row "P2" "1200" "1500";
   depth_row "P1" "1000" "1200"].

End DepthTableMore.

(** * Facts about the numbers *)

Section Rounding.

Lemma round_half_even_comp (q q' : Q) :
  q == q' -> round_half_even q = round_half_even q'.
Proof.
  intros E. unfold round_half_even.
  rewrite (Qfloor_comp _ _ E).
  assert (Qcompare (q - inject_Z (Qfloor q')) (1 # 2)
          = Qcompare (q' - inject_Z (Qfloor q')) (1 # 2)) as ->.
  { apply Qcompare_comp; [rewrite E|]; reflexivity. }
  reflexivity.
Qed.

Lemma py_round_comp (q q' : Q) (n : nat) :
  q == q' -> py_round q n = py_round q' n.
Proof.
  intros E. unfold py_round.
  rewrite (round_half_even_comp (q * _) (q' * inject_Z (Z.pos (pow10 n)))).
  - reflexivity.
  - rewrite E. reflexivity.
Qed.

(** The rounded integer is within one half of the number. *)
Lemma round_half_even_near (q : Q) :
  q - (1 # 2) <= inject_Z (round_half_even q) <= q + (1 # 2).
Proof.
  unfold round_half_even.
  pose proof (Qfloor_le q) as Hlo.
  pose proof (Qlt_floor q) as Hhi.
  rewrite inject_Z_plus in Hhi. change (inject_Z 1) with 1 in Hhi.
  destruct (Qcompare_spec (q - inject_Z (Qfloor q)) (1 # 2)) as [E|L|G].
  - destruct (Z.even (Qfloor q)); rewrite ?inject_Z_plus;
      change (inject_Z 1) with 1; split; lra.
  - split; lra.
  - rewrite inject_Z_plus. change (inject_Z 1) with 1. split; lra.
Qed.

(** Rounding never crosses an integer. *)
Lemma round_half_even_ge (q : Q) (z : Z) :
  inject_Z z <= q -> (z <= round_half_even q)%Z.
Proof.
  intros H. apply Qfloor_resp_le in H. rewrite Qfloor_Z in H.
  unfold round_half_even.
  destruct (Qcompare _ _); [destruct (Z.even _)| |]; lia.
Qed.

Lemma round_half_even_le (q : Q) (z : Z) :
  q <= inject_Z z -> (round_half_even q <= z)%Z.
Proof.
  intros H. unfold round_half_even.
  pose proof (Qfloor_le q) as Hlo.
  assert (Qfloor q <= z)%Z as Hfz.
  { apply Qfloor_resp_le in H. now rewrite Qfloor_Z in H. }
  destruct (Z.eq_dec (Qfloor q) z) as [Heq|Hne].
  - rewrite <- Heq in H.
    destruct (Qcompare_spec (q - inject_Z (Qfloor q)) (1 # 2)); [lra|lia|lra].
  - destruct (Qcompare _ _); [destruct (Z.even _)| |]; lia.
Qed.

Lemma py_round_value (q : Q) (n : nat) :
  py_round q n
  == inject_Z (round_half_even (q * inject_Z (Zpos (pow10 n)))) / inject_Z (Zpos (pow10 n)).
Proof.
  unfold py_round. rewrite Qred_correct.
  rewrite Qmake_Qdiv. reflexivity.
Qed.

(** The error of [round(q, n)] is at most half a unit of the last digit. *)
Lemma py_round_error (q : Q) (n : nat) :
  Qabs (py_round q n - q) <= 1 # (2 * pow10 n).
Proof.
  rewrite py_round_value.
  set (s := inject_Z (Zpos (pow10 n))).
  assert (0 < s) as Hs by (unfold s, inject_Z, Qlt; simpl; lia).
  pose proof (round_half_even_near (q * s)) as [Hlo Hhi].
  set (r := inject_Z (round_half_even (q * s))) in *.
  assert ((1 # (2 * pow10 n)) == (1 # 2) / s) as ->.
  { unfold s, Qeq, Qdiv, Qmult, Qinv, inject_Z; simpl. lia. }
  assert (py_eq : r / s - q == (r - q * s) / s) by (field; lra).
  rewrite py_eq.
  apply Qabs_Qle_condition. split.
  - apply Qle_shift_div_l; [exact Hs|].
    assert (- ((1 # 2) / s) * s == - (1 # 2)) as -> by (field; lra). lra.
  - apply Qle_shift_div_r; [exact Hs|].
    assert ((1 # 2) / s * s == 1 # 2) as -> by (field; lra). lra.
Qed.

(** A number between two integers rounds to a number between them. *)
Lemma py_round_between (q : Q) (n : nat) (a b : Z) :
  inject_Z a <= q <= inject_Z b ->
  inject_Z a <= py_round q n <= inject_Z b.
Proof.
  intros [Ha Hb]. rewrite py_round_value.
  set (s := inject_Z (Zpos (pow10 n))).
  assert (0 < s) as Hs by (unfold s, inject_Z, Qlt; simpl; lia).
  assert (inject_Z (a * Zpos (pow10 n)) <= q * s) as Ha'.
  { rewrite inject_Z_mult. fold s. nra. }
  assert (q * s <= inject_Z (b * Zpos (pow10 n))) as Hb'.
  { rewrite inject_Z_mult. fold s. nra. }
  apply round_half_even_ge in Ha'. apply round_half_even_le in Hb'.
  set (r := round_half_even (q * s)) in *.
  split.
  - apply Qle_shift_div_l; [exact Hs|].
    unfold s. rewrite <- inject_Z_mult. rewrite <- Zle_Qle. exact Ha'.
  - apply Qle_shift_div_r; [exact Hs|].
    unfold s. rewrite <- inject_Z_mult. rewrite <- Zle_Qle. exact Hb'.
Qed.

Lemma float_error_nonneg (ops : nat) (scale : Q) :
  0 <= scale -> 0 <= FloatSpec.float_error ops scale.
Proof.
  intros H. unfold FloatSpec.float_error.
  assert (0 <= inject_Z (Z.of_nat ops)) as Hn.
  { change 0 with (inject_Z 0). rewrite <- Zle_Qle. lia. }
  apply Qmult_le_0_compat; [|discriminate].
  apply Qmult_le_0_compat; [exact Hn|lra].
Qed.

(** The exact rounding is one of the cells [rounded_to] allows. *)
Lemma py_round_rounded_to (n : nat) (err q : Q) :
  0 <= err -> FloatSpec.rounded_to n err q (py_round q n).
Proof.
  intros Herr. split.
  - exists (round_half_even (q * inject_Z (Zpos (pow10 n)))).
    unfold py_round. apply Qred_correct.
  - pose proof (py_round_error q n). lra.
Qed.

Lemma rounded_to_comp (n : nat) (err q q' cell : Q) :
  q == q' -> FloatSpec.rounded_to n err q cell -> FloatSpec.rounded_to n err q' cell.
Proof.
  intros E [H1 H2]. split; [exact H1|]. rewrite <- E. exact H2.
Qed.

End Rounding.

(** * Facts about the run consolidation *)

Section MergingFacts.
Import Merging MergingSpec.

Lemma find_sequence_end_bounds (fuel : nat) (df : list Row) :
  forall j e : nat, (e < j)%nat -> (e < length df)%nat ->
    (e <= find_sequence_end fuel df j e < length df)%nat.
Proof.
  induction fuel as [|fuel IH]; intros j e Hej He; simpl; [lia|].
  destruct (df !! j) as [rj|] eqn:Ej; [|lia].
  destruct (df !! (j - 1)%nat) as [rp|]; [|lia].
  destruct (entry_count rj =? entry_count rp + 1)%Z; [|lia].
  apply lookup_lt_Some in Ej.
  specialize (IH (S j) j). lia.
Qed.

Lemma find_sequence_start_le (df : list Row) :
  forall k1 s : nat, (k1 <= s)%nat -> (find_sequence_start df k1 s <= s)%nat.
Proof.
  induction k1 as [|k IH]; intros s Hs; simpl; [lia|].
  destruct (df !! k); [|lia]. destruct (df !! S k); [|lia].
  destruct (_ =? _)%Z; [|lia].
  specialize (IH k). lia.
Qed.

Lemma length_range_rows (df : list Row) (s e : nat) :
  (e < length df)%nat -> length (range_rows df s e) = (S e - s)%nat.
Proof.
  intros He. unfold range_rows. rewrite length_take, length_drop. lia.
Qed.

Lemma range_mods_idx (range : list Row) (total : Q) :
  forall k : nat,
    Forall (fun m => match m with
                     | ModDepth idx _ | ModHitRate idx _ | ModPlain idx _ =>
                         (k <= idx < k + length range)%nat
                     end) (range_mods range k total).
Proof.
  induction range as [|r range IH]; intros k; simpl; [constructor|].
  constructor; [lia|]. constructor; [lia|].
  eapply Forall_impl; [apply (IH (S k))|].
  intros [idx v|idx v|idx v]; simpl; lia.
Qed.

Lemma scan_invariant_init (df : list Row) : scan_invariant df 0 init_state.
Proof.
  split; simpl; try constructor. lia.
Qed.

Lemma StronglySorted_snoc {A} (R : A -> A -> Prop) (l : list A) (x : A) :
  StronglySorted R l -> Forall (fun y => R y x) l -> StronglySorted R (l ++ [x]).
Proof.
  induction 1 as [|y l Hl IH Hy]; intros Hx; simpl.
  - repeat constructor.
  - apply Forall_cons in Hx as [Hyx Hx].
    constructor; [auto|].
    apply Forall_app. split; [exact Hy|]. repeat constructor. exact Hyx.
Qed.

(** What one step of the scan does to the cursor: it moves forward, and
    stays within the frame. *)
Lemma scan_step_progress (df : list Row) (i : nat) (st : ScanState) :
  (i < length df)%nat ->
  exists i' st', scan_step df i st = Some (i', st') /\ (i < i' <= length df)%nat.
Proof.
  intros Hi. unfold scan_step.
  destruct (lookup_lt_is_Some_2 df i Hi) as [cur Hcur]. rewrite Hcur. simpl.
  destruct ((entry_count cur =? 1)%Z && next_entry_is_one df i) eqn:Hcase1.
  { eexists _, _. split; [reflexivity|].
    apply andb_true_iff in Hcase1 as [_ Hnext]. unfold next_entry_is_one in Hnext.
    destruct (df !! S i) eqn:E; [|discriminate]. apply lookup_lt_Some in E. lia. }
  destruct (1 <=? entry_count cur)%Z; [|eexists _, _; split; [reflexivity|lia]].
  pose proof (find_sequence_end_bounds (length df) df (i + 1) i) as He.
  pose proof (find_sequence_start_le df i i) as Hs.
  set (e := find_sequence_end (length df) df (i + 1) i) in *.
  set (s := find_sequence_start df i i) in *.
  destruct (s <? e)%nat eqn:Hse; [|eexists _, _; split; [reflexivity|lia]].
  apply Nat.ltb_lt in Hse.
  destruct (lookup_lt_is_Some_2 df s) as [first ->]; [lia|].
  destruct (lookup_lt_is_Some_2 df (s + 1)) as [second ->]; [lia|].
  destruct (lookup_lt_is_Some_2 df e) as [last_row ->]; [lia|].
  simpl. destruct (checks_pass _ _); eexists _, _; (split; [reflexivity|lia]).
Qed.

Lemma scan_step_invariant (df : list Row) (i i' : nat) (st st' : ScanState) :
  scan_invariant df i st ->
  scan_step df i st = Some (i', st') ->
  scan_invariant df i' st'.
Proof.
  intros [Hc Hlt Hsorted Hsyn Hmods] Hstep. unfold scan_step in Hstep.
  destruct (df !! i) as [cur|] eqn:Hcur; [|discriminate]. simpl in Hstep.
  pose proof (lookup_lt_Some _ _ _ Hcur) as Hi.
  destruct ((entry_count cur =? 1)%Z && next_entry_is_one df i) eqn:Hcase1.
  { inversion Hstep; subst; clear Hstep.
    apply andb_true_iff in Hcase1 as [_ Hnext]. rewrite Hnext.
    unfold next_entry_is_one in Hnext.
    destruct (df !! S i) eqn:E; [|discriminate]. apply lookup_lt_Some in E.
    split; simpl; auto; [lia| |].
    - eapply Forall_impl; [exact Hlt|]. simpl. intros; lia.
    - apply Forall_app. split; [exact Hmods|].
      repeat constructor; simpl; lia. }
  assert (Hweak : forall j, (i < j <= length df)%nat ->
                    scan_invariant df j st).
  { intros j Hj. split; auto; [lia|].
    eapply Forall_impl; [exact Hlt|]. simpl. intros; lia. }
  destruct (1 <=? entry_count cur)%Z;
    [|inversion Hstep; subst; apply Hweak; lia].
  pose proof (find_sequence_end_bounds (length df) df (i + 1) i) as He.
  pose proof (find_sequence_start_le df i i) as Hs.
  set (e := find_sequence_end (length df) df (i + 1) i) in *.
  set (s := find_sequence_start df i i) in *.
  destruct (s <? e)%nat eqn:Hse;
    [|inversion Hstep; subst; apply Hweak; lia].
  apply Nat.ltb_lt in Hse.
  destruct (df !! s) as [first|] eqn:Hfirst; [|discriminate].
  destruct (df !! (s + 1)%nat) as [second|] eqn:Hsecond; [|discriminate].
  destruct (df !! e) as [last_row|] eqn:Hlast; [|discriminate].
  simpl in Hstep.
  destruct (checks_pass _ _).
  - inversion Hstep; subst; clear Hstep.
    split; simpl.
    + lia.
    + apply Forall_app. split.
      * eapply Forall_impl; [exact Hlt|]. simpl. intros; lia.
      * repeat constructor. simpl. lia.
    + apply StronglySorted_snoc; [exact Hsorted|].
      eapply Forall_impl; [exact Hlt|]. simpl. intros; lia.
    + apply Forall_app. split; [exact Hsyn|].
      repeat constructor. exists s, first, last_row. eexists.
      simpl. repeat split; eauto.
    + apply Forall_app. split; [exact Hmods|].
      eapply Forall_impl; [apply range_mods_idx|].
      rewrite length_range_rows by lia.
      intros [idx v|idx v|idx v]; simpl; lia.
  - inversion Hstep; subst; clear Hstep.
    destruct (Hweak (e + 1)%nat) as [? ? ? ? ?]; [lia|].
    split; simpl; auto.
Qed.

(** The scan terminates: a budget of one step per remaining row is enough. *)
Lemma scan_total (df : list Row) :
  forall (fuel i : nat) (st : ScanState),
    (length df <= i + fuel)%nat -> is_Some (scan fuel df i st).
Proof.
  induction fuel as [|fuel IH]; intros i st Hfuel; simpl.
  - destruct (length df <=? i)%nat eqn:E; [eauto|].
    apply Nat.leb_gt in E. lia.
  - destruct (length df <=? i)%nat eqn:E; [eauto|].
    apply Nat.leb_gt in E.
    destruct (scan_step_progress df i st E) as (i' & st' & -> & Hi').
    simpl. apply IH. lia.
Qed.

Lemma scan_invariant_final (df : list Row) :
  forall (fuel i : nat) (st st' : ScanState),
    scan_invariant df i st ->
    scan fuel df i st = Some st' ->
    scan_invariant df (length df) st'.
Proof.
  induction fuel as [|fuel IH]; intros i st st' Hinv Hscan; simpl in Hscan.
  - destruct (length df <=? i)%nat eqn:E; [|discriminate].
    apply Nat.leb_le in E. inversion Hscan; subst.
    destruct Hinv as [Hc ? ? ? ?]. assert (i = length df) as -> by lia.
    split; auto.
  - destruct (length df <=? i)%nat eqn:E.
    + apply Nat.leb_le in E. inversion Hscan; subst.
      destruct Hinv as [Hc ? ? ? ?]. assert (i = length df) as -> by lia.
      split; auto.
    + destruct (scan_step df i st) as [[i1 st1]|] eqn:Hstep; [|discriminate].
      simpl in Hscan. eapply IH; [|exact Hscan].
      eapply scan_step_invariant; eauto.
Qed.

End MergingFacts.

Section MergingOutput.
Import Merging MergingSpec.

Lemma overwritten_refl (r : Row) : overwritten r r.
Proof. exists (footage r), (hit_rate r). destruct r; reflexivity. Qed.

Lemma overwritten_trans (r1 r2 r3 : Row) :
  overwritten r1 r2 -> overwritten r2 r3 -> overwritten r1 r3.
Proof.
  intros (f & h & ->) (f' & h' & ->). exists f', h'. reflexivity.
Qed.

Lemma overwritten_set_footage (v : Q) (r : Row) : overwritten r (set_footage v r).
Proof. exists v, (hit_rate r). destruct r; reflexivity. Qed.

Lemma overwritten_set_hit_rate (v : Q) (r : Row) : overwritten r (set_hit_rate v r).
Proof. exists (footage r), v. destruct r; reflexivity. Qed.

Lemma Forall2_alter_same {A} (R : A -> A -> Prop) (f : A -> A) :
  (forall x, R x x) -> (forall x, R x (f x)) ->
  forall (l : list A) (i : nat), Forall2 R l (alter f i l).
Proof.
  intros Hrefl Hf.
  assert (Hid : forall l : list A, Forall2 R l l)
    by (induction l; constructor; auto).
  induction l as [|x l IH]; intros [|i]; simpl; try constructor; auto.
  apply IH.
Qed.

Lemma apply_mod_spec (df df' : list Row) (m : Mod) :
  apply_mod df m = Some df' -> Forall2 overwritten df df'.
Proof.
  destruct m as [idx v|idx v|idx v]; unfold apply_mod, set_iloc;
    destruct (_ <? _)%nat; intros H; inversion H; subst;
    apply Forall2_alter_same;
    auto using overwritten_refl, overwritten_set_footage, overwritten_set_hit_rate.
Qed.

Lemma Forall2_overwritten_trans (l1 l2 l3 : list Row) :
  Forall2 overwritten l1 l2 -> Forall2 overwritten l2 l3 ->
  Forall2 overwritten l1 l3.
Proof.
  intros H. revert l3. induction H; intros l3 H'; inversion H'; subst;
    constructor; eauto using overwritten_trans.
Qed.

(** Every scheduled overwrite lands on an existing row, so none fails, and
    the rows keep every other cell. *)
Lemma apply_mods_spec (mods : list Mod) :
  forall df : list Row,
    Forall (fun m => (mod_idx m < length df)%nat) mods ->
    exists df', apply_mods df mods = Some df' /\ Forall2 overwritten df df'.
Proof.
  induction mods as [|m mods IH]; intros df Hidx; simpl.
  - exists df. split; [reflexivity|].
    induction df; constructor; auto using overwritten_refl.
  - apply Forall_cons in Hidx as [Hm Hmods].
    assert (exists df1, apply_mod df m = Some df1) as [df1 E1].
    { destruct m; simpl in *; unfold set_iloc;
        (destruct (_ <? _)%nat eqn:E; [eauto|apply Nat.ltb_ge in E; lia]). }
    rewrite E1. simpl.
    pose proof (apply_mod_spec _ _ _ E1) as H1.
    destruct (IH df1) as (df' & E' & H').
    { rewrite <- (Forall2_length _ _ _ H1). exact Hmods. }
    exists df'. split; [exact E'|]. eapply Forall2_overwritten_trans; eauto.
Qed.

Lemma insert_desc_perm (x : nat * Row) (l : list (nat * Row)) :
  insert_desc x l ≡ₚ x :: l.
Proof.
  induction l as [|y l IH]; simpl; [reflexivity|].
  destruct (_ <? _)%nat; [|reflexivity].
  rewrite IH. apply perm_swap.
Qed.

Lemma sorted_new_rows_perm (l : list (nat * Row)) : sorted_new_rows l ≡ₚ l.
Proof.
  induction l as [|x l IH]; simpl; [reflexivity|].
  rewrite insert_desc_perm. now rewrite IH.
Qed.

Lemma insert_desc_snoc (x : nat * Row) (l : list (nat * Row)) :
  Forall (fun y : nat * Row => (x.1 < y.1)%nat) l -> insert_desc x l = l ++ [x].
Proof.
  induction 1 as [|y l Hy Hl IH]; simpl; [reflexivity|].
  apply Nat.ltb_lt in Hy. rewrite Hy. now rewrite IH.
Qed.

(** With anchors in ascending order the descending sort is the reversal. *)
Lemma sorted_new_rows_rev (l : list (nat * Row)) :
  StronglySorted (fun x y : nat * Row => (x.1 < y.1)%nat) l ->
  sorted_new_rows l = rev l.
Proof.
  induction 1 as [|x l Hl IH Hx]; simpl; [reflexivity|].
  rewrite IH. apply insert_desc_snoc.
  apply Forall_rev. exact Hx.
Qed.

Lemma sorted_new_rows_descending (l : list (nat * Row)) :
  StronglySorted (fun x y : nat * Row => (x.1 < y.1)%nat) l ->
  StronglySorted (fun x y : nat * Row => (y.1 < x.1)%nat) (sorted_new_rows l).
Proof.
  intros H. rewrite sorted_new_rows_rev by exact H.
  induction H as [|x l Hl IH Hx]; simpl; [constructor|].
  apply StronglySorted_snoc; [exact IH|].
  apply Forall_rev. exact Hx.
Qed.

Lemma insert_row_sublist (df : list Row) (entry : nat * Row) :
  df `sublist_of` insert_row df entry.
Proof.
  unfold insert_row.
  rewrite <- (take_drop (entry.1 + 1) df) at 1.
  apply sublist_app; [reflexivity|]. simpl. apply sublist_cons. reflexivity.
Qed.

Lemma insert_row_perm (df : list Row) (entry : nat * Row) :
  insert_row df entry ≡ₚ entry.2 :: df.
Proof.
  unfold insert_row. simpl. rewrite <- Permutation_middle.
  now rewrite take_drop.
Qed.

Lemma insert_new_rows_sublist (sorted : list (nat * Row)) :
  forall df : list Row, df `sublist_of` insert_new_rows df sorted.
Proof.
  induction sorted as [|e l IH]; intros df; simpl; [reflexivity|].
  etransitivity; [apply (insert_row_sublist df e)|]. apply IH.
Qed.

Lemma insert_new_rows_perm (sorted : list (nat * Row)) :
  forall df : list Row, insert_new_rows df sorted ≡ₚ df ++ (snd <$> sorted).
Proof.
  induction sorted as [|e l IH]; intros df; simpl.
  - now rewrite app_nil_r.
  - change (insert_new_rows (insert_row df e) l ≡ₚ df ++ e.2 :: (snd <$> l)).
    rewrite IH. rewrite insert_row_perm.
    simpl. now rewrite <- Permutation_middle.
Qed.

Lemma finish_fmap (has_xuhao : bool) (df : list Row) :
  finish has_xuhao df = label_out has_xuhao <$> df.
Proof.
  destruct has_xuhao; simpl; [|reflexivity].
  symmetry. apply list_fmap_id.
Qed.

Lemma length_prepare (has_xuhao : bool) (df : list Row) :
  length (prepare has_xuhao df) = length df.
Proof. unfold prepare. apply length_imap. Qed.

Lemma prepare_lookup (has_xuhao : bool) (df : list Row) (k : nat) (r : Row) :
  df !! k = Some r ->
  exists lbl, prepare has_xuhao df !! k
              = Some (set_hit_rate 1 (if has_xuhao then r else set_xuhao lbl r)).
Proof.
  intros H. unfold prepare. rewrite list_lookup_imap, H. simpl. eauto.
Qed.

Lemma prepare_Forall2 (has_xuhao : bool) (df : list Row) :
  Forall2 (fun r p => exists lbl,
             p = set_hit_rate 1 (if has_xuhao then r else set_xuhao lbl r))
          df (prepare has_xuhao df).
Proof.
  apply Forall2_same_length_lookup. split; [now rewrite length_prepare|].
  intros k r p Hr Hp.
  destruct (prepare_lookup has_xuhao df k r Hr) as [lbl E].
  rewrite E in Hp. inversion Hp. eauto.
Qed.

End MergingOutput.

Section MergingPlacement.
Import Merging MergingSpec.

Lemma insert_row_lookup (df : list Row) (entry : nat * Row) :
  (entry.1 < length df)%nat ->
  (forall t, (t <= entry.1)%nat -> insert_row df entry !! t = df !! t)
  /\ insert_row df entry !! (entry.1 + 1)%nat = Some entry.2
  /\ (forall t, (entry.1 < t)%nat -> insert_row df entry !! S t = df !! t).
Proof.
  intros Hlt. unfold insert_row.
  assert (Hlen : length (take (entry.1 + 1) df) = (entry.1 + 1)%nat)
    by (rewrite length_take; lia).
  repeat split.
  - intros t Ht. rewrite lookup_app_l by lia. apply lookup_take_lt. lia.
  - rewrite lookup_app_r by lia. rewrite Hlen, Nat.sub_diag. reflexivity.
  - intros t Ht. rewrite lookup_app_r by lia. rewrite Hlen.
    replace (S t - (entry.1 + 1))%nat with (S (t - (entry.1 + 1))) by lia.
    simpl. rewrite lookup_drop. f_equal. lia.
Qed.

Lemma length_insert_row (df : list Row) (entry : nat * Row) :
  length (insert_row df entry) = S (length df).
Proof.
  unfold insert_row. rewrite !length_app, length_take, length_drop. simpl. lia.
Qed.

(** Inserting back to front: the [j]-th scheduled row, counted in ascending
    order of anchors, ends up [j + 1] places after its anchor, right behind
    the row that was at the anchor. *)
Lemma insert_back_to_front (l : list (nat * Row)) :
  StronglySorted (fun x y : nat * Row => (x.1 < y.1)%nat) l ->
  forall df : list Row,
    Forall (fun e : nat * Row => (e.1 < length df)%nat) l ->
    let D := foldr (fun e acc => insert_row acc e) df l in
    length D = (length df + length l)%nat
    /\ (forall k, Forall (fun e : nat * Row => (k <= e.1)%nat) l -> D !! k = df !! k)
    /\ (forall j e, l !! j = Some e ->
          D !! (e.1 + j)%nat = df !! e.1 /\ D !! (e.1 + j + 1)%nat = Some e.2).
Proof.
  induction 1 as [|e0 l Hl IH Hx]; intros df Hlen; simpl.
  - split; [lia|]. split; [auto|]. intros j e Hj. destruct j; discriminate.
  - apply Forall_cons in Hlen as [Hlen0 Hlen].
    destruct (IH df Hlen) as (IHlen & IHpre & IHent).
    set (D' := foldr (fun e acc => insert_row acc e) df l) in *.
    assert (H0 : (e0.1 < length D')%nat) by lia.
    destruct (insert_row_lookup D' e0 H0) as (Hlow & Hmid & Hhigh).
    split; [|split].
    + rewrite length_insert_row. lia.
    + intros k Hk. apply Forall_cons in Hk as [Hk0 Hk].
      rewrite Hlow by exact Hk0. apply IHpre. exact Hk.
    + intros [|j] e Hj; simpl in Hj.
      * inversion Hj; subst e. rewrite Nat.add_0_r. split; [|exact Hmid].
        rewrite Hlow by lia. apply IHpre.
        eapply Forall_impl; [exact Hx|]. simpl. intros; lia.
      * destruct (IHent j e Hj) as [IH1 IH2].
        assert (e0.1 < e.1)%nat as Hlt.
        { rewrite Forall_forall in Hx. apply Hx.
          eapply list_elem_of_lookup_2; eauto. }
        replace (e.1 + S j)%nat with (S (e.1 + j)) by lia.
        replace (S (e.1 + j) + 1)%nat with (S (e.1 + j + 1)) by lia.
        rewrite !Hhigh by lia. split; assumption.
Qed.

Lemma insert_new_rows_rev (df : list Row) (l : list (nat * Row)) :
  insert_new_rows df (rev l) = foldr (fun e acc => insert_row acc e) df l.
Proof.
  unfold insert_new_rows. revert df.
  induction l as [|e l IH]; intros df; simpl; [reflexivity|].
  rewrite fold_left_app. simpl. now rewrite IH.
Qed.

(** The stages of the pass, for any input: the scan ends, every overwrite
    succeeds, and the output is the overwritten frame with the scheduled
    rows inserted. *)
Lemma process_drilling_data_stages (has_xuhao : bool) (df : list Row) :
  exists (st : ScanState) (modified : list Row),
    scan (length (prepare has_xuhao df)) (prepare has_xuhao df) 0 init_state = Some st
    /\ scan_invariant (prepare has_xuhao df) (length df) st
    /\ apply_mods (prepare has_xuhao df) (rows_to_modify st) = Some modified
    /\ Forall2 overwritten (prepare has_xuhao df) modified
    /\ process_drilling_data has_xuhao df
       = Some (label_out has_xuhao
                 <$> insert_new_rows modified (sorted_new_rows (new_rows_to_add st))).
Proof.
  set (p := prepare has_xuhao df).
  destruct (scan_total p (length p) 0 init_state) as [st Hscan]; [lia|].
  pose proof (scan_invariant_final p _ _ _ _ (scan_invariant_init p) Hscan) as Hinv.
  destruct (apply_mods_spec (rows_to_modify st) p (inv_mods _ _ _ Hinv))
    as (modified & Hmods & Hover).
  exists st, modified.
  split; [exact Hscan|]. split.
  { replace (length df) with (length p) by apply length_prepare. exact Hinv. }
  split; [exact Hmods|]. split; [exact Hover|].
  unfold process_drilling_data. fold p. rewrite Hscan. simpl.
  rewrite Hmods. simpl. now rewrite finish_fmap.
Qed.

End MergingPlacement.

Section MergingOverwrites.
Import Merging MergingSpec.

(** The forward search stops where the count is not continued. *)
Lemma find_sequence_end_break (df : list Row) :
  forall (fuel j e : nat),
    j = S e -> (length df < fuel + j)%nat ->
    break_at df (S (find_sequence_end fuel df j e)).
Proof.
  induction fuel as [|fuel IH]; intros j e -> Hfuel; simpl.
  - rewrite (lookup_ge_None_2 df (S e)) by lia.
    destruct (df !! e); exact I.
  - replace (e - 0)%nat with e by lia.
    destruct (df !! S e) as [rj|] eqn:Ej.
    + destruct (df !! e) as [rp|] eqn:Ep.
      * destruct (entry_count rj =? entry_count rp + 1)%Z eqn:Et.
        -- apply (IH (S (S e)) (S e)); [reflexivity|lia].
        -- simpl. rewrite Ep, Ej. apply Z.eqb_neq. exact Et.
      * simpl. rewrite Ep. exact I.
    + simpl. rewrite Ej. destruct (df !! e); exact I.
Qed.

(** The backward search does not cross a place where the count breaks. *)
Lemma find_sequence_start_barrier (df : list Row) (b : nat) :
  break_at df b ->
  forall k1 s : nat, (b <= k1)%nat -> (b <= s)%nat ->
    (b <= find_sequence_start df k1 s)%nat.
Proof.
  intros Hb. induction k1 as [|k IH]; intros s Hk Hs; simpl; [exact Hs|].
  destruct (df !! k) as [rk|] eqn:Ek; [|exact Hs].
  destruct (df !! S k) as [rn|] eqn:En; [|exact Hs].
  destruct (entry_count rk =? entry_count rn - 1)%Z eqn:Et; [|exact Hs].
  destruct (Nat.eq_dec b (S k)) as [->|Hne].
  - simpl in Hb. rewrite Ek, En in Hb. apply Z.eqb_eq in Et. lia.
  - apply IH; lia.
Qed.

Lemma overwrite_invariant_init (df : list Row) : overwrite_invariant df 0 init_state.
Proof. exists 0%nat. split; [lia|]. split; [exact I|]. constructor. Qed.

Lemma merged_run_more_mods (df : list Row) (mods extra : list Mod)
    (entry : nat * Row) (s : nat) :
  merged_run df mods entry s ->
  Forall (fun m => (entry.1 < mod_idx m)%nat) extra ->
  merged_run df (mods ++ extra) entry s.
Proof.
  intros (first & last_row & n & before & after & Hs & Hf & Hl & Hrow & Hmods & Hafter) Hextra.
  exists first, last_row, n, before, (after ++ extra).
  repeat (split; [assumption|]). split.
  - rewrite Hmods, <- !app_assoc. reflexivity.
  - apply Forall_app. split; assumption.
Qed.

Lemma overwrite_invariant_extend (df : list Row) (i i' : nat) (st : ScanState)
    (extra : list Mod) (w : list (list string)) :
  overwrite_invariant df i st -> (i <= i')%nat ->
  Forall (fun m => (i <= mod_idx m)%nat) extra ->
  overwrite_invariant df i' (mkScan (new_rows_to_add st) (rows_to_modify st ++ extra) w).
Proof.
  intros (b & Hb & Hbreak & Hruns) Hi Hextra.
  exists b. split; [lia|]. split; [exact Hbreak|]. simpl.
  eapply Forall_impl; [exact Hruns|].
  intros entry [Hlt [s Hrun]]. split; [exact Hlt|]. exists s.
  apply merged_run_more_mods; [exact Hrun|].
  eapply Forall_impl; [exact Hextra|]. simpl. intros; lia.
Qed.

Lemma scan_step_overwrite_invariant (df : list Row) (i i' : nat) (st st' : ScanState) :
  overwrite_invariant df i st ->
  scan_step df i st = Some (i', st') ->
  overwrite_invariant df i' st'.
Proof.
  intros Hinv Hstep. unfold scan_step in Hstep.
  destruct (df !! i) as [cur|] eqn:Hcur; [|discriminate]. simpl in Hstep.
  pose proof (lookup_lt_Some _ _ _ Hcur) as Hi.
  assert (Hsame : forall j w, (i <= j)%nat ->
            overwrite_invariant df j (mkScan (new_rows_to_add st) (rows_to_modify st) w)).
  { intros j w Hj.
    pose proof (overwrite_invariant_extend df i j st [] w Hinv Hj) as H.
    rewrite app_nil_r in H. apply H. constructor. }
  assert (Hsame' : forall j, (i <= j)%nat -> overwrite_invariant df j st).
  { intros j Hj. specialize (Hsame j (warnings st) Hj). destruct st; exact Hsame. }
  destruct ((entry_count cur =? 1)%Z && next_entry_is_one df i) eqn:Hcase1.
  { injection Hstep as Hi' Hst'; subst i' st'.
    apply (overwrite_invariant_extend df i); [exact Hinv|lia|].
    destruct (next_entry_is_one df i); repeat constructor; simpl; lia. }
  destruct (1 <=? entry_count cur)%Z;
    [|injection Hstep as Hi' Hst'; subst i' st'; apply Hsame'; lia].
  pose proof (find_sequence_end_bounds (length df) df (i + 1) i) as He.
  pose proof (find_sequence_start_le df i i) as Hs.
  pose proof (find_sequence_end_break df (length df) (i + 1) i) as Hbreak'.
  set (e := find_sequence_end (length df) df (i + 1) i) in *.
  set (s := find_sequence_start df i i) in *.
  destruct (s <? e)%nat eqn:Hse;
    [|injection Hstep as Hi' Hst'; subst i' st'; apply Hsame'; lia].
  apply Nat.ltb_lt in Hse.
  destruct (df !! s) as [first|] eqn:Hfirst; [|discriminate].
  destruct (df !! (s + 1)%nat) as [second|] eqn:Hsecond; [|discriminate].
  destruct (df !! e) as [last_row|] eqn:Hlast; [|discriminate].
  simpl in Hstep.
  destruct (checks_pass _ _).
  - injection Hstep as Hi' Hst'; subst i' st'.
    destruct Hinv as (b & Hb & Hbreak & Hruns).
    pose proof (find_sequence_start_barrier df b Hbreak i i Hb Hb) as Hsb.
    fold s in Hsb.
    pose proof (range_mods_idx (range_rows df s e)
                  (py_sum (footage <$> range_rows df s e)) s) as Hidx.
    exists (e + 1)%nat. split; [lia|]. split.
    { replace (e + 1)%nat with (S e) by lia. apply Hbreak'; lia. }
    simpl. apply Forall_app. split.
    + eapply Forall_impl; [exact Hruns|].
      intros entry [Hlt [s0 Hrun]]. split; [lia|]. exists s0.
      apply merged_run_more_mods; [exact Hrun|].
      eapply Forall_impl; [exact Hidx|].
      intros [idx v|idx v|idx v]; simpl; lia.
    + repeat constructor; [simpl; lia|].
      exists s, first, last_row. eexists. exists (rows_to_modify st), [].
      simpl. rewrite app_nil_r. repeat split; auto.
  - injection Hstep as Hi' Hst'; subst i' st'. apply Hsame. lia.
Qed.

Lemma scan_overwrite_invariant (df : list Row) :
  forall (fuel i : nat) (st st' : ScanState),
    overwrite_invariant df i st ->
    scan fuel df i st = Some st' ->
    exists i', overwrite_invariant df i' st'.
Proof.
  induction fuel as [|fuel IH]; intros i st st' Hinv Hscan; simpl in Hscan.
  - destruct (length df <=? i)%nat; [|discriminate]. inversion Hscan; subst. eauto.
  - destruct (length df <=? i)%nat; [inversion Hscan; subst; eauto|].
    destruct (scan_step df i st) as [[i1 st1]|] eqn:Hstep; [|discriminate].
    simpl in Hscan. eapply IH; [|exact Hscan].
    eapply scan_step_overwrite_invariant; eauto.
Qed.

Lemma apply_mods_app (mods1 mods2 : list Mod) :
  forall df : list Row,
    apply_mods df (mods1 ++ mods2) = apply_mods df mods1 ≫= fun d => apply_mods d mods2.
Proof.
  induction mods1 as [|m mods1 IH]; intros df; simpl; [reflexivity|].
  destruct (apply_mod df m) as [df1|]; simpl; [apply IH|reflexivity].
Qed.

Lemma apply_mod_other (df df' : list Row) (m : Mod) (k : nat) :
  apply_mod df m = Some df' -> k <> mod_idx m -> df' !! k = df !! k.
Proof.
  destruct m as [idx v|idx v|idx v]; unfold apply_mod, set_iloc; simpl;
    destruct (_ <? _)%nat; intros H Hk; inversion H; subst;
    apply list_lookup_alter_ne; congruence.
Qed.

Lemma apply_mods_other (mods : list Mod) (k : nat) :
  forall df df' : list Row,
    apply_mods df mods = Some df' ->
    Forall (fun m => k <> mod_idx m) mods -> df' !! k = df !! k.
Proof.
  induction mods as [|m mods IH]; intros df df' H Hk; simpl in H.
  - inversion H. reflexivity.
  - apply Forall_cons in Hk as [Hm Hk].
    destruct (apply_mod df m) as [df1|] eqn:E; [|discriminate]. simpl in H.
    rewrite (IH df1 df' H Hk). eapply apply_mod_other; eauto.
Qed.

Lemma apply_mods_length (mods : list Mod) :
  forall df df' : list Row, apply_mods df mods = Some df' -> length df' = length df.
Proof.
  induction mods as [|m mods IH]; intros df df' H; simpl in H.
  - inversion H. reflexivity.
  - destruct (apply_mod df m) as [df1|] eqn:E; [|discriminate]. simpl in H.
    rewrite (IH df1 df' H).
    destruct m; unfold apply_mod, set_iloc in E;
      destruct (_ <? _)%nat; inversion E; apply length_alter.
Qed.

(** The overwrites of a run put the rounded total and the rounded share
    into each of its rows. *)
Lemma apply_range_mods (range : list Row) (total : Q) :
  forall (s : nat) (df df' : list Row),
    apply_mods df (range_mods range s total) = Some df' ->
    forall (t : nat) (r : Row),
      range !! t = Some r ->
      exists row, df !! (s + t)%nat = Some row
                  /\ df' !! (s + t)%nat
                     = Some (set_hit_rate (py_round (row_hit_rate (footage r) total) 6)
                               (set_footage (py_round (py_round total 6) 6) row)).
Proof.
  induction range as [|r0 range IH]; intros s df df' H t r Ht; [discriminate|].
  simpl in H. unfold set_iloc in H.
  destruct (s <? length df)%nat eqn:Es; [|discriminate]. simpl in H.
  rewrite length_alter, Es in H. simpl in H.
  apply Nat.ltb_lt in Es.
  destruct (lookup_lt_is_Some_2 df s Es) as [row0 Hrow0].
  destruct t as [|t].
  - inversion Ht; subst r0. rewrite Nat.add_0_r. exists row0. split; [exact Hrow0|].
    rewrite (apply_mods_other _ s _ _ H).
    + rewrite !list_lookup_alter_eq, Hrow0. reflexivity.
    + eapply Forall_impl; [apply (range_mods_idx range total (S s))|].
      intros [idx v|idx v|idx v]; simpl; lia.
  - simpl in Ht. destruct (IH (S s) _ _ H t r Ht) as (row & Hrow & Hrow').
    replace (s + S t)%nat with (S s + t)%nat by lia.
    exists row. split; [|exact Hrow'].
    rewrite !list_lookup_alter_ne in Hrow by lia. exact Hrow.
Qed.

End MergingOverwrites.

Section MergingClaims.
Import Merging MergingSpec.

Lemma label_out_overwritten (has_xuhao : bool) (r p m : Row) (lbl : option Label) :
  p = set_hit_rate 1 (if has_xuhao then r else set_xuhao lbl r) ->
  overwritten p m ->
  overwritten (label_out has_xuhao r) (label_out has_xuhao m).
Proof.
  intros -> (f & h & ->). exists f, h. destruct has_xuhao; reflexivity.
Qed.

(** C10. For every input frame the pass returns an output; the output holds
    every input row exactly once and in the input order, each with at most
    its 进尺 and 进尺命中率 cells overwritten (and without the temporary 序号
    when the input had none), the only other rows are the synthesized ones,
    and the output is longer than the input by the number of synthesized
    rows. *)
Theorem C10_input_rows_kept_in_order (has_xuhao : bool) (df : list Row) :
  exists (st : ScanState) (out kept : list Row),
    scan (length (prepare has_xuhao df)) (prepare has_xuhao df) 0 init_state = Some st
    /\ process_drilling_data has_xuhao df = Some out
    /\ Forall2 (fun r r' => overwritten (label_out has_xuhao r) r') df kept
    /\ kept `sublist_of` out
    /\ out ≡ₚ kept ++ (label_out has_xuhao <$> (snd <$> new_rows_to_add st))
    /\ length out = (length df + length (new_rows_to_add st))%nat.
Proof.
  destruct (process_drilling_data_stages has_xuhao df)
    as (st & modified & Hscan & Hinv & Hmods & Hover & Hout).
  set (inserted := insert_new_rows modified (sorted_new_rows (new_rows_to_add st))) in *.
  exists st, (label_out has_xuhao <$> inserted), (label_out has_xuhao <$> modified).
  assert (Hperm : inserted ≡ₚ modified ++ (snd <$> new_rows_to_add st)).
  { unfold inserted. rewrite insert_new_rows_perm.
    now rewrite sorted_new_rows_perm. }
  split; [exact Hscan|]. split; [exact Hout|]. split; [|split; [|split]].
  - apply Forall2_fmap_r.
    apply Forall2_same_length_lookup. split.
    + rewrite <- (Forall2_length _ _ _ Hover). now rewrite length_prepare.
    + intros k r m Hr Hm. simpl.
      destruct (prepare_lookup has_xuhao df k r Hr) as [lbl Hp].
      eapply label_out_overwritten; [reflexivity|].
      eapply Forall2_lookup_lr; eauto.
  - apply fmap_sublist. apply insert_new_rows_sublist.
  - rewrite Hperm. now rewrite fmap_app.
  - rewrite length_fmap, Hperm, length_app, !length_fmap.
    rewrite <- (Forall2_length _ _ _ Hover). now rewrite length_prepare.
Qed.

(** C8. All overwrites are applied to the frame before any insertion; the
    scheduled rows are inserted in descending order of their anchors; and in
    the output every synthesized row, the [j]-th one say, sits directly
    behind the last original row of its range: the row of the anchor is at
    position [anchor + j] and the synthesized row at [anchor + j + 1]. *)
Theorem C8_synthesized_row_follows_its_range
    (has_xuhao : bool) (df out : list Row) (st : ScanState)
    (j anchor : nat) (new_row : Row) :
  scan (length (prepare has_xuhao df)) (prepare has_xuhao df) 0 init_state = Some st ->
  process_drilling_data has_xuhao df = Some out ->
  new_rows_to_add st !! j = Some (anchor, new_row) ->
  exists (modified : list Row) (last_original : Row),
    apply_mods (prepare has_xuhao df) (rows_to_modify st) = Some modified
    /\ out = finish has_xuhao
               (insert_new_rows modified (sorted_new_rows (new_rows_to_add st)))
    /\ StronglySorted (fun x y : nat * Row => (y.1 < x.1)%nat)
                      (sorted_new_rows (new_rows_to_add st))
    /\ synthesized_from (prepare has_xuhao df) (anchor, new_row)
    /\ modified !! anchor = Some last_original
    /\ out !! (anchor + j)%nat = Some (label_out has_xuhao last_original)
    /\ out !! (anchor + j + 1)%nat = Some (label_out has_xuhao new_row).
Proof.
  intros Hscan Hprocess Hj.
  destruct (process_drilling_data_stages has_xuhao df)
    as (st' & modified & Hscan' & Hinv & Hmods & Hover & Hout).
  rewrite Hscan in Hscan'. inversion Hscan'; subst st'; clear Hscan'.
  rewrite Hprocess in Hout. inversion Hout as [Hout']; clear Hout.
  destruct Hinv as [_ Hlt Hsorted Hsyn _].
  assert (Hlen : length modified = length df).
  { rewrite <- (Forall2_length _ _ _ Hover). apply length_prepare. }
  assert (Hanchor : (anchor < length modified)%nat).
  { rewrite Forall_forall in Hlt.
    specialize (Hlt (anchor, new_row)). simpl in Hlt. rewrite Hlen. apply Hlt.
    eapply list_elem_of_lookup_2; eauto. }
  destruct (lookup_lt_is_Some_2 modified anchor Hanchor) as [last_original Hlast].
  exists modified, last_original.
  split; [exact Hmods|]. split; [now rewrite finish_fmap|].
  split; [now apply sorted_new_rows_descending|]. split.
  { rewrite Forall_forall in Hsyn. apply Hsyn.
    eapply list_elem_of_lookup_2; eauto. }
  split; [exact Hlast|].
  rewrite sorted_new_rows_rev, insert_new_rows_rev by exact Hsorted.
  destruct (insert_back_to_front _ Hsorted modified) as (_ & _ & Hent).
  { rewrite Hlen. exact Hlt. }
  destruct (Hent j (anchor, new_row) Hj) as [H1 H2]. simpl in H1, H2.
  rewrite !list_lookup_fmap, H1, H2, Hlast. split; reflexivity.
Qed.

Lemma C8_synthesized_row_follows_its_range_witness :
  exists (st : ScanState) (out : list Row) (new_row : Row),
    scan (length (prepare true scenario_A_rows)) (prepare true scenario_A_rows)
         0 init_state = Some st
    /\ process_drilling_data true scenario_A_rows = Some out
    /\ new_rows_to_add st !! 0%nat = Some (1%nat, new_row)
    /\ exists (modified : list Row) (last_original : Row),
         apply_mods (prepare true scenario_A_rows) (rows_to_modify st) = Some modified
         /\ out = finish true
                    (insert_new_rows modified (sorted_new_rows (new_rows_to_add st)))
         /\ StronglySorted (fun x y : nat * Row => (y.1 < x.1)%nat)
                           (sorted_new_rows (new_rows_to_add st))
         /\ synthesized_from (prepare true scenario_A_rows) (1%nat, new_row)
         /\ modified !! 1%nat = Some last_original
         /\ out !! (1 + 0)%nat = Some (label_out true last_original)
         /\ out !! (1 + 0 + 1)%nat = Some (label_out true new_row).
Proof.
  eexists _, _, _.
  split; [vm_compute; reflexivity|].
  split; [vm_compute; reflexivity|].
  split; [reflexivity|].
  eapply (C8_synthesized_row_follows_its_range true scenario_A_rows _ _ 0 1 _);
    vm_compute; reflexivity.
Defined.

End MergingClaims.

Section ScenarioA.
Import Merging MergingSpec.

Lemma cell_eq_refl (a : string) : isna a = false -> cell_eq a a = true.
Proof.
  intros H. unfold cell_eq. rewrite H. simpl.
  apply bool_decide_eq_true_2. reflexivity.
Qed.

Lemma scan_two_row_run (p1 p2 : Row) :
  entry_count p1 = 1%Z -> entry_count p2 = 2%Z ->
  drill_type p1 = drill_type p2 -> manufacturer p1 = manufacturer p2 ->
  isna (drill_type p1) = false -> isna (manufacturer p1) = false ->
  end_depth p1 == start_depth p2 ->
  scan 2 [p1; p2] 0 init_state
  = Some (mkScan [(1%nat, merged_row [p1; p2] p1 p2 1)]
                 (range_mods [p1; p2] 0 (py_sum (footage <$> [p1; p2])))
                 []).
Proof.
  intros Hc1 Hc2 Hty Hma Hnt Hnm Hd.
  assert (Hstep : scan_step [p1; p2] 0 init_state
                  = Some (2%nat,
                          mkScan [(1%nat, merged_row [p1; p2] p1 p2 1)]
                                 (range_mods [p1; p2] 0 (py_sum (footage <$> [p1; p2])))
                                 [])).
  { unfold scan_step, next_entry_is_one. simpl.
    rewrite Hc1, Hc2. simpl.
    change (range_rows [p1; p2] 0 1) with [p1; p2].
    unfold is_type_mismatch_warning, checks_pass, consistent_drill_info.
    cbn [forallb depth_continuous]. rewrite <- Hty, <- Hma.
    rewrite !cell_eq_refl by assumption.
    apply Qeq_bool_iff in Hd. rewrite Hd. simpl. reflexivity. }
  unfold scan. simpl length. simpl Nat.leb. cbv iota.
  rewrite Hstep. reflexivity.
Qed.

Lemma apply_two_row_mods (p1 p2 : Row) (total h1 h2 : Q) :
  apply_mods [p1; p2]
    [ModDepth 0 total; ModHitRate 0 h1; ModDepth 1 total; ModHitRate 1 h2]
  = Some [set_hit_rate (py_round h1 6) (set_footage (py_round total 6) p1);
          set_hit_rate (py_round h2 6) (set_footage (py_round total 6) p2)].
Proof. reflexivity. Qed.

Lemma row_hit_rate_comp (a a' t t' : Q) :
  a == a' -> t == t' -> row_hit_rate a t = row_hit_rate a' t'.
Proof.
  intros Ea Et. unfold row_hit_rate.
  rewrite (Qeqb_comp _ _ Et 0 0) by reflexivity.
  destruct (Qeq_bool t' 0) eqn:E; [reflexivity|].
  apply py_round_comp. rewrite Ea, Et. reflexivity.
Qed.

Lemma process_two_row_run (has_xuhao : bool) (r1 r2 : Row) :
  let p1 := set_hit_rate 1
               (if has_xuhao then r1
                else set_xuhao (Some (LInt (Z.of_nat 0 + 1))) r1) in
  let p2 := set_hit_rate 1
               (if has_xuhao then r2
                else set_xuhao (Some (LInt (Z.of_nat 1 + 1))) r2) in
  let total := py_sum (footage <$> [p1; p2]) in
  scan 2 [p1; p2] 0 init_state
  = Some (mkScan [(1%nat, merged_row [p1; p2] p1 p2 1)]
                 (range_mods [p1; p2] 0 total) []) ->
  process_drilling_data has_xuhao [r1; r2]
  = Some [label_out has_xuhao
            (set_hit_rate (py_round (row_hit_rate (footage p1) total) 6)
               (set_footage (py_round (py_round total 6) 6) p1));
          label_out has_xuhao
            (set_hit_rate (py_round (row_hit_rate (footage p2) total) 6)
               (set_footage (py_round (py_round total 6) 6) p2));
          label_out has_xuhao (merged_row [p1; p2] p1 p2 1)].
Proof.
  intros p1 p2 total Hscan.
  unfold process_drilling_data.
  change (prepare has_xuhao [r1; r2]) with [p1; p2].
  change (length [p1; p2]) with 2%nat. rewrite Hscan.
  destruct has_xuhao; reflexivity.
Qed.


Lemma two_row_run_values (p1 p2 : Row) :
  footage p1 == 50 -> footage p2 == 30 ->
  py_round (py_sum (footage <$> [p1; p2])) 6 == 80
  /\ py_round (py_round (py_sum (footage <$> [p1; p2])) 6) 6 == 80
  /\ py_round (row_hit_rate (footage p1) (py_sum (footage <$> [p1; p2]))) 6 == 0.625
  /\ py_round (row_hit_rate (footage p2) (py_sum (footage <$> [p1; p2]))) 6 == 0.375.
Proof.
  intros Hf1 Hf2.
  assert (Htotal : py_sum (footage <$> [p1; p2]) == 80).
  { change (py_sum (footage <$> [p1; p2])) with (0 + footage p1 + footage p2).
    rewrite Hf1, Hf2. reflexivity. }
  rewrite (py_round_comp _ 80 6 Htotal).
  rewrite (row_hit_rate_comp _ 50 _ 80 Hf1 Htotal).
  rewrite (row_hit_rate_comp _ 30 _ 80 Hf2 Htotal).
  repeat split; vm_compute; reflexivity.
Qed.

Lemma written_row_cells (has_xuhao : bool) (new_hit_rate new_footage : Q) (p : Row) :
  footage (label_out has_xuhao (set_hit_rate new_hit_rate (set_footage new_footage p)))
  = new_footage
  /\ hit_rate (label_out has_xuhao (set_hit_rate new_hit_rate (set_footage new_footage p)))
    = new_hit_rate.
Proof. destruct has_xuhao; split; reflexivity. Qed.

Lemma merged_row_cells (has_xuhao : bool) (range : list Row) (first last_row : Row)
    (n : nat) :
  footage (label_out has_xuhao (merged_row range first last_row n))
  = py_round (py_sum (footage <$> range)) 6
  /\ hit_rate (label_out has_xuhao (merged_row range first last_row n))
    = py_round 1 6.
Proof. destruct has_xuhao; split; reflexivity. Qed.

Lemma written_row_overwritten (has_xuhao : bool) (new_hit_rate new_footage : Q)
    (r : Row) (lbl : option Label) :
  overwritten (label_out has_xuhao r)
    (label_out has_xuhao
       (set_hit_rate new_hit_rate
          (set_footage new_footage
             (set_hit_rate 1 (if has_xuhao then r else set_xuhao lbl r))))).
Proof.
  exists new_footage, new_hit_rate. destruct has_xuhao; reflexivity.
Qed.

(** C1 (scenario A). Two consecutive rows with entry counts 1 and 2, the
    same bit type and the same manufacturer, both cells holding a text
    (an empty cell, or one that is read as a missing value, is identical
    to nothing), the first ending at 1000 where the second starts, and
    footages 50 and 30: the output is the two rows followed by one
    synthesized row of footage 80; both original rows get the footage 80,
    and the hit-rates 0.625 and 0.375. *)
Theorem C1_scenario_A (has_xuhao : bool) (r1 r2 : Row) :
  entry_count r1 = 1%Z -> entry_count r2 = 2%Z ->
  drill_type r1 = drill_type r2 -> manufacturer r1 = manufacturer r2 ->
  isna (drill_type r1) = false -> isna (manufacturer r1) = false ->
  end_depth r1 == 1000 -> start_depth r2 == 1000 ->
  footage r1 == 50 -> footage r2 == 30 ->
  exists o1 o2 merged : Row,
    process_drilling_data has_xuhao [r1; r2] = Some [o1; o2; merged]
    /\ overwritten (label_out has_xuhao r1) o1
    /\ overwritten (label_out has_xuhao r2) o2
    /\ footage merged == 80 /\ hit_rate merged == 1
    /\ footage o1 == 80 /\ footage o2 == 80
    /\ hit_rate o1 == 0.625 /\ hit_rate o2 == 0.375.
Proof.
  intros Hc1 Hc2 Hty Hma Hnt Hnm He Hs Hf1 Hf2.
  pose proof (process_two_row_run has_xuhao r1 r2) as Hprocess.
  cbv zeta in Hprocess.
  eexists _, _, _. split.
  { apply Hprocess. apply scan_two_row_run;
      destruct has_xuhao; simpl; auto; rewrite He, Hs; reflexivity. }
  split; [apply written_row_overwritten|].
  split; [apply written_row_overwritten|].
  rewrite !(proj1 (written_row_cells _ _ _ _)), !(proj2 (written_row_cells _ _ _ _)).
  rewrite (proj1 (merged_row_cells _ _ _ _ _)), (proj2 (merged_row_cells _ _ _ _ _)).
  match goal with
  | |- context [py_sum (footage <$> [?p1; ?p2])] =>
      destruct (two_row_run_values p1 p2) as (V1 & V2 & V3 & V4)
  end.
  { destruct has_xuhao; exact Hf1. }
  { destruct has_xuhao; exact Hf2. }
  split; [exact V1|]. split; [vm_compute; reflexivity|].
  repeat split; assumption.
Qed.

Lemma C1_scenario_A_witness :
  exists o1 o2 merged : Row,
    process_drilling_data true
      [example_row 1 950 1000 50 (Some 5); example_row 2 1000 1030 30 (Some 5)]
    = Some [o1; o2; merged]
    /\ overwritten (label_out true (example_row 1 950 1000 50 (Some 5))) o1
    /\ overwritten (label_out true (example_row 2 1000 1030 30 (Some 5))) o2
    /\ footage merged == 80 /\ hit_rate merged == 1
    /\ footage o1 == 80 /\ footage o2 == 80
    /\ hit_rate o1 == 0.625 /\ hit_rate o2 == 0.375.
Proof.
  apply (C1_scenario_A true (example_row 1 950 1000 50 (Some 5))
                       (example_row 2 1000 1030 30 (Some 5)));
    reflexivity.
Defined.

End ScenarioA.

Section CursorClaims.
Import Merging MergingSpec.

(** C5, as stated, fails: rows with entry counts 1, 2, 3 and a gap in depth
    form a range of three rows whose checks fail without the type-mismatch
    warning; no merge is scheduled, but the cursor goes from 0 to 3, not
    to 1. *)
Lemma C5_cursor_counterexample :
  find_sequence_start discontinuous_run 0 0 = 0%nat
  /\ find_sequence_end (length discontinuous_run) discontinuous_run 1 0 = 2%nat
  /\ checks_pass (range_rows discontinuous_run 0 2)
                 (example_row 1 950 1000 50 (Some 5)) = false
  /\ is_type_mismatch_warning (range_rows discontinuous_run 0 2)
                 (example_row 1 950 1000 50 (Some 5))
                 (example_row 2 1005 1030 25 (Some 5)) = false
  /\ scan_step discontinuous_run 0 init_state = Some (3%nat, init_state)
  /\ scan_step discontinuous_run 0 init_state <> Some ((0 + 1)%nat, init_state).
Proof.
  repeat split; try (vm_compute; reflexivity).
  vm_compute. discriminate.
Qed.

(** C5, amended. When the detected range has more than one row and its
    checks fail (the type-mismatch warning aside), nothing is scheduled and
    the cursor moves to the row after the last row of the range. *)
Theorem C5_failed_checks_skip_the_range
    (df : list Row) (i : nat) (st : ScanState)
    (current_row first second : Row) :
  df !! i = Some current_row ->
  (entry_count current_row =? 1)%Z && next_entry_is_one df i = false ->
  (1 <= entry_count current_row)%Z ->
  (find_sequence_start df i i < find_sequence_end (length df) df (i + 1) i)%nat ->
  df !! find_sequence_start df i i = Some first ->
  df !! (find_sequence_start df i i + 1)%nat = Some second ->
  checks_pass
    (range_rows df (find_sequence_start df i i)
                (find_sequence_end (length df) df (i + 1) i)) first = false ->
  is_type_mismatch_warning
    (range_rows df (find_sequence_start df i i)
                (find_sequence_end (length df) df (i + 1) i)) first second = false ->
  scan_step df i st
  = Some ((find_sequence_end (length df) df (i + 1) i + 1)%nat, st)
  /\ (i < find_sequence_end (length df) df (i + 1) i + 1 <= length df)%nat.
Proof.
  intros Hcur Hcase1 Hcount Hrange Hfirst Hsecond Hchecks Hwarn.
  pose proof (lookup_lt_Some _ _ _ Hcur) as Hi.
  pose proof (find_sequence_end_bounds (length df) df (i + 1) i) as He.
  split; [|lia].
  unfold scan_step. rewrite Hcur. simpl. rewrite Hcase1.
  apply Z.leb_le in Hcount. rewrite Hcount.
  apply Nat.ltb_lt in Hrange. rewrite Hrange.
  rewrite Hfirst, Hsecond. simpl.
  destruct (lookup_lt_is_Some_2 df (find_sequence_end (length df) df (i + 1) i))
    as [last_row ->]; [lia|].
  simpl. rewrite Hchecks, Hwarn. destruct st; reflexivity.
Qed.

Lemma C5_failed_checks_skip_the_range_witness :
  scan_step discontinuous_run 0 init_state
  = Some ((find_sequence_end (length discontinuous_run) discontinuous_run (0 + 1) 0
           + 1)%nat, init_state)
  /\ (0 < find_sequence_end (length discontinuous_run) discontinuous_run (0 + 1) 0 + 1
      <= length discontinuous_run)%nat.
Proof.
  apply (C5_failed_checks_skip_the_range discontinuous_run 0 init_state
           (example_row 1 950 1000 50 (Some 5))
           (example_row 1 950 1000 50 (Some 5))
           (example_row 2 1005 1030 25 (Some 5)));
    try reflexivity; vm_compute; lia.
Defined.

End CursorClaims.

Section HitRateClaims.
Import Merging MergingSpec.

Lemma fold_left_Qplus (l : list Q) :
  forall acc : Q, fold_left Qplus l acc == acc + Qsum l.
Proof.
  induction l as [|x l IH]; intros acc; simpl.
  - ring.
  - rewrite IH. ring.
Qed.

Lemma py_sum_Qsum (l : list Q) : py_sum l == Qsum l.
Proof. unfold py_sum. rewrite fold_left_Qplus. ring. Qed.

Lemma round_half_even_Z (z : Z) : round_half_even (inject_Z z) = z.
Proof.
  unfold round_half_even. rewrite Qfloor_Z.
  assert (Qcompare (inject_Z z - inject_Z z) (1 # 2) = Lt) as ->; [|reflexivity].
  apply Qlt_alt. generalize (inject_Z z). intros a.
  assert (a - a == 0) as -> by ring. reflexivity.
Qed.

(** Rounding twice is rounding once. *)
Lemma py_round_idem (q : Q) (n : nat) : py_round (py_round q n) n = py_round q n.
Proof.
  unfold py_round at 1 3. f_equal. f_equal.
  set (z := round_half_even (q * inject_Z (Z.pos (pow10 n)))).
  assert (py_round q n * inject_Z (Z.pos (pow10 n)) == inject_Z z) as E.
  { unfold py_round. fold z. rewrite Qred_correct.
    unfold Qeq, Qmult, inject_Z; simpl. lia. }
  rewrite (round_half_even_comp _ _ E). apply round_half_even_Z.
Qed.

Lemma Qsum_footage_pos (range : list Row) :
  Forall (fun r => 0 < footage r) range -> range <> [] ->
  0 < Qsum (footage <$> range).
Proof.
  induction 1 as [|r range Hr Hrange IH]; intros Hne; [congruence|].
  change (0 < footage r + Qsum (footage <$> range)).
  destruct range as [|r' range'].
  - change (0 < footage r + 0). lra.
  - assert (0 < Qsum (footage <$> r' :: range')) by (apply IH; congruence).
    lra.
Qed.

(** Each written hit-rate is within half a unit of the sixth decimal of the
    row's share of the total. *)
Lemma written_hit_rates_near (total : Q) (range : list Row) :
  ~ total == 0 ->
  forall k : nat,
    Qabs (Qsum (written_hit_rates (range_mods range k total))
          - Qsum (footage <$> range) / total)
    <= inject_Z (Z.of_nat (length range)) * (1 # 2000000).
Proof.
  intros Htotal.
  assert (Hnz : Qeq_bool total 0 = false).
  { destruct (Qeq_bool total 0) eqn:E; [|reflexivity].
    apply Qeq_bool_iff in E. contradiction. }
  induction range as [|r range IH]; intros k.
  - simpl. unfold Qdiv. rewrite Qmult_0_l. vm_compute. discriminate.
  - change (written_hit_rates (range_mods (r :: range) k total))
      with (py_round (row_hit_rate (footage r) total) 6
            :: written_hit_rates (range_mods range (S k) total)).
    unfold row_hit_rate. rewrite Hnz, py_round_idem.
    change (Qsum (?a :: ?l)) with (a + Qsum l).
    change (footage <$> r :: range) with (footage r :: (footage <$> range)).
    change (Qsum (?a :: ?l)) with (a + Qsum l).
    pose proof (py_round_error (footage r / total) 6) as Herr.
    change (1 # 2 * pow10 6) with (1 # 2000000) in Herr.
    specialize (IH (S k)).
    set (v := py_round (footage r / total) 6) in *.
    set (S1 := Qsum (written_hit_rates (range_mods range (S k) total))) in *.
    set (S2 := Qsum (footage <$> range)) in *.
    assert (E : v + S1 - (footage r + S2) / total
                == (v - footage r / total) + (S1 - S2 / total))
      by (field; exact Htotal).
    rewrite E.
    eapply Qle_trans; [apply Qabs_triangle|].
    replace (length (r :: range)) with (S (length range)) by reflexivity.
    rewrite Nat2Z.inj_succ, <- Z.add_1_r, inject_Z_plus.
    change (inject_Z 1) with 1. lra.
Qed.

(** C7, as stated, fails: six rows of equal footage form one merged run;
    every row gets the hit-rate 0.166667, and the six add up to 1.000002,
    which is 2e-6 away from 1. *)
Lemma C7_hit_rate_sum_counterexample :
  exists out : list Row,
    process_drilling_data true six_equal_rows = Some out
    /\ length out = 7%nat
    /\ Forall (fun r => 0 < footage r) six_equal_rows
    /\ (forall merged, out !! 6%nat = Some merged ->
          footage merged == Qsum (footage <$> six_equal_rows))
    /\ hit_rate <$> take 6 out = replicate 6 (166667 # 1000000)
    /\ ~ Qabs (Qsum (hit_rate <$> take 6 out) - 1) <= 1 # 1000000.
Proof.
  eexists. split; [vm_compute; reflexivity|].
  split; [reflexivity|]. split.
  { repeat constructor. }
  split.
  { intros merged H. inversion H. vm_compute. reflexivity. }
  split; [vm_compute; reflexivity|].
  apply Qlt_not_le. vm_compute. reflexivity.
Qed.

(** The bound on the values that the overwrites of a run carry. *)
Lemma written_hit_rates_sum (range : list Row) (sequence_start : nat) :
  Forall (fun r => 0 < footage r) range -> range <> [] ->
  Qabs (Qsum (written_hit_rates
                (range_mods range sequence_start (py_sum (footage <$> range))))
        - 1)
  <= inject_Z (Z.of_nat (length range)) * (1 # 2000000).
Proof.
  intros Hpos Hne.
  pose proof (Qsum_footage_pos range Hpos Hne) as Hsum.
  pose proof (py_sum_Qsum (footage <$> range)) as Etotal.
  set (total := py_sum (footage <$> range)) in *.
  assert (Hnz : ~ total == 0) by lra.
  pose proof (written_hit_rates_near total range Hnz sequence_start) as Hnear.
  assert (E : Qsum (footage <$> range) / total == 1)
    by (rewrite <- Etotal; field; exact Hnz).
  rewrite E in Hnear. exact Hnear.
Qed.

Lemma written_hit_rates_range_mods (range : list Row) (total : Q) :
  forall k : nat,
    written_hit_rates (range_mods range k total)
    = (fun r => py_round (row_hit_rate (footage r) total) 6) <$> range.
Proof.
  induction range as [|r range IH]; intros k; [reflexivity|].
  change (written_hit_rates (range_mods (r :: range) k total))
    with (py_round (row_hit_rate (footage r) total) 6
          :: written_hit_rates (range_mods range (S k) total)).
  rewrite IH. reflexivity.
Qed.

Lemma range_rows_lookup (df : list Row) (s e t : nat) :
  range_rows df s e !! t
  = if decide (t < S e - s)%nat then df !! (s + t)%nat else None.
Proof.
  unfold range_rows. rewrite lookup_take. destruct (decide _); [|reflexivity].
  apply lookup_drop.
Qed.

(** After all overwrites the rows of a merged run carry the hit-rates that
    were scheduled for them. *)
Lemma merged_run_rewritten (df modified : list Row) (mods : list Mod)
    (entry : nat * Row) (s : nat) :
  merged_run df mods entry s ->
  apply_mods df mods = Some modified ->
  hit_rate <$> range_rows modified s entry.1
  = written_hit_rates
      (range_mods (range_rows df s entry.1) s
                  (py_sum (footage <$> range_rows df s entry.1))).
Proof.
  intros (first & last_row & n & before & after & Hs & Hf & Hl & Hrow & Hmods & Hafter) Happ.
  set (run := range_rows df s entry.1) in *.
  set (total := py_sum (footage <$> run)) in *.
  rewrite written_hit_rates_range_mods.
  rewrite Hmods, apply_mods_app in Happ.
  destruct (apply_mods df before) as [df1|] eqn:E1;
    simpl in Happ; [|discriminate Happ].
  rewrite apply_mods_app in Happ.
  destruct (apply_mods df1 (range_mods run s total)) as [df2|] eqn:E2;
    simpl in Happ; [|discriminate Happ].
  pose proof (lookup_lt_Some _ _ _ Hl) as He.
  pose proof (apply_mods_length _ _ _ E1) as L1.
  pose proof (apply_mods_length _ _ _ E2) as L2.
  pose proof (apply_mods_length _ _ _ Happ) as L3.
  apply list_eq. intros t. rewrite !list_lookup_fmap.
  assert (Hrunt : run !! t
                  = if decide (t < S entry.1 - s)%nat then df !! (s + t)%nat else None)
    by apply range_rows_lookup.
  rewrite range_rows_lookup.
  destruct (decide (t < S entry.1 - s)%nat) as [Ht|Ht].
  - destruct (lookup_lt_is_Some_2 df (s + t)) as [r Hr]; [lia|].
    rewrite Hr in Hrunt.
    destruct (apply_range_mods run total s df1 df2 E2 t r Hrunt) as (row & _ & Hrow2).
    rewrite (apply_mods_other after (s + t) df2 modified Happ).
    + rewrite Hrow2, Hrunt. reflexivity.
    + eapply Forall_impl; [exact Hafter|]. simpl. intros; lia.
  - rewrite Hrunt. reflexivity.
Qed.

(** C7, amended. For every merged run whose footages are all positive, the
    hit-rates that its rows carry after the overwrites add up to 1 within
    n times half a unit of the sixth decimal, n being the number of rows of
    the run, and the error of the doubles (each hit-rate is the rounding
    of a quotient of doubles off by at most [float_error (n + 3) 1]). *)
Theorem C7_hit_rates_sum_to_one
    (has_xuhao : bool) (df : list Row) (st : ScanState)
    (j anchor : nat) (new_row : Row) :
  scan (length (prepare has_xuhao df)) (prepare has_xuhao df) 0 init_state = Some st ->
  new_rows_to_add st !! j = Some (anchor, new_row) ->
  exists (modified : list Row) (sequence_start : nat),
    apply_mods (prepare has_xuhao df) (rows_to_modify st) = Some modified
    /\ process_drilling_data has_xuhao df
       = Some (finish has_xuhao
                 (insert_new_rows modified (sorted_new_rows (new_rows_to_add st))))
    /\ merged_run (prepare has_xuhao df) (rows_to_modify st)
                  (anchor, new_row) sequence_start
    /\ (Forall (fun r => 0 < footage r)
               (range_rows (prepare has_xuhao df) sequence_start anchor) ->
        Qabs (Qsum (hit_rate <$> range_rows modified sequence_start anchor) - 1)
        <= inject_Z (Z.of_nat (S anchor - sequence_start))
           * ((1 # 2000000)
              + FloatSpec.float_error (S anchor - sequence_start + 3) 1)).
Proof.
  intros Hscan Hj.
  destruct (process_drilling_data_stages has_xuhao df)
    as (st' & modified & Hscan' & Hinv & Hmods & Hover & Hout).
  rewrite Hscan in Hscan'. inversion Hscan'; subst st'; clear Hscan'.
  destruct (scan_overwrite_invariant _ _ _ _ _
              (overwrite_invariant_init (prepare has_xuhao df)) Hscan)
    as (i' & b & _ & _ & Hruns).
  rewrite Forall_forall in Hruns.
  destruct (Hruns (anchor, new_row)) as [_ [s Hrun]].
  { eapply list_elem_of_lookup_2; eauto. }
  exists modified, s.
  split; [exact Hmods|]. split; [rewrite finish_fmap; exact Hout|].
  split; [exact Hrun|].
  intros Hpos.
  pose proof (merged_run_rewritten _ _ _ _ _ Hrun Hmods) as Hrew.
  simpl fst in Hrew. rewrite Hrew.
  destruct Hrun as (first & last_row & n & before & after & Hs & Hf & Hl & _).
  simpl in Hs, Hl. pose proof (lookup_lt_Some _ _ _ Hl) as He.
  assert (Hlen : length (range_rows (prepare has_xuhao df) s anchor)
                 = (S anchor - s)%nat) by (apply length_range_rows; exact He).
  assert (Hne : range_rows (prepare has_xuhao df) s anchor <> []).
  { intros Hnil. rewrite Hnil in Hlen. simpl in Hlen. lia. }
  pose proof (written_hit_rates_sum _ s Hpos Hne) as Hbound.
  rewrite Hlen in Hbound.
  eapply Qle_trans; [exact Hbound|].
  pose proof (float_error_nonneg (S anchor - s + 3) 1) as Herr.
  assert (0 <= inject_Z (Z.of_nat (S anchor - s))) as Hn.
  { change 0 with (inject_Z 0). rewrite <- Zle_Qle. lia. }
  assert (0 <= FloatSpec.float_error (S anchor - s + 3) 1) as Herr'
    by (apply Herr; discriminate).
  nra.
Qed.

Lemma C7_hit_rates_sum_to_one_witness :
  exists (st : ScanState) (new_row : Row),
    scan (length (prepare true scenario_A_rows)) (prepare true scenario_A_rows)
         0 init_state = Some st
    /\ new_rows_to_add st !! 0%nat = Some (1%nat, new_row)
    /\ exists (modified : list Row) (sequence_start : nat),
         apply_mods (prepare true scenario_A_rows) (rows_to_modify st) = Some modified
         /\ process_drilling_data true scenario_A_rows
            = Some (finish true
                      (insert_new_rows modified (sorted_new_rows (new_rows_to_add st))))
         /\ merged_run (prepare true scenario_A_rows) (rows_to_modify st)
                       (1%nat, new_row) sequence_start
         /\ (Forall (fun r => 0 < footage r)
                    (range_rows (prepare true scenario_A_rows) sequence_start 1) ->
             Qabs (Qsum (hit_rate <$> range_rows modified sequence_start 1) - 1)
             <= inject_Z (Z.of_nat (2 - sequence_start))
                * ((1 # 2000000)
                   + FloatSpec.float_error (2 - sequence_start + 3) 1)).
Proof.
  eexists _, _.
  split; [vm_compute; reflexivity|].
  split; [reflexivity|].
  eapply (C7_hit_rates_sum_to_one true scenario_A_rows _ 0 1 _);
    vm_compute; reflexivity.
Defined.

End HitRateClaims.

Section AverageClaims.
Import Merging MergingSpec.

Lemma total_weight_Qsum (range : list Row) :
  total_weight range == Qsum (footage <$> range).
Proof.
  unfold total_weight.
  assert (H : forall acc, fold_left (fun a r => a + footage r) range acc
                          == acc + Qsum (footage <$> range)).
  { induction range as [|r range IH]; intros acc.
    - change (acc == acc + 0). ring.
    - change (fold_left (fun a r0 => a + footage r0) range (acc + footage r)
              == acc + (footage r + Qsum (footage <$> range))).
      rewrite IH. ring. }
  rewrite H. ring.
Qed.

Lemma weighted_sum_Qsum (value : Row -> Q) (range : list Row) :
  weighted_sum value range == Qsum ((fun r => value r * footage r) <$> range).
Proof.
  unfold weighted_sum.
  assert (H : forall acc, fold_left (fun a r => a + value r * footage r) range acc
                          == acc + Qsum ((fun r => value r * footage r) <$> range)).
  { induction range as [|r range IH]; intros acc.
    - change (acc == acc + 0). ring.
    - change (fold_left (fun a r0 => a + value r0 * footage r0) range
                        (acc + value r * footage r)
              == acc + (value r * footage r
                        + Qsum ((fun r => value r * footage r) <$> range))).
      rewrite IH. ring. }
  rewrite H. ring.
Qed.

(** The rows that have a mechanical rate. *)
Lemma speed_sums_valid (range : list Row) :
  let valid := filter (fun r => is_Some (mechanical_speed r)) range in
  (speed_sums range).1
  == Qsum ((fun r => default 0 (mechanical_speed r) * footage r) <$> valid)
  /\ (speed_sums range).2 == Qsum (footage <$> valid).
Proof.
  unfold speed_sums.
  set (step := fun (acc : Q * Q) (r : Row) =>
                 match mechanical_speed r with
                 | Some v => (acc.1 + v * footage r, acc.2 + footage r)
                 | None => acc
                 end).
  set (valid := fun l : list Row => filter (fun r => is_Some (mechanical_speed r)) l).
  assert (H : forall acc,
             (fold_left step range acc).1
             == acc.1 + Qsum ((fun r => default 0 (mechanical_speed r) * footage r)
                                <$> valid range)
             /\ (fold_left step range acc).2
                == acc.2 + Qsum (footage <$> valid range)).
  { induction range as [|r range IH]; intros acc.
    - change (acc.1 == acc.1 + 0 /\ acc.2 == acc.2 + 0). split; ring.
    - change (fold_left step (r :: range) acc) with (fold_left step range (step acc r)).
      destruct (IH (step acc r)) as [IH1 IH2]. rewrite IH1, IH2.
      unfold valid, step. rewrite filter_cons.
      destruct (mechanical_speed r) as [v|] eqn:E.
      + rewrite decide_True by eauto.
        change (Qsum (?f <$> r :: ?l)) with (f r + Qsum (f <$> l)).
        cbv beta. rewrite E. simpl fst. simpl snd. simpl default. split; ring.
      + rewrite decide_False by (intros [? ?]; discriminate).
        split; reflexivity. }
  destruct (H (0, 0)) as [H1 H2]. simpl fst in *. simpl snd in *.
  unfold valid in *. split; [rewrite H1|rewrite H2]; ring.
Qed.

Lemma Qlt_bool_iff (a b : Q) : Qlt_bool a b = true <-> a < b.
Proof.
  unfold Qlt_bool. rewrite negb_true_iff.
  split.
  - intros H. apply Qnot_le_lt. intros Hle.
    apply Qle_bool_iff in Hle. congruence.
  - intros H. destruct (Qle_bool b a) eqn:E; [|reflexivity].
    apply Qle_bool_iff in E. lra.
Qed.

(** C9, as stated, fails: when no row of the run has a mechanical rate the
    synthesized row gets the rate 0, not the (missing) rate of the last
    row. *)
Lemma C9_null_speed_counterexample :
  exists (out : list Row) (last_row merged : Row),
    process_drilling_data true null_speed_run = Some out
    /\ null_speed_run !! 1%nat = Some last_row
    /\ out !! 2%nat = Some merged
    /\ Forall (fun r => mechanical_speed r = None) null_speed_run
    /\ mechanical_speed merged = Some 0
    /\ mechanical_speed merged <> mechanical_speed last_row.
Proof.
  eexists _, _, _. split; [vm_compute; reflexivity|].
  split; [reflexivity|]. split; [reflexivity|].
  split; [repeat constructor|].
  split; [reflexivity|]. discriminate.
Qed.

Lemma merged_row_weighted (value : Row -> Q) (range : list Row)
    (first last_row : Row) (n : nat) :
  value ∈ weighted_cells ->
  value (merged_row range first last_row n)
  = py_round (weighted_average value range last_row) 6.
Proof.
  intros H. unfold weighted_cells in H.
  repeat (apply elem_of_cons in H as [->|H]; [reflexivity|]).
  apply elem_of_nil in H. contradiction.
Qed.

Lemma Qsum_nonneg (l : list Q) : Forall (fun x => 0 <= x) l -> 0 <= Qsum l.
Proof.
  induction 1 as [|x l Hx _ IH]; [discriminate|].
  change (0 <= x + Qsum l). lra.
Qed.

Lemma magnitude_nonneg (value : Row -> Q) (range : list Row) :
  0 <= magnitude value range.
Proof.
  unfold magnitude. apply Qsum_nonneg.
  apply Forall_fmap, Forall_forall. intros r _. apply Qabs_nonneg.
Qed.

(** C9, amended. In the synthesized row of a run without a negative
    footage, the total footage is zero or positive, and each of the nine
    weighted cells (the mud density and the eight A and B cells) is the
    footage-weighted average of the cell over all rows of the run, whether
    or not a row has a mechanical rate, rounded to 6 decimals, or the last
    row's value rounded to 6 decimals when the total footage is zero; the
    mechanical rate is the average over the rows that have a rate,
    weighted by the footage of these rows only; and when these rows carry
    no footage, or no row has a rate, the mechanical rate is the last
    row's rate rounded, or 0 when the last row has none. *)
Theorem C9_weighted_averages (range : list Row) (first last_row : Row) (n : nat) :
  Forall (fun r => 0 <= footage r) range ->
  let merged := merged_row range first last_row n in
  let valid := filter (fun r => is_Some (mechanical_speed r)) range in
  let rate r := default 0 (mechanical_speed r) in
  let ops := (3 * length range + 3)%nat in
  (Qsum (footage <$> range) == 0 \/ 0 < Qsum (footage <$> range))
  /\ (Qsum (footage <$> valid) == 0 \/ 0 < Qsum (footage <$> valid))
  /\ (forall value, value ∈ weighted_cells ->
     (Qsum (footage <$> range) == 0 ->
        FloatSpec.rounded_to 6 (FloatSpec.float_error 2 (Qabs (value last_row)))
          (value last_row) (value merged))
     /\ (0 < Qsum (footage <$> range) ->
         FloatSpec.rounded_to 6 (FloatSpec.float_error ops (magnitude value range))
           (Qsum ((fun r => value r * footage r) <$> range)
            / Qsum (footage <$> range))
           (value merged)))
  /\ (0 < Qsum (footage <$> valid) ->
      exists v, mechanical_speed merged = Some v
                /\ FloatSpec.rounded_to 6
                     (FloatSpec.float_error ops (magnitude rate valid))
                     (Qsum ((fun r => rate r * footage r) <$> valid)
                      / Qsum (footage <$> valid)) v)
  /\ (Qsum (footage <$> valid) == 0 ->
      exists v, mechanical_speed merged = Some v
                /\ match mechanical_speed last_row with
                   | Some x =>
                       FloatSpec.rounded_to 6 (FloatSpec.float_error 2 (Qabs x)) x v
                   | None => v == 0
                   end).
Proof.
  intros Hnonneg merged valid rate ops.
  pose proof (total_weight_Qsum range) as Htw.
  destruct (speed_sums_valid range) as [Hs1 Hs2]. fold valid in Hs1, Hs2.
  assert (Hcases : forall l : list Row,
             Forall (fun r => 0 <= footage r) l ->
             Qsum (footage <$> l) == 0 \/ 0 < Qsum (footage <$> l)).
  { intros l Hl.
    assert (0 <= Qsum (footage <$> l)) as H0
      by (apply Qsum_nonneg, Forall_fmap; exact Hl).
    destruct (Qlt_le_dec 0 (Qsum (footage <$> l))) as [Hlt|Hle]; [right; exact Hlt|].
    left. lra. }
  split; [apply Hcases; exact Hnonneg|].
  split.
  { apply Hcases, Forall_forall. intros r Hr.
    apply list_elem_of_filter in Hr as [_ Hr].
    rewrite Forall_forall in Hnonneg. apply Hnonneg. exact Hr. }
  split; [|split].
  - intros value Hvalue.
    pose proof (weighted_sum_Qsum value range) as Hws.
    unfold merged. rewrite (merged_row_weighted value) by exact Hvalue.
    unfold weighted_average. split.
    + intros Hzero.
      destruct (Qlt_bool 0 (total_weight range)) eqn:E.
      { apply Qlt_bool_iff in E. lra. }
      apply py_round_rounded_to, float_error_nonneg, Qabs_nonneg.
    + intros Hpos. rewrite <- Htw in Hpos.
      apply Qlt_bool_iff in Hpos. rewrite Hpos.
      eapply rounded_to_comp;
        [|apply py_round_rounded_to, float_error_nonneg, magnitude_nonneg].
      rewrite Hws, Htw. reflexivity.
  - intros Hpos. unfold merged. cbn [mechanical_speed merged_row].
    eexists. split; [reflexivity|].
    unfold weighted_mechanical_speed.
    destruct (speed_sums range) as [ws tw]. simpl fst in *. simpl snd in *.
    rewrite <- Hs2 in Hpos. apply Qlt_bool_iff in Hpos. rewrite Hpos.
    eapply rounded_to_comp;
      [|apply py_round_rounded_to, float_error_nonneg, magnitude_nonneg].
    rewrite Hs1, Hs2. reflexivity.
  - intros Hzero. unfold merged. cbn [mechanical_speed merged_row].
    eexists. split; [reflexivity|].
    unfold weighted_mechanical_speed.
    destruct (speed_sums range) as [ws tw]. simpl fst in *. simpl snd in *.
    destruct (Qlt_bool 0 tw) eqn:E.
    { apply Qlt_bool_iff in E. lra. }
    destruct (mechanical_speed last_row) as [x|].
    + apply py_round_rounded_to, float_error_nonneg, Qabs_nonneg.
    + vm_compute. reflexivity.
Qed.

Lemma C9_weighted_averages_witness :
  exists v,
    mechanical_speed
      (merged_row null_speed_run (example_row 1 950 1000 50 None)
                  (example_row 2 1000 1030 30 None) 1) = Some v
    /\ v == 0.
Proof.
  destruct (C9_weighted_averages null_speed_run (example_row 1 950 1000 50 None)
              (example_row 2 1000 1030 30 None) 1) as (_ & _ & _ & _ & H).
  - repeat constructor; vm_compute; discriminate.
  - apply H. vm_compute. reflexivity.
Defined.

End AverageClaims.

(** * Facts about the depth mapping *)

Section ClassifierFacts.
Import Dictionary Classifier ClassifierSpec.

(** A judgment other than 无法判断 means both mapped depths are defined. *)
Lemma check_depth_range_defined (actual : Q) (top bottom : option Q) :
  check_depth_range actual top bottom <> Indeterminate ->
  exists t b, top = Some t /\ bottom = Some b.
Proof.
  destruct top as [t|], bottom as [b|]; simpl; try congruence. eauto.
Qed.

Lemma adjust_boundaries_rule (start_depth end_depth : Q)
    (start_top start_bottom end_top end_bottom : option Q) :
  forall js je adjusted_start adjusted_end,
    adjust_boundaries start_depth end_depth start_top start_bottom end_top end_bottom
    = (js, je, adjusted_start, adjusted_end) ->
    js = check_depth_range start_depth start_top start_bottom
    /\ je = check_depth_range end_depth end_top end_bottom
    /\ boundary_rule js je start_depth end_depth
                     start_top start_bottom end_top end_bottom
                     adjusted_start adjusted_end.
Proof.
  intros js je adjusted_start adjusted_end H.
  unfold adjust_boundaries in H.
  inversion H as [[Hjs Hje Hs He]]; clear H.
  split; [reflexivity|]. split; [reflexivity|].
  pose proof (check_depth_range_defined start_depth start_top start_bottom) as Ds.
  pose proof (check_depth_range_defined end_depth end_top end_bottom) as De.
  destruct (check_depth_range start_depth start_top start_bottom) eqn:Es;
    destruct (check_depth_range end_depth end_top end_bottom) eqn:Ee;
    try (destruct Ds as (t & b & -> & ->); [discriminate|]);
    try (destruct De as (t' & b' & -> & ->); [discriminate|]);
    unfold boundary_rule; simpl;
    repeat split; intros Hj; try discriminate Hj;
    try (destruct Hj as [Hj|Hj]; discriminate Hj);
    try reflexivity; eauto.
Qed.

Ltac bind_inv H :=
  repeat match type of H with
         | mbind _ ?m = Ok _ =>
             let E := fresh "E" in
             destruct m eqn:E; cbn [mbind result_bind] in H; [|discriminate H]
         end.

Section Row.

Variable py_float : string -> option Q.
Variable stratigraphic_dict : gmap string Info.
Variable formation_depths : list (string * Depths).

Lemma float_of_text (text : string) (q : Q) :
  float_of py_float (JStr text) = Ok q -> py_float text = Some q.
Proof.
  simpl. destruct (py_float text); intros H; inversion H; reflexivity.
Qed.

Lemma cell_Ok (row : CsvRow) (key : string) (value : option string) :
  cell row key = Ok value -> row !! key = Some value.
Proof.
  unfold cell, getitem. destruct (row !! key); intros H; inversion H; reflexivity.
Qed.

Lemma float_of_cell_Ok (value : option string) (q : Q) :
  float_of_cell py_float value = Ok q ->
  exists text, value = Some text /\ py_float text = Some q.
Proof.
  destruct value as [text|]; [|discriminate].
  intros H. exists text. split; [reflexivity|]. apply float_of_text, H.
Qed.

(** What a row that is processed without an exception yields. *)
Lemma process_row_Ok (row : CsvRow) (o : OutRow) :
  process_row py_float stratigraphic_dict formation_depths row = Ok o ->
  exists (start_text end_text : string) (start_depth end_depth : Q),
    row !! "起始井深" = Some (Some start_text) /\ py_float start_text = Some start_depth
    /\ row !! "结束井深" = Some (Some end_text) /\ py_float end_text = Some end_depth
    /\ adjust_boundaries start_depth end_depth
         (out_start_top_mapped_depth o) (out_start_bottom_mapped_depth o)
         (out_end_top_mapped_depth o) (out_end_bottom_mapped_depth o)
       = (start_depth_in_range o, end_depth_in_range o,
          adjusted_start_depth o, adjusted_end_depth o).
Proof.
  intros H. unfold process_row in H.
  bind_inv H.
  match type of H with
  | context [adjust_boundaries ?a ?b ?c ?d ?e ?f] =>
      destruct (adjust_boundaries a b c d e f) as [[[js je] adj_s] adj_e] eqn:Eadj
  end.
  bind_inv H. inversion H; subst o; clear H. simpl.
  repeat match goal with
         | E : float_of_cell _ _ = Ok _ |- _ =>
             apply float_of_cell_Ok in E as (? & -> & ?)
         | E : cell _ _ = Ok _ |- _ => apply cell_Ok in E
         end.
  eexists _, _, _, _. repeat split; eauto.
Qed.


End Row.

Lemma boundary_rule_adjustment_rule (js je : Judgment) (actual_start actual_end : Q)
    (start_top start_bottom end_top end_bottom : option Q)
    (adjusted_start adjusted_end : Q) :
  boundary_rule js je actual_start actual_end start_top start_bottom
                end_top end_bottom adjusted_start adjusted_end ->
  adjustment_rule js je actual_start actual_end start_top start_bottom
                  end_top end_bottom adjusted_start adjusted_end.
Proof.
  assert (Hmid : forall t b, midpoint_cell t b (py_round ((t + b) / 2) 2)).
  { intros t b. apply py_round_rounded_to, float_error_nonneg.
    pose proof (Qabs_nonneg t). pose proof (Qabs_nonneg b). lra. }
  intros (H1 & H2 & H3 & H4 & H5 & H6).
  split; [exact H1|]. split; [|split; [exact H3|split; [exact H4|split; [|exact H6]]]].
  - intros Hj. destruct (H2 Hj) as (t & b & Ht & Hb & Ha).
    exists t, b. split; [exact Ht|]. split; [exact Hb|].
    destruct je; try exact Ha. rewrite Ha. apply Hmid.
  - intros Hj. destruct (H5 Hj) as (t & b & Ht & Hb & Ha).
    exists t, b. split; [exact Ht|]. split; [exact Hb|].
    destruct js; try exact Ha. rewrite Ha. apply Hmid.
Qed.

(** C2. For every row that the depth mapping writes out, and both of its
    boundaries: the adjusted depth is the actual depth when the judgment is
    "in range" or "indeterminate"; the larger mapped depth when "high" and
    the smaller when "low" (both mapped depths are then defined); and when
    start and end are both "high" the adjusted start, when both are "low"
    the adjusted end, is the midpoint of that formation's mapped depths
    rounded to two decimals (the rounding of the double computed for the
    midpoint: a number of two decimals within half a hundredth, and the
    error of the doubles, of the midpoint). *)
Theorem C2_adjusted_depth_rule
    (py_float : string -> option Q) (stratigraphic_dict : gmap string Info)
    (formation_depths : list (string * Depths))
    (row : CsvRow) (o : OutRow) :
  process_row py_float stratigraphic_dict formation_depths row = Ok o ->
  exists (start_text end_text : string) (start_depth end_depth : Q),
    row !! "起始井深" = Some (Some start_text)
    /\ py_float start_text = Some start_depth
    /\ row !! "结束井深" = Some (Some end_text)
    /\ py_float end_text = Some end_depth
    /\ start_depth_in_range o
       = check_depth_range start_depth (out_start_top_mapped_depth o)
                           (out_start_bottom_mapped_depth o)
    /\ end_depth_in_range o
       = check_depth_range end_depth (out_end_top_mapped_depth o)
                           (out_end_bottom_mapped_depth o)
    /\ adjustment_rule (start_depth_in_range o) (end_depth_in_range o)
                       start_depth end_depth
                       (out_start_top_mapped_depth o) (out_start_bottom_mapped_depth o)
                       (out_end_top_mapped_depth o) (out_end_bottom_mapped_depth o)
                       (adjusted_start_depth o) (adjusted_end_depth o).
Proof.
  intros H.
  destruct (process_row_Ok _ _ _ _ _ H)
    as (start_text & end_text & start_depth & end_depth & H1 & H2 & H3 & H4 & Hadj).
  exists start_text, end_text, start_depth, end_depth.
  destruct (adjust_boundaries_rule _ _ _ _ _ _ _ _ _ _ Hadj) as (Hjs & Hje & Hrule).
  repeat (split; [assumption|]). apply boundary_rule_adjustment_rule, Hrule.
Qed.

Lemma C2_adjusted_depth_rule_witness :
  process_row decimal_float example_dict example_depths both_high_row = Ok both_high_out
  /\ exists (start_text end_text : string) (start_depth end_depth : Q),
       both_high_row !! "起始井深" = Some (Some start_text)
       /\ decimal_float start_text = Some start_depth
       /\ both_high_row !! "结束井深" = Some (Some end_text)
       /\ decimal_float end_text = Some end_depth
       /\ start_depth_in_range both_high_out
          = check_depth_range start_depth (out_start_top_mapped_depth both_high_out)
                              (out_start_bottom_mapped_depth both_high_out)
       /\ end_depth_in_range both_high_out
          = check_depth_range end_depth (out_end_top_mapped_depth both_high_out)
                              (out_end_bottom_mapped_depth both_high_out)
       /\ adjustment_rule (start_depth_in_range both_high_out)
                          (end_depth_in_range both_high_out)
                          start_depth end_depth
                          (out_start_top_mapped_depth both_high_out)
                          (out_start_bottom_mapped_depth both_high_out)
                          (out_end_top_mapped_depth both_high_out)
                          (out_end_bottom_mapped_depth both_high_out)
                          (adjusted_start_depth both_high_out)
                          (adjusted_end_depth both_high_out).
Proof.
  split; [vm_compute; reflexivity|].
  apply (C2_adjusted_depth_rule decimal_float example_dict example_depths
           both_high_row both_high_out).
  vm_compute; reflexivity.
Defined.

Section Stage.

Variable py_float : string -> option Q.
Variable stratigraphic_dict : gmap string Info.
Variable formation_depths : list (string * Depths).

Lemma process_rows_Ok (rows : list CsvRow) :
  forall out : list OutRow,
    process_rows py_float stratigraphic_dict formation_depths rows = Ok out
    <-> Forall2 (fun row o =>
                   process_row py_float stratigraphic_dict formation_depths row = Ok o)
                rows out.
Proof.
  induction rows as [|row rows IH]; intros out; simpl.
  - split.
    + intros H. inversion H. constructor.
    + intros H. inversion H. reflexivity.
  - split.
    + intros H.
      destruct (process_row _ _ _ row) as [o|] eqn:Erow;
        cbn [mbind result_bind] in H; [|discriminate H].
      destruct (process_rows _ _ _ rows) as [out'|] eqn:Erows;
        cbn [mbind result_bind] in H; [|discriminate H].
      inversion H; subst out.
      constructor; [exact Erow|]. apply IH. reflexivity.
    + intros H. inversion H as [|? o ? out' Hrow Hrest]; subst.
      rewrite Hrow. cbn [mbind result_bind].
      apply IH in Hrest. rewrite Hrest. reflexivity.
Qed.



End Stage.

End ClassifierFacts.

(** * Facts about the confidence scores *)

Section ConfidenceFacts.
Import Confidence ConfidenceSpec.

Lemma category_row_Some (row : WellRow) (cat : CategoryInfo) (r : ConfidenceRow) :
  category_row row cat = Some r
  <-> overlap_start row cat <= overlap_end row cat
      /\ r = mkConfidenceRow (idx row) (category cat)
               (py_round (if Qeq_bool (total_length row) 0 then 1
                          else (overlap_end row cat - overlap_start row cat)
                               / total_length row) 6).
Proof.
  unfold category_row.
  destruct (Qle_bool (overlap_start row cat) (overlap_end row cat)) eqn:E.
  - apply Qle_bool_iff in E.
    assert (Habs : Qabs (overlap_end row cat - overlap_start row cat)
                   == overlap_end row cat - overlap_start row cat)
      by (apply Qabs_pos; lra).
    assert (Hc : py_round (if Qeq_bool (total_length row) 0 then 1
                           else Qabs (overlap_end row cat - overlap_start row cat)
                                / total_length row) 6
                 = py_round (if Qeq_bool (total_length row) 0 then 1
                             else (overlap_end row cat - overlap_start row cat)
                                  / total_length row) 6).
    { apply py_round_comp. destruct (Qeq_bool _ 0); [reflexivity|].
      rewrite Habs. reflexivity. }
    rewrite Hc. split.
    + intros H. inversion H. split; [exact E|reflexivity].
    + intros [_ ->]. reflexivity.
  - split; [discriminate|].
    intros [H _]. apply Qle_bool_iff in H. congruence.
Qed.

(** The overlap is never longer than the run. *)
Lemma overlap_within_run (row : WellRow) (cat : CategoryInfo) :
  overlap_end row cat - overlap_start row cat <= total_length row.
Proof.
  unfold overlap_end, overlap_start, total_length.
  set (s := adjusted_start_depth row). set (e := adjusted_end_depth row).
  pose proof (Q.le_max_l (Qmin s e) (cat_start_depth cat)) as H1.
  pose proof (Q.le_min_l (Qmax s e) (cat_end_depth cat)) as H2.
  assert (Hlen : Qmax s e - Qmin s e == Qabs (e - s)).
  { destruct (Q.max_spec s e) as [[Hlt ->]|[Hle ->]].
    - rewrite Q.min_l by lra. rewrite Qabs_pos by lra. reflexivity.
    - rewrite Q.min_r by lra. rewrite Qabs_neg by lra. ring. }
  lra.
Qed.

Lemma confidence_bounds (row : WellRow) (cat : CategoryInfo) (r : ConfidenceRow) :
  category_row row cat = Some r -> 0 <= confidence r <= 1.
Proof.
  intros H. apply category_row_Some in H as [Hle ->]. simpl.
  change 0 with (inject_Z 0). change 1 with (inject_Z 1).
  apply py_round_between.
  change (inject_Z 0) with 0. change (inject_Z 1) with 1.
  destruct (Qeq_bool (total_length row) 0) eqn:E; [lra|].
  apply Qeq_bool_neq in E.
  pose proof (Qabs_nonneg (adjusted_end_depth row - adjusted_start_depth row)) as Hnn.
  fold (total_length row) in Hnn.
  assert (0 < total_length row) as Hpos.
  { destruct (Qlt_le_dec 0 (total_length row)) as [?|Hle0]; [assumption|].
    exfalso. apply E. lra. }
  pose proof (overlap_within_run row cat) as Hw.
  split.
  - apply Qle_shift_div_l; [exact Hpos|]. lra.
  - apply Qle_shift_div_r; [exact Hpos|]. lra.
Qed.

(** C3, as stated, fails: a run and a category that only touch have an
    overlap of length zero, and still a row is emitted for them, with the
    confidence 0, which is not in (0,1]. *)
Lemma C3_touching_counterexample :
  calculate_confidence [touching_category] [touching_run]
  = [mkConfidenceRow (Merging.LInt 1) "P2" 0]
  /\ overlap_end touching_run touching_category
     - overlap_start touching_run touching_category == 0
  /\ ~ 0 < confidence (mkConfidenceRow (Merging.LInt 1) "P2" 0).
Proof.
  split; [vm_compute; reflexivity|]. split; [vm_compute; reflexivity|].
  apply Qle_not_lt. vm_compute. discriminate.
Qed.

Lemma category_row_cell (row : WellRow) (cat : CategoryInfo) (r : ConfidenceRow) :
  category_row row cat = Some r ->
  conf_idx r = idx row /\ conf_category r = category cat
  /\ confidence_cell row cat (confidence r).
Proof.
  intros H. apply category_row_Some in H as [Hle ->].
  split; [reflexivity|]. split; [reflexivity|].
  cbn [confidence]. split.
  - intros Hzero. apply Qeq_bool_iff in Hzero. rewrite Hzero.
    vm_compute. reflexivity.
  - intros Hpos.
    destruct (Qeq_bool (total_length row) 0) eqn:E.
    { apply Qeq_bool_iff in E. lra. }
    apply py_round_rounded_to, float_error_nonneg.
    apply Qle_shift_div_l; [exact Hpos|].
    pose proof (Qabs_nonneg (adjusted_start_depth row)).
    pose proof (Qabs_nonneg (adjusted_end_depth row)).
    pose proof (Qabs_nonneg (cat_start_depth cat)).
    pose proof (Qabs_nonneg (cat_end_depth cat)).
    lra.
Qed.

(** C3, amended. A row is emitted for a run and a category whenever the two
    intervals meet, that is when the larger of the lower ends is at most
    the smaller of the upper ends (a single common depth is enough, so the
    overlap can have length zero), and every emitted row is the row of such
    a pair; its confidence is 1 when the run length is zero, and the
    overlap length over the run length rounded to 6 decimals when the run
    length is positive; every emitted confidence lies in [0,1]. *)
Theorem C3_confidence_rows (categories : list CategoryInfo) (well_data_df : list WellRow) :
  (forall r : ConfidenceRow,
      r ∈ calculate_confidence categories well_data_df ->
      exists row cat,
        row ∈ well_data_df /\ cat ∈ categories
        /\ overlap_start row cat <= overlap_end row cat
        /\ conf_idx r = idx row /\ conf_category r = category cat
        /\ confidence_cell row cat (confidence r))
  /\ (forall row cat,
        row ∈ well_data_df -> cat ∈ categories ->
        overlap_start row cat <= overlap_end row cat ->
        exists r, r ∈ calculate_confidence categories well_data_df
                  /\ conf_idx r = idx row /\ conf_category r = category cat
                  /\ confidence_cell row cat (confidence r))
  /\ (forall r : ConfidenceRow,
        r ∈ calculate_confidence categories well_data_df -> 0 <= confidence r <= 1)
  /\ (forall row cat,
        row ∈ well_data_df -> cat ∈ categories ->
        overlap_start row cat <= overlap_end row cat ->
        total_length row == 0 ->
        mkConfidenceRow (idx row) (category cat) 1
        ∈ calculate_confidence categories well_data_df).
Proof.
  assert (Hmem : forall r : ConfidenceRow,
             r ∈ calculate_confidence categories well_data_df
             <-> exists row cat,
                   row ∈ well_data_df /\ cat ∈ categories
                   /\ category_row row cat = Some r).
  { intros r. unfold calculate_confidence.
    rewrite list_elem_of_In, in_flat_map. split.
    - intros (row & Hrow & Hr). apply list_elem_of_In in Hr.
      apply list_elem_of_omap in Hr as (cat & Hcat & Hr).
      exists row, cat. rewrite list_elem_of_In. auto.
    - intros (row & cat & Hrow & Hcat & Hr).
      exists row. rewrite <- !list_elem_of_In. split; [exact Hrow|].
      apply list_elem_of_omap. eauto. }
  split; [|split; [|split]].
  - intros r Hr. apply Hmem in Hr as (row & cat & Hrow & Hcat & Hr).
    exists row, cat. split; [exact Hrow|]. split; [exact Hcat|].
    split; [apply category_row_Some in Hr; tauto|].
    apply category_row_cell, Hr.
  - intros row cat Hrow Hcat Hle.
    destruct (category_row row cat) as [r|] eqn:Er.
    + exists r. split; [apply Hmem; eauto|]. apply category_row_cell, Er.
    + exfalso. unfold category_row in Er.
      apply Qle_bool_iff in Hle. rewrite Hle in Er. discriminate Er.
  - intros r Hr. apply Hmem in Hr as (row & cat & _ & _ & Hr).
    eapply confidence_bounds; eauto.
  - intros row cat Hrow Hcat Hle Hzero. apply Hmem. exists row, cat.
    split; [exact Hrow|]. split; [exact Hcat|].
    apply category_row_Some. split; [exact Hle|].
    apply Qeq_bool_iff in Hzero. rewrite Hzero. reflexivity.
Qed.

Lemma C3_confidence_rows_witness :
  0 <= confidence (mkConfidenceRow (Merging.LInt 1) "P1" (1 # 2)) <= 1.
Proof.
  apply (proj1 (proj2 (proj2 (C3_confidence_rows [scenario_D_category]
                                                 [scenario_D_run])))).
  vm_compute. left.
Defined.

End ConfidenceFacts.

(** * Facts about the dictionary validation *)

Section ValidatorFacts.
Import Dictionary Validator ValidatorSpec.

Section Checks.

Variable py_float : string -> option Q.

Lemma check_parent_not_completeness (json_data : gmap string Info)
    (stratigraphic_formations : gset string) (formation : string) :
  List.filter is_completeness
    (check_parent json_data stratigraphic_formations formation) = [].
Proof.
  unfold check_parent. destruct (json_data !! formation) as [details|]; [|reflexivity].
  destruct (parent_formation details); [|reflexivity].
  destruct (bool_decide _); reflexivity.
Qed.

Lemma check_field_not_completeness (formation field : string) (value : option JVal) :
  List.filter is_completeness (check_field py_float formation field value) = [].
Proof.
  unfold check_field. destruct value as [v|]; [|reflexivity].
  destruct (float_of py_float v) as [q|e].
  - destruct (_ && _); reflexivity.
  - destruct v; reflexivity.
Qed.

Lemma check_range_not_completeness (json_data : gmap string Info) (formation : string) :
  List.filter is_completeness (check_range py_float json_data formation) = [].
Proof.
  unfold check_range. destruct (json_data !! formation); [|reflexivity].
  rewrite List.filter_app, !check_field_not_completeness. reflexivity.
Qed.

Lemma filter_flat_map_nil {A B} (p : B -> bool) (f : A -> list B) (l : list A) :
  (forall x, List.filter p (f x) = []) -> List.filter p (flat_map f l) = [].
Proof.
  intros H. induction l as [|x l IH]; simpl; [reflexivity|].
  rewrite List.filter_app, H, IH. reflexivity.
Qed.

(** With the three inputs non-empty, the completeness errors are: nothing
    when no name is missing, and otherwise a single entry, which lists every
    missing name. *)
Lemma completeness_errors (json_data : gmap string Info)
    (datatest_formations : list string) (stratigraphic_formations : gset string) :
  json_data <> ∅ -> datatest_formations <> [] -> stratigraphic_formations <> ∅ ->
  List.filter is_completeness
    (validate_dictionary py_float json_data datatest_formations stratigraphic_formations)
  = match missing_in_dict json_data datatest_formations with
    | [] => []
    | missing => [MissingInDictionary missing]
    end.
Proof.
  intros H1 H2 H3. unfold validate_dictionary.
  rewrite !bool_decide_eq_false_2 by assumption.
  rewrite !List.filter_app.
  rewrite (filter_flat_map_nil _ _ _ (check_parent_not_completeness _ _)).
  rewrite (filter_flat_map_nil _ _ _ (check_range_not_completeness _)).
  rewrite !app_nil_r.
  destruct (missing_in_dict json_data datatest_formations); reflexivity.
Qed.

End Checks.

(** C6, as stated, fails: with two referenced names missing from the
    dictionary there is one completeness error, which lists both names, not
    one error for each. *)
Lemma C6_two_missing_counterexample :
  missing_in_dict dict_A ["A段"; "X段"; "Y段"] = ["X段"; "Y段"]
  /\ List.filter is_completeness
       (validate_dictionary ClassifierSpec.decimal_float dict_A
                            ["A段"; "X段"; "Y段"] categories_P1)
     = [MissingInDictionary ["X段"; "Y段"]]
  /\ length (List.filter is_completeness
               (validate_dictionary ClassifierSpec.decimal_float dict_A
                                    ["A段"; "X段"; "Y段"] categories_P1))
     <> length (missing_in_dict dict_A ["A段"; "X段"; "Y段"]).
Proof.
  repeat split; try (vm_compute; reflexivity).
  vm_compute. discriminate.
Qed.

Lemma missing_in_dict_elem (json_data : gmap string Info)
    (datatest_formations : list string) (name : string) :
  name ∈ missing_in_dict json_data datatest_formations
  <-> name ∈ datatest_formations /\ json_data !! name = None.
Proof.
  unfold missing_in_dict.
  rewrite !list_elem_of_In, filter_In, bool_decide_eq_true. reflexivity.
Qed.

Lemma missing_in_dict_NoDup (json_data : gmap string Info)
    (datatest_formations : list string) :
  NoDup datatest_formations -> NoDup (missing_in_dict json_data datatest_formations).
Proof.
  unfold missing_in_dict. induction 1 as [|x l Hx Hl IH]; cbn [List.filter].
  - constructor.
  - destruct (bool_decide (json_data !! x = None)); [|exact IH].
    constructor; [|exact IH].
    rewrite list_elem_of_In, filter_In, <- list_elem_of_In. tauto.
Qed.

Lemma NoDup_only (l : list string) (x : string) :
  NoDup l -> (forall y, y ∈ l <-> y = x) -> l = [x].
Proof.
  intros Hnd Hl. destruct l as [|a l].
  - exfalso. eapply not_elem_of_nil. apply Hl. reflexivity.
  - assert (a = x) as -> by (apply Hl; left).
    destruct l as [|b l]; [reflexivity|].
    exfalso. apply NoDup_cons in Hnd as [Hnotin _].
    apply Hnotin. assert (b = x) as -> by (apply Hl; right; left). left.
Qed.

(** C6, amended. With a dictionary, a set of referenced names and a set of
    categories that are all three not empty (with one of them empty the
    validator reports that and checks nothing else): when some referenced
    name is no key of the dictionary, the validator reports exactly one
    completeness error, and that one lists the missing names, all of them
    and each once; when no referenced name is missing it reports no
    completeness error; in particular, when X is the only missing name
    there is exactly one completeness error, it names X alone, and the
    validation fails. *)
Theorem C6_completeness_error
    (py_float : string -> option Q) (json_data : gmap string Info)
    (datatest_formations : list string) (stratigraphic_formations : gset string) :
  json_data <> ∅ -> datatest_formations <> [] -> stratigraphic_formations <> ∅ ->
  NoDup datatest_formations ->
  let errors := validate_dictionary py_float json_data datatest_formations
                                    stratigraphic_formations in
  ((exists name, name ∈ datatest_formations /\ json_data !! name = None) ->
   errors <> []
   /\ exists names,
        List.filter is_completeness errors = [MissingInDictionary names]
        /\ NoDup names
        /\ forall name,
             name ∈ names <-> name ∈ datatest_formations /\ json_data !! name = None)
  /\ ((forall name, name ∈ datatest_formations -> json_data !! name <> None) ->
      List.filter is_completeness errors = [])
  /\ (forall x,
        (forall name,
            name ∈ datatest_formations /\ json_data !! name = None <-> name = x) ->
        List.filter is_completeness errors = [MissingInDictionary [x]]
        /\ errors <> []).
Proof.
  intros H1 H2 H3 Hnd errors.
  pose proof (completeness_errors py_float _ _ _ H1 H2 H3) as Hc.
  fold errors in Hc.
  assert (Hfail : missing_in_dict json_data datatest_formations <> [] -> errors <> []).
  { intros Hne Hnil. rewrite Hnil in Hc.
    destruct (missing_in_dict json_data datatest_formations);
      [congruence|discriminate Hc]. }
  split; [|split].
  - intros (name & Hin & Hnone).
    assert (Hne : missing_in_dict json_data datatest_formations <> []).
    { intros Hnil.
      assert (name ∈ missing_in_dict json_data datatest_formations) as Hm
        by (apply missing_in_dict_elem; auto).
      rewrite Hnil in Hm. eapply not_elem_of_nil, Hm. }
    split; [apply Hfail, Hne|].
    exists (missing_in_dict json_data datatest_formations).
    split; [|split].
    + rewrite Hc.
      destruct (missing_in_dict json_data datatest_formations); congruence.
    + apply missing_in_dict_NoDup, Hnd.
    + apply missing_in_dict_elem.
  - intros Hall. rewrite Hc.
    destruct (missing_in_dict json_data datatest_formations) as [|name l] eqn:E;
      [reflexivity|].
    exfalso.
    assert (name ∈ missing_in_dict json_data datatest_formations) as Hm
      by (rewrite E; left).
    apply missing_in_dict_elem in Hm as [Hin Hnone].
    exact (Hall name Hin Hnone).
  - intros x Hx.
    assert (Hm : missing_in_dict json_data datatest_formations = [x]).
    { apply NoDup_only; [apply missing_in_dict_NoDup, Hnd|].
      intros y. rewrite missing_in_dict_elem. apply Hx. }
    rewrite Hm in Hc. split; [exact Hc|].
    apply Hfail. rewrite Hm. discriminate.
Qed.

Lemma C6_completeness_error_witness :
  List.filter is_completeness
    (validate_dictionary ClassifierSpec.decimal_float dict_A ["A段"; "X段"] categories_P1)
  = [MissingInDictionary ["X段"]]
  /\ validate_dictionary ClassifierSpec.decimal_float dict_A ["A段"; "X段"] categories_P1
     <> [].
Proof.
  assert (dict_A <> ∅) as H1 by (apply insert_non_empty).
  assert (["A段"; "X段"] <> ([] : list string)) as H2 by discriminate.
  assert (categories_P1 <> ∅) as H3.
  { intros H. assert ("P1" ∈ categories_P1) as Hin by (apply elem_of_singleton; reflexivity).
    rewrite H in Hin. apply elem_of_empty in Hin. exact Hin. }
  assert (NoDup ["A段"; "X段"]) as H4.
  { apply NoDup_cons. split; [|apply NoDup_singleton].
    intros H. apply list_elem_of_singleton in H. discriminate H. }
  apply (proj2 (proj2 (C6_completeness_error ClassifierSpec.decimal_float dict_A
                         ["A段"; "X段"] categories_P1 H1 H2 H3 H4)) "X段").
  intros name. split.
  - intros [Hin Hnone].
    apply elem_of_cons in Hin as [->|Hin]; [discriminate Hnone|].
    apply list_elem_of_singleton in Hin. exact Hin.
  - intros ->. split; [right; left|reflexivity].
Defined.

End ValidatorFacts.

(** * Further facts about rounding *)

Section RoundingOrder.

Lemma round_half_even_mono (q q' : Q) :
  q <= q' -> (round_half_even q <= round_half_even q')%Z.
Proof.
  intros Hle.
  pose proof (Qfloor_resp_le _ _ Hle) as Hf.
  assert (Hlow : forall x, (Qfloor x <= round_half_even x <= Qfloor x + 1)%Z).
  { intros x. unfold round_half_even.
    destruct (Qcompare _ _); [destruct (Z.even _)| |]; lia. }
  destruct (Z.eq_dec (Qfloor q) (Qfloor q')) as [E|Hne].
  - unfold round_half_even. rewrite <- E.
    destruct (Qcompare_spec (q - inject_Z (Qfloor q)) (1 # 2)) as [A|A|A];
      destruct (Qcompare_spec (q' - inject_Z (Qfloor q)) (1 # 2)) as [B|B|B];
      try lia; try (exfalso; lra);
      destruct (Z.even (Qfloor q)); lia.
  - pose proof (Hlow q). pose proof (Hlow q'). lia.
Qed.

(** Rounding keeps the order. *)
Lemma py_round_mono (q q' : Q) (n : nat) : q <= q' -> py_round q n <= py_round q' n.
Proof.
  intros Hle. rewrite !py_round_value.
  set (s := inject_Z (Zpos (pow10 n))).
  assert (0 < s) as Hs by (unfold s, inject_Z, Qlt; simpl; lia).
  assert (q * s <= q' * s) as Hm by nra.
  apply round_half_even_mono in Hm. rewrite Zle_Qle in Hm.
  unfold Qdiv. apply Qmult_le_compat_r; [exact Hm|].
  apply Qlt_le_weak, Qinv_lt_0_compat. exact Hs.
Qed.

End RoundingOrder.

(** * Further properties of the run consolidation *)

Section ScanRules.
Import Merging MergingSpec MergingMore.

(** The three things a step of the scan can do. *)
Lemma scan_step_cases (df : list Row) (i i' : nat) (st st' : ScanState) :
  scan_step df i st = Some (i', st') ->
  (i' = (i + 2)%nat
   /\ (S i < length df)%nat
   /\ st' = mkScan (new_rows_to_add st)
                   (rows_to_modify st
                      ++ [ModPlain i (py_round 1 6); ModPlain (i + 1) (py_round 1 6)])
                   (warnings st))
  \/ ((i < i' <= length df)%nat
      /\ new_rows_to_add st' = new_rows_to_add st
      /\ rows_to_modify st' = rows_to_modify st)
  \/ (exists (s e : nat) (first last_row : Row),
        s = find_sequence_start df i i
        /\ e = find_sequence_end (length df) df (i + 1) i
        /\ (s < e)%nat /\ (s <= i <= e)%nat /\ (e < length df)%nat
        /\ df !! s = Some first /\ df !! e = Some last_row
        /\ checks_pass (range_rows df s e) first = true
        /\ i' = (e + 1)%nat
        /\ new_rows_to_add st'
           = new_rows_to_add st
               ++ [(e, merged_row (range_rows df s e) first last_row
                                  (length (new_rows_to_add st) + 1))]
        /\ rows_to_modify st'
           = rows_to_modify st
               ++ range_mods (range_rows df s e) s
                             (py_sum (footage <$> range_rows df s e))).
Proof.
  intros Hstep. unfold scan_step in Hstep.
  destruct (df !! i) as [cur|] eqn:Hcur; [|discriminate]. simpl in Hstep.
  pose proof (lookup_lt_Some _ _ _ Hcur) as Hi.
  destruct ((entry_count cur =? 1)%Z && next_entry_is_one df i) eqn:Hcase1.
  { left. apply andb_true_iff in Hcase1 as [_ Hnext]. rewrite Hnext in Hstep.
    unfold next_entry_is_one in Hnext.
    destruct (df !! S i) eqn:E; [|discriminate]. apply lookup_lt_Some in E.
    injection Hstep as <- <-. auto. }
  destruct (1 <=? entry_count cur)%Z;
    [|right; left; injection Hstep as <- <-; repeat split; lia].
  pose proof (find_sequence_end_bounds (length df) df (i + 1) i) as He.
  pose proof (find_sequence_start_le df i i) as Hs.
  set (e := find_sequence_end (length df) df (i + 1) i) in *.
  set (s := find_sequence_start df i i) in *.
  destruct (s <? e)%nat eqn:Hse;
    [|right; left; injection Hstep as <- <-; repeat split; lia].
  apply Nat.ltb_lt in Hse.
  destruct (df !! s) as [first|] eqn:Hfirst; [|discriminate].
  destruct (df !! (s + 1)%nat) as [second|] eqn:Hsecond; [|discriminate].
  destruct (df !! e) as [last_row|] eqn:Hlast; [|discriminate].
  simpl in Hstep.
  destruct (checks_pass (range_rows df s e) first) eqn:Hchecks.
  - right; right. injection Hstep as <- <-.
    exists s, e, first, last_row. simpl.
    repeat (split; [first [reflexivity|assumption|lia]|]). reflexivity.
  - right; left. injection Hstep as <- <-. simpl. repeat split; lia.
Qed.

(** A property kept by every step holds when the scan ends. *)
Lemma scan_rule (df : list Row) (I : nat -> ScanState -> Prop) :
  (forall i st i' st',
      I i st -> (i < length df)%nat -> scan_step df i st = Some (i', st') ->
      I i' st') ->
  forall (fuel i : nat) (st st' : ScanState),
    I i st -> scan fuel df i st = Some st' ->
    exists i', I i' st'.
Proof.
  intros Hstep.
  induction fuel as [|fuel IH]; intros i st st' Hinv Hscan; simpl in Hscan.
  - destruct (length df <=? i)%nat; [|discriminate]. inversion Hscan; subst. eauto.
  - destruct (length df <=? i)%nat eqn:E; [inversion Hscan; subst; eauto|].
    apply Nat.leb_gt in E.
    destruct (scan_step df i st) as [[i1 st1]|] eqn:Hs; [|discriminate].
    simpl in Hscan. eapply IH; [|exact Hscan]. eapply Hstep; eauto.
Qed.

(** Between the ends that the two searches find, every row continues the
    count of the row before it. *)
Lemma find_sequence_end_consecutive (df : list Row) :
  forall (fuel j e : nat),
    j = S e ->
    forall k, (e <= k < find_sequence_end fuel df j e)%nat ->
      exists r r', df !! k = Some r /\ df !! S k = Some r'
                   /\ entry_count r' = (entry_count r + 1)%Z.
Proof.
  induction fuel as [|fuel IH]; intros j e -> k Hk; simpl in Hk; [lia|].
  replace (e - 0)%nat with e in Hk by lia.
  destruct (df !! S e) as [rj|] eqn:Ej; [|lia].
  destruct (df !! e) as [rp|] eqn:Ep; [|lia].
  destruct (entry_count rj =? entry_count rp + 1)%Z eqn:Et; [|lia].
  destruct (Nat.eq_dec k e) as [->|Hne].
  - exists rp, rj. apply Z.eqb_eq in Et. auto.
  - apply (IH (S (S e)) (S e)); [reflexivity|lia].
Qed.

Lemma find_sequence_start_consecutive (df : list Row) :
  forall (k1 : nat) (k : nat),
    (find_sequence_start df k1 k1 <= k < k1)%nat ->
    exists r r', df !! k = Some r /\ df !! S k = Some r'
                 /\ entry_count r' = (entry_count r + 1)%Z.
Proof.
  induction k1 as [|k0 IH]; intros k Hk; simpl in Hk; [lia|].
  destruct (df !! k0) as [rk|] eqn:Ek; [|lia].
  destruct (df !! S k0) as [rn|] eqn:En; [|lia].
  destruct (entry_count rk =? entry_count rn - 1)%Z eqn:Et; [|lia].
  destruct (Nat.eq_dec k k0) as [->|Hne].
  - exists rk, rn. apply Z.eqb_eq in Et. repeat split; auto. lia.
  - apply IH. lia.
Qed.

Lemma depth_continuous_lookup (range : list Row) :
  depth_continuous range = true ->
  forall t r r', range !! t = Some r -> range !! S t = Some r' ->
                 end_depth r == start_depth r'.
Proof.
  induction range as [|r0 range IH]; intros H t r r' Hr Hr'; [discriminate|].
  destruct range as [|r1 range]; [destruct t; discriminate|].
  simpl in H. apply andb_true_iff in H as [H0 H].
  destruct t as [|t].
  - inversion Hr; inversion Hr'; subst. apply Qeq_bool_iff. exact H0.
  - apply (IH H t); assumption.
Qed.

Lemma cell_eq_true (a b : string) :
  cell_eq a b = true <-> a = b /\ isna b = false.
Proof.
  unfold cell_eq. rewrite !andb_true_iff, !negb_true_iff, bool_decide_eq_true.
  split.
  - intros [[_ Hb] E]. auto.
  - intros [-> Hb]. auto.
Qed.

Lemma consistent_drill_info_lookup (range : list Row) (ty ma : string) :
  consistent_drill_info range ty ma = true ->
  forall t r, range !! t = Some r ->
    (drill_type r = ty /\ isna ty = false)
    /\ (manufacturer r = ma /\ isna ma = false).
Proof.
  unfold consistent_drill_info. intros H t r Hr.
  rewrite forallb_forall in H.
  specialize (H r). rewrite <- list_elem_of_In in H.
  specialize (H (list_elem_of_lookup_2 _ _ _ Hr)).
  rewrite negb_true_iff, orb_false_iff, !negb_false_iff in H.
  rewrite !cell_eq_true in H. exact H.
Qed.

End ScanRules.

Section MergedRuns.
Import Merging MergingSpec MergingMore.

Lemma prepare_lookup_inv (has_xuhao : bool) (df : list Row) (k : nat) (p : Row) :
  prepare has_xuhao df !! k = Some p ->
  exists r lbl, df !! k = Some r
                /\ p = set_hit_rate 1 (if has_xuhao then r else set_xuhao lbl r).
Proof.
  intros Hp.
  assert (k < length df)%nat as Hk.
  { apply lookup_lt_Some in Hp. now rewrite length_prepare in Hp. }
  destruct (lookup_lt_is_Some_2 df k Hk) as [r Hr].
  destruct (prepare_lookup has_xuhao df k r Hr) as [lbl E].
  rewrite E in Hp. inversion Hp. eauto.
Qed.

Lemma joined_at_prepare (has_xuhao : bool) (df : list Row) (k : nat) :
  joined_at (prepare has_xuhao df) k -> joined_at df k.
Proof.
  intros (p & p' & Hp & Hp' & Hc & Ht & Hm & Hd).
  apply prepare_lookup_inv in Hp as (r & lbl & Hr & ->).
  apply prepare_lookup_inv in Hp' as (r' & lbl' & Hr' & ->).
  exists r, r'. destruct has_xuhao; simpl in *; auto 10.
Qed.

(** The rows of a range that passed the checks are joined pairwise. *)
Lemma checked_range_joined (df : list Row) (i : nat) (first : Row) :
  let s := find_sequence_start df i i in
  let e := find_sequence_end (length df) df (i + 1) i in
  (s <= i <= e)%nat -> (e < length df)%nat ->
  df !! s = Some first ->
  checks_pass (range_rows df s e) first = true ->
  forall k, (s <= k < e)%nat -> joined_at df k.
Proof.
  intros s e Hsie He Hfirst Hchecks k Hk.
  apply andb_true_iff in Hchecks as [Hcons Hcont].
  assert (Hcount : exists r r', df !! k = Some r /\ df !! S k = Some r'
                                /\ entry_count r' = (entry_count r + 1)%Z).
  { destruct (Nat.lt_ge_cases k i) as [Hlt|Hge].
    - apply (find_sequence_start_consecutive df i). fold s. lia.
    - apply (find_sequence_end_consecutive df (length df) (i + 1) i); [lia|].
      fold e. lia. }
  destruct Hcount as (r & r' & Hr & Hr' & Hc).
  assert (Hrange : forall t, (s + t <= e)%nat ->
                     range_rows df s e !! t = df !! (s + t)%nat).
  { intros t Ht. rewrite range_rows_lookup. rewrite decide_True by lia. reflexivity. }
  assert (Hr0 : range_rows df s e !! (k - s)%nat = Some r).
  { rewrite Hrange by lia. rewrite <- Hr. f_equal. lia. }
  assert (Hr1 : range_rows df s e !! S (k - s)%nat = Some r').
  { rewrite Hrange by lia. rewrite <- Hr'. f_equal. lia. }
  destruct (consistent_drill_info_lookup _ _ _ Hcons _ _ Hr0) as [[Ht0 _] [Hm0 _]].
  destruct (consistent_drill_info_lookup _ _ _ Hcons _ _ Hr1) as [[Ht1 _] [Hm1 _]].
  exists r, r'. rewrite Ht0, Ht1, Hm0, Hm1.
  repeat split; auto.
  apply (depth_continuous_lookup _ Hcont (k - s)%nat); assumption.
Qed.

(** X1. Rows are merged only when they belong together.  Every synthesized
    row was built from a range of at least two rows of the frame, from
    [sequence_start] to its anchor, and in that range each row continues
    the entry count of the row before it by one, has the same bit type and
    the same manufacturer, and starts at the depth where the row before it
    ends.  (For entry counts that the frame holds as they are in the
    file.) *)
Theorem merged_runs_are_joined
    (has_xuhao : bool) (df : list Row) (st : ScanState)
    (anchor : nat) (new_row : Row) :
  ordinary_counts df ->
  scan (length (prepare has_xuhao df)) (prepare has_xuhao df) 0 init_state = Some st ->
  (anchor, new_row) ∈ new_rows_to_add st ->
  exists (sequence_start : nat) (first last_row : Row) (n : nat),
    (sequence_start < anchor < length df)%nat
    /\ prepare has_xuhao df !! sequence_start = Some first
    /\ prepare has_xuhao df !! anchor = Some last_row
    /\ new_row = merged_row (range_rows (prepare has_xuhao df) sequence_start anchor)
                            first last_row n
    /\ forall k, (sequence_start <= k < anchor)%nat -> joined_at df k.
Proof.
  intros _ Hscan Hin.
  set (p := prepare has_xuhao df) in *.
  pose (I := fun (_ : nat) (st : ScanState) =>
               Forall (fun entry : nat * Row =>
                         exists s first last_row n,
                           (s < entry.1 < length p)%nat
                           /\ p !! s = Some first /\ p !! entry.1 = Some last_row
                           /\ entry.2 = merged_row (range_rows p s entry.1)
                                                   first last_row n
                           /\ forall k, (s <= k < entry.1)%nat -> joined_at p k)
                      (new_rows_to_add st)).
  destruct (scan_rule p I) with (fuel := length p) (i := 0%nat)
                                (st := init_state) (st' := st) as [i' HI].
  - intros i st0 i1 st1 HI0 Hi Hstep. unfold I in *.
    destruct (scan_step_cases _ _ _ _ _ Hstep)
      as [(_ & _ & ->)|[(_ & -> & _)|(s & e & first & last_row & Hs & He & Hse & Hsie
                                      & Hlen & Hfirst & Hlast & Hchecks & _ & -> & _)]];
      try exact HI0.
    apply Forall_app. split; [exact HI0|]. repeat constructor.
    exists s, first, last_row, (length (new_rows_to_add st0) + 1)%nat.
    cbn [fst snd]. split; [lia|]. split; [exact Hfirst|]. split; [exact Hlast|].
    split; [reflexivity|]. subst s e.
    apply (checked_range_joined p i first); assumption.
  - constructor.
  - exact Hscan.
  - unfold I in HI. rewrite Forall_forall in HI.
    destruct (HI _ Hin) as (s & first & last_row & n & Hs & Hf & Hl & Hrow & Hjoined).
    cbn [fst snd] in *.
    exists s, first, last_row, n. unfold p in Hs. rewrite length_prepare in Hs.
    split; [exact Hs|]. split; [exact Hf|]. split; [exact Hl|]. split; [exact Hrow|].
    intros k Hk. apply (joined_at_prepare has_xuhao). apply Hjoined. exact Hk.
Qed.

Lemma merged_runs_are_joined_witness :
  exists (new_row : Row) (sequence_start : nat) (first last_row : Row) (n : nat),
    (sequence_start < 1 < length scenario_A_rows)%nat
    /\ prepare true scenario_A_rows !! sequence_start = Some first
    /\ prepare true scenario_A_rows !! 1%nat = Some last_row
    /\ new_row = merged_row (range_rows (prepare true scenario_A_rows) sequence_start 1)
                            first last_row n
    /\ forall k, (sequence_start <= k < 1)%nat -> joined_at scenario_A_rows k.
Proof.
  eexists.
  eapply (merged_runs_are_joined true scenario_A_rows _ 1 _).
  - repeat constructor.
  - vm_compute. reflexivity.
  - simpl. left.
Defined.

End MergedRuns.

Section SynthesizedRows.
Import Merging MergingSpec MergingMore.

Lemma new_index_inj (n m : nat) : new_index n = new_index m -> n = m.
Proof.
  unfold new_index. intros H. apply String.app_inj in H.
  assert (NilEmpty.uint_of_string (NilEmpty.string_of_uint (Nat.to_uint n))
          = NilEmpty.uint_of_string (NilEmpty.string_of_uint (Nat.to_uint m))) as E
    by (rewrite H; reflexivity).
  rewrite !NilEmpty.usu in E. injection E as E.
  rewrite <- (DecimalNat.Unsigned.of_to n), <- (DecimalNat.Unsigned.of_to m).
  now rewrite E.
Qed.

(** X2. The synthesized rows are labelled a1, a2, ... in the order in which
    their runs are found, so no two of them share a label. *)
Theorem synthesized_labels
    (has_xuhao : bool) (df : list Row) (st : ScanState) :
  scan (length (prepare has_xuhao df)) (prepare has_xuhao df) 0 init_state = Some st ->
  (forall j entry,
      new_rows_to_add st !! j = Some entry ->
      xuhao entry.2 = Some (LStr (new_index (j + 1))))
  /\ (forall j j' entry entry',
        new_rows_to_add st !! j = Some entry ->
        new_rows_to_add st !! j' = Some entry' ->
        j <> j' -> xuhao entry.2 <> xuhao entry'.2).
Proof.
  intros Hscan.
  set (p := prepare has_xuhao df) in *.
  pose (I := fun (_ : nat) (st : ScanState) =>
               forall j entry,
                 new_rows_to_add st !! j = Some entry ->
                 xuhao entry.2 = Some (LStr (new_index (j + 1)))).
  assert (HI : exists i', I i' st).
  { apply (scan_rule p I) with (fuel := length p) (i := 0%nat) (st := init_state);
      [|intros j entry H; discriminate H|exact Hscan].
    intros i st0 i1 st1 HI0 Hi Hstep. unfold I in *.
    destruct (scan_step_cases _ _ _ _ _ Hstep)
      as [(_ & _ & ->)|[(_ & -> & _)|(s & e & first & last_row & _ & _ & _ & _
                                      & _ & _ & _ & _ & _ & -> & _)]];
      try exact HI0.
    intros j entry Hj.
    destruct (Nat.lt_ge_cases j (length (new_rows_to_add st0))) as [Hlt|Hge].
    - rewrite lookup_app_l in Hj by exact Hlt. apply HI0. exact Hj.
    - rewrite lookup_app_r in Hj by exact Hge.
      destruct (j - length (new_rows_to_add st0))%nat as [|d] eqn:Ed;
        [|destruct d; discriminate Hj].
      injection Hj as <-. simpl.
      replace j with (length (new_rows_to_add st0)) by lia. reflexivity. }
  destruct HI as [i' HI]. unfold I in HI.
  split; [exact HI|].
  intros j j' entry entry' Hj Hj' Hne E.
  rewrite (HI _ _ Hj), (HI _ _ Hj') in E.
  assert (new_index (j + 1) = new_index (j' + 1)) as E' by congruence.
  apply new_index_inj in E'. lia.
Qed.

Lemma synthesized_labels_witness :
  exists st : ScanState,
    scan (length (prepare true scenario_A_rows)) (prepare true scenario_A_rows)
         0 init_state = Some st
    /\ forall j entry,
         new_rows_to_add st !! j = Some entry ->
         xuhao entry.2 = Some (LStr (new_index (j + 1))).
Proof.
  eexists. split; [vm_compute; reflexivity|].
  apply (synthesized_labels true scenario_A_rows). vm_compute. reflexivity.
Defined.

(** The cells of a merged run after all overwrites. *)
Lemma merged_run_cells (df modified : list Row) (mods : list Mod)
    (entry : nat * Row) (s : nat) :
  merged_run df mods entry s ->
  apply_mods df mods = Some modified ->
  forall k, (s <= k <= entry.1)%nat ->
    exists r row,
      df !! k = Some r
      /\ modified !! k
         = Some (set_hit_rate
                   (py_round (row_hit_rate (footage r)
                                (py_sum (footage <$> range_rows df s entry.1))) 6)
                   (set_footage
                      (py_round (py_round (py_sum (footage <$> range_rows df s entry.1)) 6) 6)
                      row)).
Proof.
  intros (first & last_row & n & before & after & Hs & Hf & Hl & Hrow & Hmods & Hafter)
         Happ k Hk.
  set (run := range_rows df s entry.1) in *.
  set (total := py_sum (footage <$> run)) in *.
  rewrite Hmods, apply_mods_app in Happ.
  destruct (apply_mods df before) as [df1|] eqn:E1;
    simpl in Happ; [|discriminate Happ].
  rewrite apply_mods_app in Happ.
  destruct (apply_mods df1 (range_mods run s total)) as [df2|] eqn:E2;
    simpl in Happ; [|discriminate Happ].
  pose proof (lookup_lt_Some _ _ _ Hl) as He.
  destruct (lookup_lt_is_Some_2 df k) as [r Hr]; [lia|].
  assert (Hrun : run !! (k - s)%nat = Some r).
  { unfold run. rewrite range_rows_lookup, decide_True by lia.
    rewrite <- Hr. f_equal. lia. }
  destruct (apply_range_mods run total s df1 df2 E2 _ r Hrun) as (row & _ & Hrow2).
  replace (s + (k - s))%nat with k in Hrow2 by lia.
  exists r, row. split; [exact Hr|].
  rewrite (apply_mods_other after k df2 modified Happ); [exact Hrow2|].
  eapply Forall_impl; [exact Hafter|]. simpl. intros; lia.
Qed.

(** X3. After the overwrites every row of a merged run, from the first row
    of the range the synthesized row was built from to its anchor, carries
    in its footage cell exactly the footage of that synthesized row. *)
Theorem merged_run_shares_footage
    (has_xuhao : bool) (df modified : list Row) (st : ScanState)
    (anchor : nat) (new_row : Row) :
  scan (length (prepare has_xuhao df)) (prepare has_xuhao df) 0 init_state = Some st ->
  apply_mods (prepare has_xuhao df) (rows_to_modify st) = Some modified ->
  (anchor, new_row) ∈ new_rows_to_add st ->
  exists sequence_start,
    merged_run (prepare has_xuhao df) (rows_to_modify st) (anchor, new_row)
               sequence_start
    /\ forall k, (sequence_start <= k <= anchor)%nat ->
         exists row, modified !! k = Some row /\ footage row = footage new_row.
Proof.
  intros Hscan Hmods Hin.
  destruct (scan_overwrite_invariant _ _ _ _ _
              (overwrite_invariant_init (prepare has_xuhao df)) Hscan)
    as (i' & b & _ & _ & Hruns).
  rewrite Forall_forall in Hruns.
  destruct (Hruns _ Hin) as [_ [s Hrun]].
  exists s. split; [exact Hrun|].
  intros k Hk.
  destruct (merged_run_cells _ _ _ _ _ Hrun Hmods k Hk) as (r & row & _ & Hrow).
  eexists. split; [exact Hrow|].
  destruct Hrun as (first & last_row & n & before & after & _ & _ & _ & Hnew & _).
  simpl in Hnew. rewrite Hnew. simpl. apply py_round_idem.
Qed.

Lemma merged_run_shares_footage_witness :
  exists (st : ScanState) (modified : list Row) (new_row : Row) (sequence_start : nat),
    scan (length (prepare true scenario_A_rows)) (prepare true scenario_A_rows)
         0 init_state = Some st
    /\ merged_run (prepare true scenario_A_rows) (rows_to_modify st) (1%nat, new_row)
                  sequence_start
    /\ forall k, (sequence_start <= k <= 1)%nat ->
         exists row, modified !! k = Some row /\ footage row = footage new_row.
Proof.
  eexists _, _, _.
  assert (forall A (P Q : A -> Prop) (R : Prop),
             R -> (exists x, P x /\ Q x) -> exists x, R /\ P x /\ Q x) as Hex.
  { intros A P Q R HR (x & HP & HQ). exists x. auto. }
  apply Hex; [vm_compute; reflexivity|].
  eapply (merged_run_shares_footage true scenario_A_rows _ _ 1).
  - vm_compute. reflexivity.
  - vm_compute. reflexivity.
  - simpl. left.
Defined.

End SynthesizedRows.

Section OutputBounds.
Import Merging MergingSpec MergingMore.

Lemma Qsum_footage_bounds (range : list Row) :
  Forall (fun r => 0 <= footage r) range ->
  0 <= Qsum (footage <$> range)
  /\ forall r, r ∈ range -> footage r <= Qsum (footage <$> range).
Proof.
  induction 1 as [|r0 range H0 Hrange [IH0 IH]].
  - split; [apply Qle_refl|]. intros r Hr. inversion Hr.
  - change (Qsum (footage <$> r0 :: range))
      with (footage r0 + Qsum (footage <$> range)).
    split; [lra|]. intros r Hr. apply elem_of_cons in Hr as [->|Hr].
    + lra.
    + specialize (IH r Hr). lra.
Qed.

Lemma row_hit_rate_unit (f total : Q) :
  0 <= f -> f <= total -> 0 <= row_hit_rate f total <= 1.
Proof.
  intros Hf Hle. unfold row_hit_rate.
  change 0 with (inject_Z 0). change 1 with (inject_Z 1).
  apply py_round_between.
  change (inject_Z 0) with 0. change (inject_Z 1) with 1.
  destruct (Qeq_bool total 0) eqn:E; [lra|].
  apply Qeq_bool_neq in E.
  assert (0 < total) as Hpos.
  { destruct (Qlt_le_dec 0 total) as [?|Hle0]; [assumption|].
    exfalso. apply E. lra. }
  split.
  - apply Qle_shift_div_l; [exact Hpos|]. lra.
  - apply Qle_shift_div_r; [exact Hpos|]. lra.
Qed.

Lemma range_mods_unit (range : list Row) (total : Q) :
  Forall (fun r => 0 <= footage r <= total) range ->
  forall k, Forall hit_rate_in_unit (range_mods range k total).
Proof.
  induction 1 as [|r range [Hr Hr'] Hrange IH]; intros k; simpl; constructor.
  - exact I.
  - constructor; [|apply IH]. simpl. apply row_hit_rate_unit; assumption.
Qed.

Lemma range_rows_elem (df : list Row) (s e : nat) (r : Row) :
  r ∈ range_rows df s e -> r ∈ df.
Proof.
  unfold range_rows. intros H.
  apply list_elem_of_lookup in H as [t Ht].
  apply lookup_take_Some in Ht as [Ht _]. rewrite lookup_drop in Ht.
  eapply list_elem_of_lookup_2; eauto.
Qed.

Lemma apply_mods_unit (mods : list Mod) :
  Forall hit_rate_in_unit mods ->
  forall df df' : list Row,
    Forall (fun r => 0 <= hit_rate r <= 1) df ->
    apply_mods df mods = Some df' ->
    Forall (fun r => 0 <= hit_rate r <= 1) df'.
Proof.
  induction 1 as [|m mods Hm Hmods IH]; intros df df' Hdf H; simpl in H.
  - inversion H; subst. exact Hdf.
  - destruct (apply_mod df m) as [df1|] eqn:E; [|discriminate]. simpl in H.
    apply (IH df1 df'); [|exact H].
    assert (Hround : forall v, 0 <= v <= 1 -> 0 <= py_round v 6 <= 1).
    { intros v Hv. change 0 with (inject_Z 0). change 1 with (inject_Z 1).
      apply py_round_between. exact Hv. }
    destruct m as [idx v|idx v|idx v]; unfold apply_mod, set_iloc in E;
      destruct (_ <? _)%nat; inversion E; subst;
      apply Forall_alter; auto; intros x _ Hx; simpl; auto.
Qed.

(** X4. When no input row has a negative footage, every row of the output,
    original or synthesized, has a hit-rate between 0 and 1. *)
Theorem hit_rates_in_unit_interval
    (has_xuhao : bool) (df out : list Row) :
  Forall (fun r => 0 <= footage r) df ->
  process_drilling_data has_xuhao df = Some out ->
  Forall (fun r => 0 <= hit_rate r <= 1) out.
Proof.
  intros Hfoot Hout.
  destruct (process_drilling_data_stages has_xuhao df)
    as (st & modified & Hscan & Hinv & Hmods & _ & Hout').
  rewrite Hout in Hout'. injection Hout' as ->.
  set (p := prepare has_xuhao df) in *.
  assert (Hp : Forall (fun r => 0 <= footage r) p).
  { apply Forall_forall. intros r Hr.
    apply list_elem_of_lookup in Hr as [k Hk].
    apply prepare_lookup_inv in Hk as (r0 & lbl & Hr0 & ->).
    rewrite Forall_forall in Hfoot.
    specialize (Hfoot r0 (list_elem_of_lookup_2 _ _ _ Hr0)).
    destruct has_xuhao; exact Hfoot. }
  assert (Hp1 : Forall (fun r => 0 <= hit_rate r <= 1) p).
  { apply Forall_forall. intros r Hr.
    apply list_elem_of_lookup in Hr as [k Hk].
    apply prepare_lookup_inv in Hk as (r0 & lbl & Hr0 & ->). simpl. lra. }
  assert (Hunit : exists i' : nat, Forall hit_rate_in_unit (rows_to_modify st)).
  { apply (scan_rule p (fun _ st => Forall hit_rate_in_unit (rows_to_modify st)))
      with (fuel := length p) (i := 0%nat) (st := init_state);
      [|constructor|exact Hscan].
    intros i st0 i1 st1 HI0 Hi Hstep.
    destruct (scan_step_cases _ _ _ _ _ Hstep)
      as [(_ & _ & ->)|[(_ & _ & ->)|(s & e & first & last_row & _ & _ & _ & _
                                      & _ & _ & _ & _ & _ & _ & ->)]];
      try exact HI0.
    - simpl. apply Forall_app. split; [exact HI0|].
      repeat constructor; simpl; vm_compute; discriminate.
    - apply Forall_app. split; [exact HI0|].
      apply range_mods_unit.
      assert (Hrange : Forall (fun r => 0 <= footage r) (range_rows p s e)).
      { apply Forall_forall. intros r Hr. rewrite Forall_forall in Hp.
        apply Hp. eapply range_rows_elem; eauto. }
      destruct (Qsum_footage_bounds _ Hrange) as [_ Hle].
      apply Forall_forall. intros r Hr. rewrite py_sum_Qsum.
      rewrite Forall_forall in Hrange. auto. }
  destruct Hunit as [_ Hunit].
  pose proof (apply_mods_unit _ Hunit _ _ Hp1 Hmods) as Hmodified.
  assert (Hnew : Forall (fun r => 0 <= hit_rate r <= 1)
                        (snd <$> new_rows_to_add st)).
  { apply Forall_fmap. eapply Forall_impl; [exact (inv_synthesized _ _ _ Hinv)|].
    intros entry (s & first & last_row & n & _ & _ & _ & E).
    unfold compose. rewrite E. simpl. vm_compute. split; discriminate. }
  apply Forall_fmap.
  assert (Hperm : insert_new_rows modified (sorted_new_rows (new_rows_to_add st))
                  ≡ₚ modified ++ (snd <$> new_rows_to_add st)).
  { rewrite insert_new_rows_perm. now rewrite sorted_new_rows_perm. }
  rewrite Hperm. apply Forall_app. split.
  - eapply Forall_impl; [exact Hmodified|]. intros r Hr.
    destruct has_xuhao; exact Hr.
  - eapply Forall_impl; [exact Hnew|]. intros r Hr.
    destruct has_xuhao; exact Hr.
Qed.

Lemma hit_rates_in_unit_interval_witness :
  exists out : list Row,
    process_drilling_data true six_equal_rows = Some out
    /\ Forall (fun r => 0 <= hit_rate r <= 1) out.
Proof.
  eexists. split; [vm_compute; reflexivity|].
  eapply (hit_rates_in_unit_interval true six_equal_rows).
  - repeat constructor; vm_compute; discriminate.
  - vm_compute. reflexivity.
Defined.

(** X5. Merged runs do not share rows, and each has at least two: the
    number of synthesized rows is at most half the number of input rows,
    and the output is at most one and a half times as long as the input. *)
Theorem synthesized_rows_at_most_half
    (has_xuhao : bool) (df out : list Row) (st : ScanState) :
  scan (length (prepare has_xuhao df)) (prepare has_xuhao df) 0 init_state = Some st ->
  process_drilling_data has_xuhao df = Some out ->
  (2 * length (new_rows_to_add st) <= length df)%nat
  /\ (2 * length out <= 3 * length df)%nat.
Proof.
  intros Hscan Hout.
  set (p := prepare has_xuhao df) in *.
  pose (I := fun (i : nat) (st : ScanState) =>
               (i <= length p)%nat
               /\ exists b, (b <= i)%nat /\ break_at p b
                            /\ (2 * length (new_rows_to_add st) <= b)%nat).
  assert (HI : exists i', I i' st).
  { apply (scan_rule p I) with (fuel := length p) (i := 0%nat) (st := init_state);
      [|split; [lia|exists 0%nat; simpl; auto]|exact Hscan].
    intros i st0 i1 st1 (Hi0 & b & Hb & Hbreak & Hcount) Hi Hstep. unfold I.
    destruct (scan_step_cases _ _ _ _ _ Hstep)
      as [(-> & Hlen & ->)|[(Hi1 & -> & _)|(s & e & first & last_row & Hs & He & Hse
                                           & Hsie & Hlen & _ & _ & _ & -> & -> & _)]].
    - split; [lia|]. exists b. simpl. repeat split; auto; lia.
    - split; [lia|]. exists b. repeat split; auto; lia.
    - split; [lia|]. exists (e + 1)%nat. split; [lia|]. split.
      + replace (e + 1)%nat with (S e) by lia. subst e.
        apply find_sequence_end_break; lia.
      + pose proof (find_sequence_start_barrier p b Hbreak i i Hb Hb) as Hsb.
        rewrite <- Hs in Hsb. rewrite length_app. simpl. lia. }
  destruct HI as (i' & Hi' & b & Hb & _ & Hcount).
  unfold p in Hi'. rewrite length_prepare in Hi'.
  split; [lia|].
  destruct (process_drilling_data_stages has_xuhao df)
    as (st' & modified & Hscan' & _ & _ & Hover & Hout').
  fold p in Hscan'. rewrite Hscan in Hscan'. injection Hscan' as <-.
  rewrite Hout in Hout'. injection Hout' as ->.
  rewrite length_fmap.
  assert (Hperm : insert_new_rows modified (sorted_new_rows (new_rows_to_add st))
                  ≡ₚ modified ++ (snd <$> new_rows_to_add st)).
  { rewrite insert_new_rows_perm. now rewrite sorted_new_rows_perm. }
  rewrite Hperm, length_app, length_fmap.
  rewrite <- (Forall2_length _ _ _ Hover). fold p.
  unfold p. rewrite length_prepare. lia.
Qed.

Lemma synthesized_rows_at_most_half_witness :
  exists (st : ScanState) (out : list Row),
    scan (length (prepare true six_equal_rows)) (prepare true six_equal_rows)
         0 init_state = Some st
    /\ process_drilling_data true six_equal_rows = Some out
    /\ (2 * length (new_rows_to_add st) <= length six_equal_rows)%nat
    /\ (2 * length out <= 3 * length six_equal_rows)%nat.
Proof.
  eexists _, _.
  split; [vm_compute; reflexivity|]. split; [vm_compute; reflexivity|].
  eapply (synthesized_rows_at_most_half true six_equal_rows);
    vm_compute; reflexivity.
Defined.

End OutputBounds.

Section PassThrough.
Import Merging MergingSpec MergingMore.

Lemma set_hit_rate_same (r : Row) : hit_rate r = 1 -> set_hit_rate 1 r = r.
Proof. destruct r; simpl; intros ->; reflexivity. Qed.

Lemma apply_plain_mods (mods : list Mod) (df : list Row) :
  Forall (fun r => hit_rate r = 1) df ->
  Forall (fun m => exists idx, (idx < length df)%nat
                               /\ m = ModPlain idx (py_round 1 6)) mods ->
  apply_mods df mods = Some df.
Proof.
  intros Hdf. induction 1 as [|m mods (idx & Hidx & ->) Hmods IH]; [reflexivity|].
  simpl. unfold set_iloc. apply Nat.ltb_lt in Hidx. rewrite Hidx. simpl.
  assert (E : alter (set_hit_rate (py_round (py_round 1 6) 6)) idx df = df).
  { apply list_eq. intros k. rewrite list_lookup_alter.
    destruct (decide (idx = k)) as [->|]; [|reflexivity].
    destruct (df !! k) as [r|] eqn:Hr; [|reflexivity]. simpl. f_equal.
    rewrite Forall_forall in Hdf.
    apply (set_hit_rate_same r), Hdf.
    eapply list_elem_of_lookup_2; eauto. }
  rewrite E. exact IH.
Qed.

(** X6. A frame in which no row continues the entry count of the row
    before it goes through without a merge: the output has the same rows in
    the same order, nothing is added, and every hit-rate is 1.  (For entry
    counts that the frame holds as they are in the file.) *)
Theorem no_run_no_change (has_xuhao : bool) (df : list Row) :
  ordinary_counts df ->
  (forall k r r', df !! k = Some r -> df !! S k = Some r' ->
                  entry_count r' <> (entry_count r + 1)%Z) ->
  process_drilling_data has_xuhao df
  = Some (finish has_xuhao (prepare has_xuhao df))
  /\ (has_xuhao = true ->
      process_drilling_data has_xuhao df = Some (set_hit_rate 1 <$> df)).
Proof.
  intros _ Hbreak.
  set (p := prepare has_xuhao df).
  assert (Hbreak' : forall k r r', p !! k = Some r -> p !! S k = Some r' ->
                       entry_count r' <> (entry_count r + 1)%Z).
  { intros k r r' Hr Hr'.
    apply prepare_lookup_inv in Hr as (r0 & lbl & Hr0 & ->).
    apply prepare_lookup_inv in Hr' as (r1 & lbl' & Hr1 & ->).
    specialize (Hbreak k r0 r1 Hr0 Hr1). destruct has_xuhao; exact Hbreak. }
  destruct (process_drilling_data_stages has_xuhao df)
    as (st & modified & Hscan & _ & Hmods & _ & Hout).
  fold p in Hscan, Hmods.
  pose (I := fun (_ : nat) (st : ScanState) =>
               new_rows_to_add st = []
               /\ Forall (fun m => exists idx, (idx < length p)%nat
                                               /\ m = ModPlain idx (py_round 1 6))
                         (rows_to_modify st)).
  assert (HI : exists i' : nat, I i' st).
  { apply (scan_rule p I) with (fuel := length p) (i := 0%nat) (st := init_state);
      [|split; [reflexivity|constructor]|exact Hscan].
    intros i st0 i1 st1 [Hnew Hplain] Hi Hstep. unfold I.
    destruct (scan_step_cases _ _ _ _ _ Hstep)
      as [(_ & Hlen & ->)|[(_ & -> & ->)|(s & e & first & last_row & Hs & He & Hse
                                          & Hsie & Hlen & _)]].
    - simpl. split; [exact Hnew|]. apply Forall_app. split; [exact Hplain|].
      repeat constructor; eexists; (split; [|reflexivity]); lia.
    - split; assumption.
    - exfalso.
      assert (Hcount : exists r r', p !! s = Some r /\ p !! S s = Some r'
                                    /\ entry_count r' = (entry_count r + 1)%Z).
      { destruct (Nat.lt_ge_cases s i) as [Hlt|Hge].
        - apply (find_sequence_start_consecutive p i). rewrite <- Hs. lia.
        - apply (find_sequence_end_consecutive p (length p) (i + 1) i); [lia|].
          rewrite <- He. lia. }
      destruct Hcount as (r & r' & Hr & Hr' & Hc).
      exact (Hbreak' s r r' Hr Hr' Hc). }
  destruct HI as [i' [Hnew Hplain]].
  assert (Hp1 : Forall (fun r => hit_rate r = 1) p).
  { apply Forall_forall. intros r Hr.
    apply list_elem_of_lookup in Hr as [k Hk].
    apply prepare_lookup_inv in Hk as (r0 & lbl & Hr0 & ->). reflexivity. }
  rewrite (apply_plain_mods _ _ Hp1 Hplain) in Hmods. injection Hmods as <-.
  rewrite Hnew in Hout. simpl in Hout. rewrite <- finish_fmap in Hout.
  split; [exact Hout|].
  intros ->. rewrite Hout. subst p. unfold finish, prepare. f_equal.
  apply list_eq. intros k.
  rewrite list_lookup_imap, list_lookup_fmap. reflexivity.
Qed.

Lemma no_run_no_change_witness :
  process_drilling_data true [example_row 1 0 10 10 (Some 5); example_row 1 20 30 10 None;
                              example_row 0 30 40 10 None; example_row 3 40 50 10 None]
  = Some (set_hit_rate 1 <$> [example_row 1 0 10 10 (Some 5); example_row 1 20 30 10 None;
                              example_row 0 30 40 10 None; example_row 3 40 50 10 None]).
Proof.
  apply (no_run_no_change true); [repeat constructor| |reflexivity].
  intros [|[|[|[|k]]]] r r' Hr Hr'; simpl in Hr, Hr'; try discriminate;
    injection Hr as <-; injection Hr' as <-; simpl; lia.
Defined.

Lemma weighted_sum_bounds (value : Row -> Q) (range : list Row) (lo hi : Q) :
  Forall (fun r => 0 <= footage r /\ lo <= value r <= hi) range ->
  lo * Qsum (footage <$> range)
  <= Qsum ((fun r => value r * footage r) <$> range)
  <= hi * Qsum (footage <$> range).
Proof.
  induction 1 as [|r range (Hf & Hlo & Hhi) Hrange IH].
  - change (lo * 0 <= 0 <= hi * 0). lra.
  - change (lo * (footage r + Qsum (footage <$> range))
            <= value r * footage r + Qsum ((fun r => value r * footage r) <$> range)
            <= hi * (footage r + Qsum (footage <$> range))).
    nra.
Qed.

(** X7. A footage-weighted average stays between the smallest and the
    largest value of the rows it averages: with no negative footage, the
    mud density of a synthesized row lies between any bounds that hold for
    the mud densities of the rows of its run, up to the rounding of the
    cell to 6 decimals (half a unit of the sixth decimal, and the error of
    the doubles). *)
Theorem merged_density_within_bounds
    (range : list Row) (first last_row : Row) (n : nat) (lo hi : Q) :
  Forall (fun r => 0 <= footage r /\ lo <= mud_density r <= hi) range ->
  lo <= mud_density last_row <= hi ->
  let tolerance :=
    (1 # 2000000)
    + FloatSpec.float_error (3 * length range + 3) (Qabs lo + Qabs hi) in
  lo - tolerance <= mud_density (merged_row range first last_row n) <= hi + tolerance.
Proof.
  intros Hrange Hlast tolerance. cbn [mud_density merged_row].
  assert (lo <= weighted_average mud_density range last_row <= hi) as [H1 H2].
  { unfold weighted_average.
    destruct (Qlt_bool 0 (total_weight range)) eqn:E; [|exact Hlast].
    apply Qlt_bool_iff in E.
    pose proof (weighted_sum_bounds mud_density range lo hi Hrange) as [Hl Hh].
    rewrite weighted_sum_Qsum, total_weight_Qsum.
    rewrite total_weight_Qsum in E.
    split.
    - apply Qle_shift_div_l; [exact E|exact Hl].
    - apply Qle_shift_div_r; [exact E|exact Hh]. }
  pose proof (py_round_error (weighted_average mud_density range last_row) 6) as Herr.
  apply Qabs_Qle_condition in Herr as [Herr1 Herr2].
  assert (0 <= FloatSpec.float_error (3 * length range + 3) (Qabs lo + Qabs hi)) as H0.
  { apply float_error_nonneg.
    pose proof (Qabs_nonneg lo). pose proof (Qabs_nonneg hi). lra. }
  change (1 # 2 * pow10 6) with (1 # 2000000) in Herr1, Herr2.
  unfold tolerance. split; lra.
Qed.

Lemma merged_density_within_bounds_witness :
  1 - ((1 # 2000000) + FloatSpec.float_error (3 * 2 + 3) (Qabs 1 + Qabs 2))
  <= mud_density (merged_row scenario_A_rows (example_row 1 950 1000 50 (Some 5))
                             (example_row 2 1000 1030 30 (Some 5)) 1)
  <= 2 + ((1 # 2000000) + FloatSpec.float_error (3 * 2 + 3) (Qabs 1 + Qabs 2)).
Proof.
  apply (merged_density_within_bounds scenario_A_rows).
  - repeat constructor; vm_compute; discriminate.
  - split; vm_compute; discriminate.
Defined.

End PassThrough.

Section RowsOutsideRuns.
Import Merging MergingSpec MergingMore.

Lemma apply_mods_keeps (mods : list Mod) (k : nat) :
  forall (df df' : list Row) (r : Row),
    apply_mods df mods = Some df' ->
    df !! k = Some r -> hit_rate r = 1 ->
    Forall (fun m => match m with
                     | ModPlain _ v => v = py_round 1 6
                     | _ => True
                     end) mods ->
    df' !! k = Some r
    \/ Exists (fun m => mod_idx m = k
                        /\ match m with ModPlain _ _ => False | _ => True end) mods.
Proof.
  induction mods as [|m mods IH]; intros df df' r H Hr Hone Hplain; simpl in H.
  - injection H as <-. left. exact Hr.
  - apply Forall_cons in Hplain as [Hm Hplain].
    destruct (apply_mod df m) as [df1|] eqn:E; [|discriminate H]. simpl in H.
    assert (Hcase : df1 !! k = Some r
                    \/ (mod_idx m = k
                        /\ match m with ModPlain _ _ => False | _ => True end)).
    { destruct (decide (k = mod_idx m)) as [->|Hne];
        [|left; rewrite (apply_mod_other _ _ _ _ E Hne); exact Hr].
      destruct m as [idx v|idx v|idx v]; simpl in *; [right; auto|right; auto|].
      left. subst v. unfold set_iloc in E.
      destruct (idx <? length df)%nat; [|discriminate E]. injection E as <-.
      rewrite list_lookup_alter_eq, Hr. simpl. f_equal.
      apply (set_hit_rate_same r Hone). }
    destruct Hcase as [Hr1|Hm'].
    + destruct (IH df1 df' r H Hr1 Hone Hplain) as [Hk|Hex]; [left; exact Hk|].
      right. apply Exists_cons_tl, Hex.
    + right. apply Exists_cons_hd, Hm'.
Qed.

Lemma range_mods_not_plain (range : list Row) (total : Q) :
  forall k : nat,
    Forall (fun m => match m with ModPlain _ _ => False | _ => True end)
           (range_mods range k total).
Proof.
  induction range as [|x l IH]; intros k; simpl; repeat constructor. apply IH.
Qed.

(** X8. The pass changes a row only inside a merged run.  After the
    overwrites a row of the frame either has all its cells as before (its
    hit-rate is 1), or it lies in the range that a synthesized row was
    built from: between the first row of that range and the anchor. *)
Theorem rows_change_only_in_runs
    (has_xuhao : bool) (df modified : list Row) (st : ScanState) (k : nat) (r : Row) :
  scan (length (prepare has_xuhao df)) (prepare has_xuhao df) 0 init_state = Some st ->
  apply_mods (prepare has_xuhao df) (rows_to_modify st) = Some modified ->
  prepare has_xuhao df !! k = Some r ->
  modified !! k = Some r
  \/ exists (anchor : nat) (new_row : Row) (sequence_start : nat)
            (first last_row : Row) (n : nat),
       (anchor, new_row) ∈ new_rows_to_add st
       /\ (sequence_start <= k <= anchor)%nat /\ (sequence_start < anchor)%nat
       /\ prepare has_xuhao df !! sequence_start = Some first
       /\ prepare has_xuhao df !! anchor = Some last_row
       /\ new_row = merged_row (range_rows (prepare has_xuhao df) sequence_start anchor)
                               first last_row n.
Proof.
  intros Hscan Hmods Hr.
  set (p := prepare has_xuhao df) in *.
  pose (in_run := fun (st : ScanState) (idx : nat) =>
                    exists (entry : nat * Row) (s : nat) (first last_row : Row) (n : nat),
                      entry ∈ new_rows_to_add st
                      /\ (s <= idx <= entry.1)%nat /\ (s < entry.1)%nat
                      /\ p !! s = Some first /\ p !! entry.1 = Some last_row
                      /\ entry.2 = merged_row (range_rows p s entry.1) first last_row n).
  pose (I := fun (_ : nat) (st : ScanState) =>
               Forall (fun m =>
                         match m with
                         | ModPlain _ v => v = py_round 1 6
                         | ModDepth idx _ | ModHitRate idx _ => in_run st idx
                         end) (rows_to_modify st)).
  destruct (scan_rule p I) with (fuel := length p) (i := 0%nat)
                                (st := init_state) (st' := st) as [i' HI].
  - intros i st0 i1 st1 HI0 Hi Hstep. unfold I in *.
    destruct (scan_step_cases _ _ _ _ _ Hstep)
      as [(_ & _ & ->)|[(_ & Hnew & Hm)|(s & e & first & last_row & Hs & He & Hse & Hsie
                                         & Hlen & Hfirst & Hlast & Hchecks & _
                                         & Hnew & Hm)]].
    + simpl. apply Forall_app. split; [exact HI0|]. repeat constructor.
    + rewrite Hm. eapply Forall_impl; [exact HI0|].
      intros [idx v|idx v|idx v]; unfold in_run; rewrite ?Hnew; auto.
    + rewrite Hm. apply Forall_app. split.
      * eapply Forall_impl; [exact HI0|].
        intros [idx v|idx v|idx v]; auto;
          intros (entry & s0 & f0 & l0 & n0 & Hin & H);
          exists entry, s0, f0, l0, n0; (split; [|exact H]);
          rewrite Hnew; apply elem_of_app; left; exact Hin.
      * pose proof (range_mods_idx (range_rows p s e)
                      (py_sum (footage <$> range_rows p s e)) s) as Hidx.
        rewrite (length_range_rows p s e Hlen) in Hidx.
        pose proof (range_mods_not_plain (range_rows p s e)
                      (py_sum (footage <$> range_rows p s e)) s) as Hplain.
        rewrite Forall_forall in Hidx, Hplain. apply Forall_forall.
        intros m Hin. specialize (Hidx m Hin). specialize (Hplain m Hin).
        assert (Hentry : forall idx, (s <= idx < s + (S e - s))%nat -> in_run st1 idx).
        { intros idx Hb.
          exists (e, merged_row (range_rows p s e) first last_row
                       (length (new_rows_to_add st0) + 1)),
                 s, first, last_row, (length (new_rows_to_add st0) + 1)%nat.
          cbn [fst snd]. split.
          - rewrite Hnew. apply elem_of_app. right. left.
          - split; [lia|]. split; [exact Hse|]. split; [exact Hfirst|].
            split; [exact Hlast|]. reflexivity. }
        destruct m as [idx v|idx v|idx v]; [apply Hentry, Hidx|apply Hentry, Hidx|].
        contradiction.
  - constructor.
  - exact Hscan.
  - unfold I in HI.
    assert (Hone : hit_rate r = 1).
    { apply prepare_lookup_inv in Hr as (r0 & lbl & _ & ->). reflexivity. }
    destruct (apply_mods_keeps (rows_to_modify st) k p modified r Hmods Hr Hone)
      as [Hk|Hex].
    + eapply Forall_impl; [exact HI|]. intros [idx v|idx v|idx v]; auto.
    + left. exact Hk.
    + right. apply Exists_exists in Hex as (m & Hin & Hidx & Hnp).
      rewrite Forall_forall in HI. specialize (HI m Hin).
      destruct m as [idx v|idx v|idx v]; simpl in Hidx; try contradiction; subst idx;
        destruct HI as ([anchor new_row] & s & first & last_row & n & Hentry & Hle
                        & Hlt & Hf & Hl & Hrow);
        exists anchor, new_row, s, first, last_row, n; cbn [fst snd] in *; auto 10.
Qed.

Lemma rows_change_only_in_runs_witness :
  exists (st : ScanState) (modified : list Row),
    scan (length (prepare true scenario_A_rows)) (prepare true scenario_A_rows)
         0 init_state = Some st
    /\ apply_mods (prepare true scenario_A_rows) (rows_to_modify st) = Some modified
    /\ exists (anchor : nat) (new_row : Row) (sequence_start : nat)
              (first last_row : Row) (n : nat),
         (anchor, new_row) ∈ new_rows_to_add st
         /\ (sequence_start <= 0 <= anchor)%nat /\ (sequence_start < anchor)%nat
         /\ prepare true scenario_A_rows !! sequence_start = Some first
         /\ prepare true scenario_A_rows !! anchor = Some last_row
         /\ new_row
            = merged_row (range_rows (prepare true scenario_A_rows) sequence_start anchor)
                         first last_row n.
Proof.
  eexists _, _. split; [reflexivity|]. split; [reflexivity|].
  destruct (rows_change_only_in_runs true scenario_A_rows _ _ 0 _
              eq_refl eq_refl eq_refl) as [H|H].
  - exfalso. vm_compute in H. discriminate H.
  - exact H.
Defined.

End RowsOutsideRuns.

(** * More facts about the depth mapping *)

Section Prediction.
Import Dictionary Classifier ClassifierSpec ClassifierMore.

Lemma fold_max_bottom (l : list (string * Depths)) (m : Q) :
  m <= fold_left (fun m p' => Qmax m (bottom_depth p'.2)) l m
  /\ forall p, In p l ->
       bottom_depth p.2 <= fold_left (fun m p' => Qmax m (bottom_depth p'.2)) l m.
Proof.
  revert m. induction l as [|x l IH]; intros m; simpl.
  - split; [lra|tauto].
  - destruct (IH (Qmax m (bottom_depth x.2))) as [H1 H2].
    pose proof (Q.le_max_l m (bottom_depth x.2)).
    pose proof (Q.le_max_r m (bottom_depth x.2)).
    split; [lra|]. intros p [<-|Hp]; [lra|auto].
Qed.

Lemma max_bottom_upper (l : list (string * Depths)) (p : string * Depths) :
  In p l -> bottom_depth p.2 <= max_bottom l.
Proof.
  destruct l as [|x l]; simpl; [tauto|].
  destruct (fold_max_bottom l (bottom_depth x.2)) as [H1 H2].
  intros [<-|Hp]; auto.
Qed.

Lemma predict_nonempty (formation_depths : list (string * Depths)) (depth : Q) :
  formation_depths <> [] ->
  predict_formation_by_depth formation_depths depth
  = match List.find (fun p => Qle_bool (top_depth p.2) depth
                              && Qlt_bool depth (bottom_depth p.2))
                    formation_depths with
    | Some p => p.1
    | None =>
        if Qeq_bool depth (max_bottom formation_depths) then
          match List.find (fun p => Qeq_bool (bottom_depth p.2)
                                             (max_bottom formation_depths))
                          formation_depths with
          | Some p => p.1
          | None => "未知"
          end
        else "未知"
    end.
Proof.
  unfold predict_formation_by_depth.
  destruct formation_depths; [congruence|reflexivity].
Qed.

(** X9. The formation predicted for a depth.  When some row of the depth
    table holds the depth in its half-open interval, the predicted name is
    a row of the table that does; any other predicted name than 未知 is a
    row whose bottom is the depth and is the deepest bottom of the table. *)
Theorem predicted_formation_holds_depth
    (formation_depths : list (string * Depths)) (depth : Q) :
  (forall p, p ∈ formation_depths ->
             top_depth p.2 <= depth < bottom_depth p.2 ->
             exists d, (predict_formation_by_depth formation_depths depth, d)
                       ∈ formation_depths
                       /\ top_depth d <= depth < bottom_depth d)
  /\ (predict_formation_by_depth formation_depths depth <> "未知" ->
      exists d, (predict_formation_by_depth formation_depths depth, d)
                ∈ formation_depths
                /\ (top_depth d <= depth < bottom_depth d
                    \/ (depth == bottom_depth d
                        /\ forall p, p ∈ formation_depths ->
                                     bottom_depth p.2 <= depth))).
Proof.
  set (inside := fun p : string * Depths =>
                   Qle_bool (top_depth p.2) depth && Qlt_bool depth (bottom_depth p.2)).
  assert (Hinside : forall p, inside p = true
                              <-> top_depth p.2 <= depth < bottom_depth p.2).
  { intros p. unfold inside.
    rewrite andb_true_iff, Qle_bool_iff, Qlt_bool_iff. reflexivity. }
  split.
  - intros p Hp Hin.
    assert (Hne : formation_depths <> []) by (intros E; rewrite E in Hp; inversion Hp).
    rewrite (predict_nonempty _ depth Hne). fold inside.
    destruct (List.find inside formation_depths) as [[name d]|] eqn:F.
    + apply find_some in F as [HIn Hd]. exists d.
      split; [apply list_elem_of_In; exact HIn|]. apply (Hinside (name, d)), Hd.
    + apply list_elem_of_In in Hp.
      pose proof (find_none _ _ F p Hp) as Hn.
      apply Hinside in Hin. congruence.
  - intros Hne.
    assert (Hfd : formation_depths <> []).
    { intros E. apply Hne. unfold predict_formation_by_depth. rewrite E. reflexivity. }
    rewrite (predict_nonempty _ depth Hfd) in *. fold inside in Hne |- *.
    destruct (List.find inside formation_depths) as [[name d]|] eqn:F.
    + apply find_some in F as [HIn Hd]. exists d.
      split; [apply list_elem_of_In; exact HIn|]. left. apply (Hinside (name, d)), Hd.
    + destruct (Qeq_bool depth (max_bottom formation_depths)) eqn:Q; [|exfalso; exact (Hne eq_refl)].
      apply Qeq_bool_iff in Q.
      match goal with
      | |- context [List.find ?g formation_depths] =>
          destruct (List.find g formation_depths) as [[name d]|] eqn:G
      end; [|exfalso; exact (Hne eq_refl)].
      apply find_some in G as [HIn Hd]. apply Qeq_bool_iff in Hd. simpl in Hd.
      exists d. split; [apply list_elem_of_In; exact HIn|]. right.
      split; [rewrite Q, Hd; reflexivity|].
      intros p Hp. apply list_elem_of_In in Hp.
      rewrite Q. apply max_bottom_upper, Hp.
Qed.

Lemma predicted_formation_holds_depth_witness :
  exists d, (predict_formation_by_depth example_depths 1200, d) ∈ example_depths
            /\ (top_depth d <= 1200 < bottom_depth d
                \/ (1200 == bottom_depth d
                    /\ forall p, p ∈ example_depths -> bottom_depth p.2 <= 1200)).
Proof.
  apply (proj2 (predicted_formation_holds_depth example_depths 1200)).
  vm_compute. discriminate.
Defined.

End Prediction.

Section RangeCheck.
Import Dictionary Classifier ClassifierSpec ClassifierMore.

Lemma check_depth_range_sound (actual t b : Q) :
  match check_depth_range actual (Some t) (Some b) with
  | InRange => Qmin t b <= actual <= Qmax t b
  | TooLow => actual < Qmin t b
  | TooHigh => Qmax t b < actual
  | Indeterminate => False
  end.
Proof.
  unfold check_depth_range.
  destruct (Qle_bool (Qmin t b) actual) eqn:E1;
    destruct (Qle_bool actual (Qmax t b)) eqn:E2; simpl.
  - apply Qle_bool_iff in E1, E2. split; assumption.
  - apply Qle_bool_iff in E1.
    destruct (Qlt_bool actual (Qmin t b)) eqn:E3.
    + apply Qlt_bool_iff in E3. lra.
    + apply Qnot_le_lt. intros H. apply Qle_bool_iff in H. congruence.
  - destruct (Qlt_bool actual (Qmin t b)) eqn:E3.
    + apply Qlt_bool_iff in E3. exact E3.
    + exfalso. assert (actual < Qmin t b) as H.
      { apply Qnot_le_lt. intros H. apply Qle_bool_iff in H. congruence. }
      apply Qlt_bool_iff in H. congruence.
  - destruct (Qlt_bool actual (Qmin t b)) eqn:E3.
    + apply Qlt_bool_iff in E3. exact E3.
    + exfalso. assert (actual < Qmin t b) as H.
      { apply Qnot_le_lt. intros H. apply Qle_bool_iff in H. congruence. }
      apply Qlt_bool_iff in H. congruence.
Qed.

Lemma check_depth_range_spec (actual t b : Q) :
  (check_depth_range actual (Some t) (Some b) = InRange
   <-> (t <= actual <= b \/ b <= actual <= t))
  /\ (check_depth_range actual (Some t) (Some b) = TooLow
      <-> actual < t /\ actual < b)
  /\ (check_depth_range actual (Some t) (Some b) = TooHigh
      <-> t < actual /\ b < actual)
  /\ check_depth_range actual (Some t) (Some b)
     = check_depth_range actual (Some b) (Some t).
Proof.
  pose proof (check_depth_range_sound actual t b) as H.
  pose proof (check_depth_range_sound actual b t) as H'.
  pose proof (Q.min_spec t b) as Hmin. pose proof (Q.max_spec t b) as Hmax.
  pose proof (Q.min_spec b t) as Hmin'. pose proof (Q.max_spec b t) as Hmax'.
  destruct (check_depth_range actual (Some t) (Some b));
    destruct (check_depth_range actual (Some b) (Some t));
    try contradiction;
    (split; [|split; [|split]]);
    try (split; intros G);
    try discriminate; try reflexivity; try lra; exfalso; lra.
Qed.

(** X10. The judgment of a depth against two mapped depths does not depend
    on which of the two is the top: the depth is in range when it lies
    between them (ends included), low when it is below both, and high when
    it is above both. *)
Theorem check_depth_range_cases (actual t b : Q) :
  (check_depth_range actual (Some t) (Some b) = InRange
   <-> (t <= actual <= b \/ b <= actual <= t))
  /\ (check_depth_range actual (Some t) (Some b) = TooLow
      <-> actual < t /\ actual < b)
  /\ (check_depth_range actual (Some t) (Some b) = TooHigh
      <-> t < actual /\ b < actual)
  /\ check_depth_range actual (Some t) (Some b)
     = check_depth_range actual (Some b) (Some t).
Proof. exact (check_depth_range_spec actual t b). Qed.

Lemma midpoint_between (t b : Q) :
  py_round t 2 = t -> py_round b 2 = b ->
  Qmin t b <= py_round ((t + b) / 2) 2 <= Qmax t b.
Proof.
  intros Ht Hb.
  assert (Hlo : py_round (Qmin t b) 2 == Qmin t b).
  { destruct (Q.min_spec t b) as [[_ E]|[_ E]];
      rewrite (py_round_comp _ _ 2 E), E; [rewrite Ht|rewrite Hb]; reflexivity. }
  assert (Hhi : py_round (Qmax t b) 2 == Qmax t b).
  { destruct (Q.max_spec t b) as [[_ E]|[_ E]];
      rewrite (py_round_comp _ _ 2 E), E; [rewrite Hb|rewrite Ht]; reflexivity. }
  assert (Qmin t b <= (t + b) / 2 <= Qmax t b) as [H1 H2].
  { pose proof (Q.min_spec t b). pose proof (Q.max_spec t b).
    assert ((t + b) / 2 == (t + b) * (1 # 2)) as -> by (field; lra). lra. }
  apply (py_round_mono _ _ 2) in H1, H2. lra.
Qed.

Lemma adjust_boundaries_in_range (start_depth end_depth : Q)
    (start_top start_bottom end_top end_bottom : option Q)
    (js je : Judgment) (adjusted_start adjusted_end : Q) :
  rounded2 start_top -> rounded2 start_bottom ->
  rounded2 end_top -> rounded2 end_bottom ->
  adjust_boundaries start_depth end_depth start_top start_bottom end_top end_bottom
  = (js, je, adjusted_start, adjusted_end) ->
  (js <> Indeterminate ->
   check_depth_range adjusted_start start_top start_bottom = InRange)
  /\ (je <> Indeterminate ->
      check_depth_range adjusted_end end_top end_bottom = InRange).
Proof.
  intros R1 R2 R3 R4 H.
  destruct (adjust_boundaries_rule _ _ _ _ _ _ _ _ _ _ H)
    as (Hjs & Hje & Q1 & Q2 & Q3 & Q4 & Q5 & Q6).
  split; intros Hne.
  - destruct js eqn:Ejs; try congruence.
    + rewrite (Q1 (or_introl eq_refl)). symmetry. exact Hjs.
    + destruct (Q3 eq_refl) as (t & b & -> & -> & ->).
      apply check_depth_range_spec.
      pose proof (Q.min_spec t b). lra.
    + destruct (Q2 eq_refl) as (t & b & -> & -> & ->).
      apply check_depth_range_spec.
      destruct je.
      1,2,4: pose proof (Q.max_spec t b); lra.
      pose proof (midpoint_between t b (R1 _ eq_refl) (R2 _ eq_refl)).
      pose proof (Q.min_spec t b). pose proof (Q.max_spec t b). lra.
  - destruct je eqn:Eje; try congruence.
    + rewrite (Q4 (or_introl eq_refl)). symmetry. exact Hje.
    + destruct (Q5 eq_refl) as (t & b & -> & -> & ->).
      apply check_depth_range_spec.
      destruct js.
      1,3,4: pose proof (Q.min_spec t b); lra.
      pose proof (midpoint_between t b (R3 _ eq_refl) (R4 _ eq_refl)).
      pose proof (Q.min_spec t b). pose proof (Q.max_spec t b). lra.
    + destruct (Q6 eq_refl) as (t & b & -> & -> & ->).
      apply check_depth_range_spec.
      pose proof (Q.max_spec t b). lra.
Qed.

End RangeCheck.

Section MappedDepths.
Import Dictionary Classifier ClassifierSpec ClassifierMore.

Variable py_float : string -> option Q.
Variable stratigraphic_dict : gmap string Info.
Variable formation_depths : list (string * Depths).

Ltac result_inv H :=
  repeat match type of H with
         | mbind _ ?m = Ok _ =>
             let E := fresh "E" in
             destruct m eqn:E; cbn [mbind result_bind] in H; [|discriminate H]
         end.

Lemma depths_of_Some (name : string) (d : Depths) :
  depths_of formation_depths name = Some d -> (name, d) ∈ formation_depths.
Proof.
  unfold depths_of. destruct (List.find _ formation_depths) as [[key d']|] eqn:F;
    simpl; [|discriminate].
  intros [= <-]. apply find_some in F as [HIn Hk].
  apply bool_decide_eq_true in Hk. simpl in Hk. subst key.
  apply list_elem_of_In, HIn.
Qed.

Lemma similar_formations_head (name : string) (p : string * Depths)
    (l : list (string * Depths)) :
  similar_formations formation_depths name = p :: l -> p ∈ formation_depths.
Proof.
  intros H. assert (In p (similar_formations formation_depths name)) as Hp
    by (rewrite H; left; reflexivity).
  unfold similar_formations in Hp. apply filter_In in Hp as [Hp _].
  apply list_elem_of_In, Hp.
Qed.

Lemma mapped_depth_in_Ok (position_value : JVal) (d : Depths) (m : Q) :
  mapped_depth_in py_float position_value d = Ok m ->
  exists q, float_of py_float position_value = Ok q
            /\ m = py_round (q * (bottom_depth d - top_depth d) + top_depth d) 2.
Proof.
  unfold mapped_depth_in. intros H. result_inv H.
  injection H as <-. eauto.
Qed.

(** A mapped depth comes from a row of the depth table: the row of the
    name itself when the table has it, else the first row that resembles
    the name. *)
Lemma calculate_mapped_depth_Some (position_value : JVal) (name : string) (m : Q) :
  calculate_mapped_depth py_float formation_depths position_value name = Ok (Some m) ->
  exists key d q,
    (key, d) ∈ formation_depths
    /\ (depths_of formation_depths name <> None -> key = name)
    /\ float_of py_float position_value = Ok q
    /\ m = py_round (q * (bottom_depth d - top_depth d) + top_depth d) 2.
Proof.
  unfold calculate_mapped_depth.
  destruct formation_depths as [|x l] eqn:Efd; [discriminate|]. rewrite <- Efd.
  destruct (depths_of formation_depths name) as [d|] eqn:D.
  - intros H. result_inv H. injection H as <-.
    apply mapped_depth_in_Ok in E as (q & Hq & ->). exists name, d, q.
    split; [apply depths_of_Some, D|]. auto.
  - destruct (similar_formations formation_depths name) as [|[key d] sims] eqn:S;
      [discriminate|].
    intros H. result_inv H. injection H as <-.
    apply mapped_depth_in_Ok in E as (q & Hq & ->). exists key, d, q.
    split; [eapply similar_formations_head, S|].
    split; [congruence|]. auto.
Qed.

Lemma calculate_mapped_depth_rounded (position_value : JVal) (name : string)
    (x : option Q) :
  calculate_mapped_depth py_float formation_depths position_value name = Ok x ->
  rounded2 x.
Proof.
  intros H m ->.
  apply calculate_mapped_depth_Some in H as (key & d & q & _ & _ & _ & ->).
  apply py_round_idem.
Qed.

(** X11. A mapped depth is the position of the boundary inside a row of
    the depth table: for a position in [0,1] it comes from a row of the
    table, the row of the name itself when the table has one, and when the
    top of that row is not below its bottom it lies between the two, up to
    the rounding of the cell to 2 decimals (half a hundredth, and the
    error of the doubles). *)
Theorem mapped_depth_within_formation
    (position_value : JVal) (name : string) (q m : Q) :
  float_of py_float position_value = Ok q -> 0 <= q <= 1 ->
  calculate_mapped_depth py_float formation_depths position_value name = Ok (Some m) ->
  exists key d,
    (key, d) ∈ formation_depths
    /\ (depths_of formation_depths name <> None -> key = name)
    /\ (top_depth d <= bottom_depth d ->
        let tolerance :=
          (1 # 200)
          + FloatSpec.float_error 8 (Qabs (top_depth d) + Qabs (bottom_depth d)) in
        top_depth d - tolerance <= m <= bottom_depth d + tolerance).
Proof.
  intros Hq Hunit H.
  apply calculate_mapped_depth_Some in H as (key & d & q' & Hin & Hkey & Hq' & ->).
  rewrite Hq in Hq'. injection Hq' as <-.
  exists key, d. split; [exact Hin|]. split; [exact Hkey|].
  intros Horder tolerance.
  pose proof (py_round_error (q * (bottom_depth d - top_depth d) + top_depth d) 2)
    as Herr.
  apply Qabs_Qle_condition in Herr as [Herr1 Herr2].
  change (1 # 2 * pow10 2) with (1 # 200) in Herr1, Herr2.
  assert (0 <= FloatSpec.float_error 8 (Qabs (top_depth d) + Qabs (bottom_depth d)))
    as H0.
  { apply float_error_nonneg.
    pose proof (Qabs_nonneg (top_depth d)). pose proof (Qabs_nonneg (bottom_depth d)).
    lra. }
  unfold tolerance. split; nra.
Qed.

Lemma process_row_mapped (row : CsvRow) (o : OutRow) :
  process_row py_float stratigraphic_dict formation_depths row = Ok o ->
  calculate_mapped_depth py_float formation_depths
    (out_start_top_position o) (out_start_parent o)
  = Ok (out_start_top_mapped_depth o)
  /\ calculate_mapped_depth py_float formation_depths
       (out_start_bottom_position o) (out_start_parent o)
     = Ok (out_start_bottom_mapped_depth o)
  /\ calculate_mapped_depth py_float formation_depths
       (out_end_top_position o) (out_end_parent o)
     = Ok (out_end_top_mapped_depth o)
  /\ calculate_mapped_depth py_float formation_depths
       (out_end_bottom_position o) (out_end_parent o)
     = Ok (out_end_bottom_mapped_depth o).
Proof.
  intros H. unfold process_row in H.
  result_inv H.
  match type of H with
  | context [adjust_boundaries ?a ?b ?c ?d ?e ?f] =>
      destruct (adjust_boundaries a b c d e f) as [[[js je] adj_s] adj_e] eqn:Eadj
  end.
  result_inv H. inversion H; subst o; clear H. simpl. auto.
Qed.

Lemma adjusted_depths_are_in_range_rule (row : CsvRow) (o : OutRow) :
  process_row py_float stratigraphic_dict formation_depths row = Ok o ->
  (start_depth_in_range o <> Indeterminate ->
   check_depth_range (adjusted_start_depth o)
     (out_start_top_mapped_depth o) (out_start_bottom_mapped_depth o) = InRange)
  /\ (end_depth_in_range o <> Indeterminate ->
      check_depth_range (adjusted_end_depth o)
        (out_end_top_mapped_depth o) (out_end_bottom_mapped_depth o) = InRange).
Proof.
  intros H.
  destruct (process_row_mapped row o H) as (H1 & H2 & H3 & H4).
  destruct (process_row_Ok _ _ _ _ _ H)
    as (start_text & end_text & start_depth & end_depth & _ & _ & _ & _ & Hadj).
  apply (adjust_boundaries_in_range _ _ _ _ _ _ _ _ _ _
           (calculate_mapped_depth_rounded _ _ _ H1)
           (calculate_mapped_depth_rounded _ _ _ H2)
           (calculate_mapped_depth_rounded _ _ _ H3)
           (calculate_mapped_depth_rounded _ _ _ H4) Hadj).
Qed.

(** X12. In every row that the depth mapping writes, an adjusted depth
    whose judgment is not "indeterminate" lies between the two mapped
    depths of its formation: judged again, it is in range. *)
Theorem adjusted_depths_are_in_range (row : CsvRow) (o : OutRow) :
  process_row py_float stratigraphic_dict formation_depths row = Ok o ->
  (start_depth_in_range o <> Indeterminate ->
   check_depth_range (adjusted_start_depth o)
     (out_start_top_mapped_depth o) (out_start_bottom_mapped_depth o) = InRange)
  /\ (end_depth_in_range o <> Indeterminate ->
      check_depth_range (adjusted_end_depth o)
        (out_end_top_mapped_depth o) (out_end_bottom_mapped_depth o) = InRange).
Proof. exact (adjusted_depths_are_in_range_rule row o). Qed.

(** X13. For a position that is given as a text, computing a mapped depth
    raises in one case only: the name resolves to a row of the depth table
    (its own row, or a row that resembles it) and the text is not a
    number; the exception is then the [ValueError] of that text.  With an
    empty table, or a name that resolves to no row, the text is never
    converted. *)
Theorem calculate_mapped_depth_raises (text name : string) (e : Exception) :
  calculate_mapped_depth py_float formation_depths (JStr text) name = Raise e
  <-> py_float text = None /\ e = ValueError text
      /\ (depths_of formation_depths name <> None
          \/ similar_formations formation_depths name <> []).
Proof.
  assert (Hmap : forall d,
             (mapped_depth ← mapped_depth_in py_float (JStr text) d;
              Ok (Some mapped_depth)) = Raise e
             <-> py_float text = None /\ e = ValueError text).
  { intros d. unfold mapped_depth_in, float_of.
    destruct (py_float text) eqn:F; cbn [mbind result_bind].
    - split; [discriminate|]. intros [Hn _]. discriminate Hn.
    - split.
      + intros [= <-]. auto.
      + intros [_ ->]. reflexivity. }
  unfold calculate_mapped_depth.
  destruct formation_depths as [|x l] eqn:Efd.
  - split; [discriminate|].
    intros (_ & _ & [Hd|Hs]); [|exfalso; apply Hs; reflexivity].
    exfalso. apply Hd. reflexivity.
  - rewrite <- Efd.
    destruct (depths_of formation_depths name) as [d|] eqn:D.
    + rewrite Hmap. split.
      * intros [? ?]. repeat split; auto.
      * intros (? & ? & _). auto.
    + destruct (similar_formations formation_depths name) as [|p sims] eqn:S.
      * split; [discriminate|]. intros (_ & _ & [Hd|Hs]); congruence.
      * rewrite Hmap. split.
        -- intros [? ?]. repeat split; auto.
        -- intros (? & ? & _). auto.
Qed.

End MappedDepths.

Section MappedDepthExamples.
Import Dictionary Classifier ClassifierSpec ClassifierMore.

Lemma mapped_depth_within_formation_witness :
  exists key d,
    (key, d) ∈ example_depths
    /\ (depths_of example_depths "P1" <> None -> key = "P1")
    /\ (top_depth d <= bottom_depth d ->
        let tolerance :=
          (1 # 200)
          + FloatSpec.float_error 8 (Qabs (top_depth d) + Qabs (bottom_depth d)) in
        top_depth d - tolerance <= 1100 <= bottom_depth d + tolerance).
Proof.
  apply (mapped_depth_within_formation decimal_float example_depths
           (JStr "0.5") "P1" (1 # 2) 1100).
  - vm_compute. reflexivity.
  - split; vm_compute; discriminate.
  - vm_compute. reflexivity.
Defined.

Lemma adjusted_depths_are_in_range_witness :
  process_row decimal_float example_dict example_depths both_high_row = Ok both_high_out
  /\ check_depth_range (adjusted_start_depth both_high_out)
       (out_start_top_mapped_depth both_high_out)
       (out_start_bottom_mapped_depth both_high_out) = InRange.
Proof.
  assert (H : process_row decimal_float example_dict example_depths both_high_row
              = Ok both_high_out) by (vm_compute; reflexivity).
  split; [exact H|].
  apply (proj1 (adjusted_depths_are_in_range decimal_float example_dict example_depths
                  both_high_row both_high_out H)).
  discriminate.
Defined.

End MappedDepthExamples.

(** * More facts about the dictionary validation *)

Section ValidationOutcome.
Import Dictionary Validator ValidatorSpec ValidatorMore.

Variable py_float : string -> option Q.

Lemma flat_map_nil_iff {A B} (f : A -> list B) (l : list A) :
  flat_map f l = [] <-> forall x, x ∈ l -> f x = [].
Proof.
  induction l as [|x l IH]; simpl.
  - split; [intros _ x Hx; inversion Hx|reflexivity].
  - split.
    + intros H. apply app_eq_nil in H as [H1 H2].
      intros y Hy. apply elem_of_cons in Hy as [->|Hy]; [exact H1|].
      apply IH; assumption.
    + intros H. rewrite (H x) by (left; reflexivity).
      apply IH. intros y Hy. apply H. right. exact Hy.
Qed.

Lemma check_field_nil (formation field : string) (value : option JVal) :
  check_field py_float formation field value = [] <-> position_ok py_float value.
Proof.
  unfold check_field, position_ok. destruct value as [v|].
  - destruct (float_of py_float v) as [q|e] eqn:F.
    + destruct (Qle_bool 0 q && Qle_bool q 1) eqn:R.
      * apply andb_true_iff in R as [R1 R2]. apply Qle_bool_iff in R1, R2.
        split; [|reflexivity]. intros _. exists v, q. auto.
      * split; [discriminate|].
        intros (v' & q' & [= <-] & Hq & H0 & H1). rewrite F in Hq.
        injection Hq as <-.
        apply Qle_bool_iff in H0, H1. rewrite H0, H1 in R. discriminate R.
    + destruct v as [q|text]; [discriminate F|].
      split; [discriminate|].
      intros (v' & q' & [= <-] & Hq & _). congruence.
  - split; [discriminate|]. intros (v & q & Hv & _). discriminate Hv.
Qed.

Lemma check_parent_nil (json_data : gmap string Info)
    (stratigraphic_formations : gset string) (formation : string) (details : Info) :
  json_data !! formation = Some details ->
  check_parent json_data stratigraphic_formations formation = []
  <-> exists parent, parent_formation details = Some parent
                     /\ parent ∈ stratigraphic_formations.
Proof.
  intros Hd. unfold check_parent. rewrite Hd.
  destruct (parent_formation details) as [parent|].
  - destruct (bool_decide (parent ∈ stratigraphic_formations)) eqn:B.
    + apply bool_decide_eq_true in B. split; [eauto|reflexivity].
    + apply bool_decide_eq_false in B. split; [discriminate|].
      intros (p & [= <-] & Hp). contradiction.
  - split; [discriminate|]. intros (p & Hp & _). discriminate Hp.
Qed.

Lemma missing_in_dict_nil (json_data : gmap string Info)
    (datatest_formations : list string) :
  missing_in_dict json_data datatest_formations = []
  <-> forall formation, formation ∈ datatest_formations ->
                        exists details, json_data !! formation = Some details.
Proof.
  unfold missing_in_dict. induction datatest_formations as [|x l IH]; simpl.
  - split; [intros _ f Hf; inversion Hf|reflexivity].
  - destruct (json_data !! x) as [details|] eqn:Hx.
    + rewrite bool_decide_eq_false_2 by discriminate. rewrite IH. split.
      * intros H f Hf. apply elem_of_cons in Hf as [->|Hf]; eauto.
      * intros H f Hf. apply H. right. exact Hf.
    + rewrite bool_decide_eq_true_2 by reflexivity. split; [discriminate|].
      intros H. destruct (H x) as [details Hd]; [left; reflexivity|].
      congruence.
Qed.

Lemma validation_passes_rule (json_data : gmap string Info)
    (datatest_formations : list string) (stratigraphic_formations : gset string) :
  validate_dictionary py_float json_data datatest_formations stratigraphic_formations
  = []
  <-> json_data <> ∅ /\ datatest_formations <> [] /\ stratigraphic_formations <> ∅
      /\ forall formation,
           formation ∈ datatest_formations ->
           exists details,
             json_data !! formation = Some details
             /\ entry_ok py_float stratigraphic_formations details.
Proof.
  unfold validate_dictionary.
  destruct (bool_decide (json_data = ∅)) eqn:B1.
  { apply bool_decide_eq_true in B1. split; [discriminate|]. intros [H _]. contradiction. }
  apply bool_decide_eq_false in B1.
  destruct (bool_decide (datatest_formations = [])) eqn:B2.
  { apply bool_decide_eq_true in B2. split; [discriminate|].
    intros (_ & H & _). contradiction. }
  apply bool_decide_eq_false in B2.
  destruct (bool_decide (stratigraphic_formations = ∅)) eqn:B3.
  { apply bool_decide_eq_true in B3. split; [discriminate|].
    intros (_ & _ & H & _). contradiction. }
  apply bool_decide_eq_false in B3.
  split.
  - intros H. apply app_eq_nil in H as [Hm H]. apply app_eq_nil in H as [Hp Hr].
    assert (Hm' : missing_in_dict json_data datatest_formations = [])
      by (destruct (missing_in_dict json_data datatest_formations);
          [reflexivity|discriminate Hm]).
    split; [exact B1|]. split; [exact B2|]. split; [exact B3|].
    intros formation Hf.
    destruct (proj1 (missing_in_dict_nil _ _) Hm' formation Hf) as [details Hd].
    exists details. split; [exact Hd|].
    pose proof (proj1 (flat_map_nil_iff _ _) Hp formation Hf) as Hp'.
    pose proof (proj1 (flat_map_nil_iff _ _) Hr formation Hf) as Hr'.
    unfold check_range in Hr'. rewrite Hd in Hr'.
    apply app_eq_nil in Hr' as [Ht Hb].
    split; [apply (check_parent_nil _ _ _ _ Hd), Hp'|].
    split; eapply check_field_nil; eassumption.
  - intros (_ & _ & _ & H).
    assert (Hm : missing_in_dict json_data datatest_formations = []).
    { apply missing_in_dict_nil. intros f Hf. destruct (H f Hf) as (d & Hd & _). eauto. }
    rewrite Hm. simpl. apply app_nil. split.
    + apply flat_map_nil_iff. intros f Hf. destruct (H f Hf) as (d & Hd & Hp & _).
      apply (check_parent_nil _ _ _ _ Hd), Hp.
    + apply flat_map_nil_iff. intros f Hf.
      destruct (H f Hf) as (d & Hd & _ & Ht & Hb).
      unfold check_range. rewrite Hd. apply app_nil.
      split; apply check_field_nil; assumption.
Qed.

(** X14. The validation passes, with an empty list of errors, exactly when
    the dictionary, the list of referenced names and the list of categories
    are not empty and every referenced name has a dictionary entry with a
    listed category and two positions that are numbers in [0,1]. *)
Theorem validation_passes_iff (json_data : gmap string Info)
    (datatest_formations : list string) (stratigraphic_formations : gset string) :
  validate_dictionary py_float json_data datatest_formations stratigraphic_formations
  = []
  <-> json_data <> ∅ /\ datatest_formations <> [] /\ stratigraphic_formations <> ∅
      /\ forall formation,
           formation ∈ datatest_formations ->
           exists details,
             json_data !! formation = Some details
             /\ entry_ok py_float stratigraphic_formations details.
Proof.
  exact (validation_passes_rule json_data datatest_formations stratigraphic_formations).
Qed.

Lemma elem_of_validate (json_data : gmap string Info)
    (datatest_formations : list string) (stratigraphic_formations : gset string)
    (e : Error) :
  json_data <> ∅ -> datatest_formations <> [] -> stratigraphic_formations <> ∅ ->
  ValidatorSpec.is_completeness e = false ->
  e ∈ validate_dictionary py_float json_data datatest_formations
        stratigraphic_formations
  <-> exists formation,
        formation ∈ datatest_formations
        /\ (e ∈ check_parent json_data stratigraphic_formations formation
            \/ e ∈ check_range py_float json_data formation).
Proof.
  intros H1 H2 H3 He. unfold validate_dictionary.
  rewrite !bool_decide_eq_false_2 by assumption.
  rewrite !elem_of_app, !list_elem_of_In, !in_flat_map.
  split.
  - intros [H|[(f & Hf & H)|(f & Hf & H)]].
    + destruct (missing_in_dict json_data datatest_formations); [inversion H|].
      destruct H as [<-|[]]. discriminate He.
    + exists f. rewrite !list_elem_of_In. auto.
    + exists f. rewrite !list_elem_of_In. auto.
  - intros (f & Hf & [H|H]); rewrite list_elem_of_In in Hf;
      rewrite list_elem_of_In in H; eauto.
Qed.

(** X15. With the three inputs not empty, the consistency and range errors
    are the defects of the entries of the referenced names, no more and no
    less: a category that is not listed, a position out of [0,1], a
    position that is not a number. *)
Theorem reported_defects (json_data : gmap string Info)
    (datatest_formations : list string) (stratigraphic_formations : gset string) :
  json_data <> ∅ -> datatest_formations <> [] -> stratigraphic_formations <> ∅ ->
  (forall formation parent,
      ParentNotListed formation parent
      ∈ validate_dictionary py_float json_data datatest_formations
          stratigraphic_formations
      <-> formation ∈ datatest_formations
          /\ exists details, json_data !! formation = Some details
                             /\ parent_formation details = Some parent
                             /\ (parent ∉ stratigraphic_formations))
  /\ (forall formation field value,
        OutOfRange formation field value
        ∈ validate_dictionary py_float json_data datatest_formations
            stratigraphic_formations
        <-> formation ∈ datatest_formations
            /\ exists details v, json_data !! formation = Some details
                                 /\ position_field details field = Some v
                                 /\ float_of py_float v = Ok value
                                 /\ ~ (0 <= value <= 1))
  /\ (forall formation field text,
        NotANumber formation field text
        ∈ validate_dictionary py_float json_data datatest_formations
            stratigraphic_formations
        <-> formation ∈ datatest_formations
            /\ exists details, json_data !! formation = Some details
                               /\ position_field details field = Some (JStr text)
                               /\ py_float text = None).
Proof.
  intros H1 H2 H3.
  assert (Hfield : forall f field value e,
             e ∈ check_field py_float f field value
             <-> (value = None /\ e = MissingField f field)
                 \/ (exists v q, value = Some v /\ float_of py_float v = Ok q
                                 /\ ~ (0 <= q <= 1) /\ e = OutOfRange f field q)
                 \/ (exists text, value = Some (JStr text) /\ py_float text = None
                                  /\ e = NotANumber f field text)).
  { intros f field value e. unfold check_field.
    destruct value as [v|].
    - destruct (float_of py_float v) as [q|ex] eqn:F.
      + destruct (Qle_bool 0 q && Qle_bool q 1) eqn:R.
        * apply andb_true_iff in R as [R1 R2]. apply Qle_bool_iff in R1, R2.
          split; [intros H; inversion H|].
          intros [[H _]|[(v' & q' & [= <-] & Hq & Hn & _)|(t & [= ->] & Hn & _)]].
          -- discriminate H.
          -- rewrite F in Hq. injection Hq as <-. tauto.
          -- simpl in F. rewrite Hn in F. discriminate F.
        * assert (Hn : ~ (0 <= q <= 1)).
          { intros [G1 G2]. apply Qle_bool_iff in G1, G2.
            rewrite G1, G2 in R. discriminate R. }
          rewrite list_elem_of_singleton. split.
          -- intros ->. right. left. exists v, q. auto.
          -- intros [[H _]|[(v' & q' & [= <-] & Hq & _ & ->)|(t & [= ->] & Ht & _)]].
             ++ discriminate H.
             ++ rewrite F in Hq. injection Hq as <-. reflexivity.
             ++ simpl in F. rewrite Ht in F. discriminate F.
      + destruct v as [q|text]; [discriminate F|].
        simpl in F. destruct (py_float text) eqn:P; [discriminate F|].
        rewrite list_elem_of_singleton. split.
        * intros ->. right. right. exists text. auto.
        * intros [[H _]|[(v' & q' & [= <-] & Hq & _)|(t & [= <-] & _ & ->)]].
          -- discriminate H.
          -- simpl in Hq. rewrite P in Hq. discriminate Hq.
          -- reflexivity.
    - rewrite list_elem_of_singleton. split.
      + intros ->. left. auto.
      + intros [[_ ->]|[(v & q & H & _)|(t & H & _)]];
          [reflexivity|discriminate H|discriminate H]. }
  assert (Hrange : forall f e,
             e ∈ check_range py_float json_data f
             <-> exists details,
                   json_data !! f = Some details
                   /\ (e ∈ check_field py_float f "顶界所处位置（0~1）" (top_position details)
                       \/ e ∈ check_field py_float f "底界所处位置（0~1）"
                              (bottom_position details))).
  { intros f e. unfold check_range. destruct (json_data !! f) as [details|].
    - rewrite elem_of_app. split; [eauto|]. intros (d & [= <-] & H). exact H.
    - split; [intros H; inversion H|]. intros (d & H & _). discriminate H. }
  assert (Hparent : forall f e,
             e ∈ check_parent json_data stratigraphic_formations f
             <-> exists details,
                   json_data !! f = Some details
                   /\ ((parent_formation details = None
                        /\ e = MissingField f "所属层位")
                       \/ exists parent, parent_formation details = Some parent
                                         /\ (parent ∉ stratigraphic_formations)
                                         /\ e = ParentNotListed f parent)).
  { intros f e. unfold check_parent. destruct (json_data !! f) as [details|].
    - destruct (parent_formation details) as [parent|] eqn:P.
      + destruct (bool_decide (parent ∈ stratigraphic_formations)) eqn:B.
        * apply bool_decide_eq_true in B. split; [intros H; inversion H|].
          intros (d & [= <-] & [[H _]|(p & Hp & Hn & _)]); [congruence|].
          rewrite P in Hp. injection Hp as <-. contradiction.
        * apply bool_decide_eq_false in B. rewrite list_elem_of_singleton. split.
          -- intros ->. exists details. split; [reflexivity|]. right. eauto.
          -- intros (d & [= <-] & [[H _]|(p & Hp & _ & ->)]); [congruence|].
             rewrite P in Hp. injection Hp as <-. reflexivity.
      + rewrite list_elem_of_singleton. split.
        * intros ->. exists details. split; [reflexivity|]. left. auto.
        * intros (d & [= <-] & [[_ ->]|(p & Hp & _)]); [reflexivity|].
          rewrite P in Hp. discriminate Hp.
    - split; [intros H; inversion H|]. intros (d & H & _). discriminate H. }
  split; [|split].
  - intros formation parent.
    rewrite (elem_of_validate _ _ _ (ParentNotListed formation parent) H1 H2 H3 eq_refl). split.
    + intros (f & Hf & [H|H]).
      * apply Hparent in H as (d & Hd & [[_ He]|(p & Hp & Hn & He)]); [discriminate He|].
        injection He as <- <-. eauto.
      * apply Hrange in H as (d & _ & [H|H]); apply Hfield in H;
          destruct H as [[_ He]|[(v & q & _ & _ & _ & He)|(t & _ & _ & He)]];
          discriminate He.
    + intros (Hf & d & Hd & Hp & Hn). exists formation. split; [exact Hf|].
      left. apply Hparent. exists d. split; [exact Hd|]. right. eauto.
  - intros formation field value.
    rewrite (elem_of_validate _ _ _ (OutOfRange formation field value) H1 H2 H3 eq_refl). split.
    + intros (f & Hf & [H|H]).
      * apply Hparent in H as (d & Hd & [[_ He]|(p & Hp & Hn & He)]); discriminate He.
      * apply Hrange in H as (d & Hd & [H|H]); apply Hfield in H;
          destruct H as [[_ He]|[(v & q & Hv & Hq & Hn & He)|(t & _ & _ & He)]];
          try discriminate He; injection He as -> -> ->;
          (split; [exact Hf|]); exists d, v; unfold position_field; simpl; auto.
    + intros (Hf & d & v & Hd & Hv & Hq & Hn). exists formation. split; [exact Hf|].
      right. apply Hrange. exists d. split; [exact Hd|].
      unfold position_field in Hv.
      destruct (bool_decide (field = "顶界所处位置（0~1）")) eqn:B1.
      * apply bool_decide_eq_true in B1. subst field. left. apply Hfield.
        right. left. exists v, value. auto.
      * destruct (bool_decide (field = "底界所处位置（0~1）")) eqn:B2; [|discriminate Hv].
        apply bool_decide_eq_true in B2. subst field. right. apply Hfield.
        right. left. exists v, value. auto.
  - intros formation field text.
    rewrite (elem_of_validate _ _ _ (NotANumber formation field text) H1 H2 H3 eq_refl). split.
    + intros (f & Hf & [H|H]).
      * apply Hparent in H as (d & Hd & [[_ He]|(p & Hp & Hn & He)]); discriminate He.
      * apply Hrange in H as (d & Hd & [H|H]); apply Hfield in H;
          destruct H as [[_ He]|[(v & q & _ & _ & _ & He)|(t & Hv & Ht & He)]];
          try discriminate He; injection He as -> -> ->;
          (split; [exact Hf|]); exists d; unfold position_field; simpl; auto.
    + intros (Hf & d & Hd & Hv & Ht). exists formation. split; [exact Hf|].
      right. apply Hrange. exists d. split; [exact Hd|].
      unfold position_field in Hv.
      destruct (bool_decide (field = "顶界所处位置（0~1）")) eqn:B1.
      * apply bool_decide_eq_true in B1. subst field. left. apply Hfield.
        right. right. exists text. auto.
      * destruct (bool_decide (field = "底界所处位置（0~1）")) eqn:B2; [|discriminate Hv].
        apply bool_decide_eq_true in B2. subst field. right. apply Hfield.
        right. right. exists text. auto.
Qed.

End ValidationOutcome.

Section ValidationExamples.
Import Dictionary Validator ValidatorSpec ValidatorMore.

Lemma reported_defects_witness :
  ParentNotListed "A段" "P9"
  ∈ validate_dictionary ClassifierSpec.decimal_float dict_defects ["A段"; "B段"]
      categories_P1
  /\ OutOfRange "A段" "底界所处位置（0~1）" (3 # 2)
     ∈ validate_dictionary ClassifierSpec.decimal_float dict_defects ["A段"; "B段"]
         categories_P1
  /\ NotANumber "B段" "顶界所处位置（0~1）" "x"
     ∈ validate_dictionary ClassifierSpec.decimal_float dict_defects ["A段"; "B段"]
         categories_P1.
Proof.
  assert (H1 : dict_defects <> ∅) by (unfold dict_defects; apply insert_non_empty).
  assert (H2 : ["A段"; "B段"] <> @nil string) by discriminate.
  assert (H3 : categories_P1 <> ∅).
  { intros H. assert ("P1" ∈ categories_P1) as Hin
        by (apply elem_of_singleton; reflexivity).
    rewrite H in Hin. apply elem_of_empty in Hin. exact Hin. }
  destruct (reported_defects ClassifierSpec.decimal_float dict_defects
              ["A段"; "B段"] categories_P1 H1 H2 H3) as (Hp & Hr & Hn).
  split; [|split].
  - apply Hp. split; [left|].
    exists (mkInfo (Some "P9") (Some (JStr "0.0")) (Some (JStr "1.5"))).
    split; [reflexivity|]. split; [reflexivity|].
    intros Hin. apply elem_of_singleton in Hin. discriminate Hin.
  - apply Hr. split; [left|].
    exists (mkInfo (Some "P9") (Some (JStr "0.0")) (Some (JStr "1.5"))), (JStr "1.5").
    split; [reflexivity|]. split; [reflexivity|].
    split; [reflexivity|].
    intros [_ H]. vm_compute in H. apply H. reflexivity.
  - apply Hn. split; [right; left|].
    exists (mkInfo (Some "P1") (Some (JStr "x")) (Some (JNum (1 # 2)))).
    split; [reflexivity|]. split; vm_compute; reflexivity.
Defined.

End ValidationExamples.

(** * Validation followed by the depth mapping *)

Section ValidatedMapping.
Import Dictionary Classifier ClassifierSpec ClassifierMore Validator ValidatorMore.

Variable py_float : string -> option Q.
Variable stratigraphic_dict : gmap string Info.
Variable formation_depths : list (string * Depths).

Lemma calculate_mapped_depth_Ok (position_value : JVal) (name : string) (q : Q) :
  float_of py_float position_value = Ok q ->
  exists x, calculate_mapped_depth py_float formation_depths position_value name = Ok x
            /\ (depths_of formation_depths name <> None -> is_Some x).
Proof.
  intros Hq. unfold calculate_mapped_depth, mapped_depth_in. rewrite Hq.
  cbn [mbind result_bind].
  destruct formation_depths as [|p l] eqn:Efd.
  - eexists. split; [reflexivity|]. intros H. exfalso. apply H. reflexivity.
  - rewrite <- Efd.
    destruct (depths_of formation_depths name) as [d|].
    + eexists. split; [reflexivity|]. eauto.
    + destruct (similar_formations formation_depths name) as [|c sims];
        (eexists; split; [reflexivity|]); intros H; congruence.
Qed.

Lemma process_row_validated (datatest_formations : list string)
    (stratigraphic_formations : gset string) (row : CsvRow) :
  validate_dictionary py_float stratigraphic_dict datatest_formations
    stratigraphic_formations = [] ->
  readable_row py_float datatest_formations row ->
  exists o,
    process_row py_float stratigraphic_dict formation_depths row = Ok o
    /\ out_start_parent o ∈ stratigraphic_formations
    /\ out_end_parent o ∈ stratigraphic_formations.
Proof.
  intros Hvalid ([xuhao Hx] & (sf & Hsf & Hsin) & (ef & Hef & Hein)
                 & (st & sd & Hst & Hsd) & (et & ed & Het & Hed)).
  apply validation_passes_rule in Hvalid as (_ & _ & _ & Hall).
  destruct (Hall sf Hsin)
    as (si & Hsi & (sp & Hsp & Hspin) & (stv & qst & Hstv & Hqst & _)
        & (sbv & qsb & Hsbv & Hqsb & _)).
  destruct (Hall ef Hein)
    as (ei & Hei & (ep & Hep & Hepin) & (etv & qet & Hetv & Hqet & _)
        & (ebv & qeb & Hebv & Hqeb & _)).
  destruct (calculate_mapped_depth_Ok stv sp qst Hqst) as (x1 & H1 & _).
  destruct (calculate_mapped_depth_Ok sbv sp qsb Hqsb) as (x2 & H2 & _).
  destruct (calculate_mapped_depth_Ok etv ep qet Hqet) as (x3 & H3 & _).
  destruct (calculate_mapped_depth_Ok ebv ep qeb Hqeb) as (x4 & H4 & _).
  unfold process_row, cell.
  rewrite Hsf, Hef, Hst, Het, Hx.
  cbn [getitem mbind result_bind float_of float_of_cell].
  rewrite Hsd, Hed. cbn [mbind result_bind].
  unfold dict_get. cbn [mbind option_bind].
  rewrite Hsi, Hei. cbn [from_option id].
  rewrite Hsp, Hep, Hstv, Hsbv, Hetv, Hebv. cbn [getitem mbind result_bind].
  rewrite H1, H2, H3, H4. cbn [mbind result_bind].
  destruct (adjust_boundaries sd ed x1 x2 x3 x4) as [[[js je] adj_s] adj_e].
  eexists. split; [reflexivity|]. split; assumption.
Qed.

(** X16. Validation followed by the depth mapping.  When the validation of
    the dictionary passes, the depth mapping raises on no row whose cells
    can be read (serial number there, formation names among the validated
    names, depths that are numbers): it writes one row for each input row. *)
Theorem validated_rows_are_written (datatest_formations : list string)
    (stratigraphic_formations : gset string) (rows : list CsvRow) :
  validate_dictionary py_float stratigraphic_dict datatest_formations
    stratigraphic_formations = [] ->
  Forall (readable_row py_float datatest_formations) rows ->
  exists out,
    process_drilling_data py_float stratigraphic_dict formation_depths rows = Some out
    /\ length out = length rows.
Proof.
  intros Hvalid Hrows.
  assert (H : exists out,
             process_rows py_float stratigraphic_dict formation_depths rows = Ok out
             /\ length out = length rows).
  { induction Hrows as [|row rows Hrow _ IH]; [exists []; auto|].
    destruct (process_row_validated _ _ row Hvalid Hrow) as (o & Ho & _).
    destruct IH as (out & Hout & Hlen).
    exists (o :: out). cbn [process_rows]. rewrite Ho. cbn [mbind result_bind].
    rewrite Hout. cbn [mbind result_bind]. simpl. auto. }
  destruct H as (out & Hout & Hlen). exists out.
  unfold process_drilling_data. rewrite Hout. auto.
Qed.

(** X17. When, besides, every listed category is a row of the depth table,
    every row written has its four mapped depths, neither judgment is
    "indeterminate", and both adjusted depths lie between the mapped
    depths of their formation. *)
Theorem validated_rows_are_resolved (datatest_formations : list string)
    (stratigraphic_formations : gset string) (rows : list CsvRow)
    (out : list OutRow) :
  validate_dictionary py_float stratigraphic_dict datatest_formations
    stratigraphic_formations = [] ->
  (forall name, name ∈ stratigraphic_formations ->
                depths_of formation_depths name <> None) ->
  Forall (readable_row py_float datatest_formations) rows ->
  process_drilling_data py_float stratigraphic_dict formation_depths rows = Some out ->
  Forall (fun o => resolved_row stratigraphic_formations o
                   /\ start_depth_in_range o <> Indeterminate
                   /\ end_depth_in_range o <> Indeterminate) out.
Proof.
  intros Hvalid Hlisted Hrows Hout.
  unfold process_drilling_data in Hout.
  destruct (process_rows py_float stratigraphic_dict formation_depths rows)
    as [out'|] eqn:E; [|discriminate Hout].
  injection Hout as ->. apply process_rows_Ok in E.
  induction E as [|row o rows out Ho _ IH]; [constructor|].
  apply Forall_cons in Hrows as [Hrow Hrows].
  constructor; [|apply IH, Hrows].
  destruct (process_row_validated _ _ row Hvalid Hrow) as (o' & Ho' & Hsp & Hep).
  rewrite Ho in Ho'. injection Ho' as <-.
  destruct (process_row_mapped _ _ _ row o Ho) as (H1 & H2 & H3 & H4).
  assert (Hsome : forall pos name x,
             name ∈ stratigraphic_formations ->
             calculate_mapped_depth py_float formation_depths pos name = Ok x ->
             is_Some x).
  { intros pos name x Hname Hx.
    destruct x as [m|]; [eauto|]. exfalso.
    apply (Hlisted name Hname).
    unfold calculate_mapped_depth in Hx.
    destruct formation_depths; [reflexivity|].
    destruct (depths_of _ name); [|reflexivity].
    destruct (mapped_depth_in py_float pos d); discriminate Hx. }
  pose proof (Hsome _ _ _ Hsp H1) as [t1 E1].
  pose proof (Hsome _ _ _ Hsp H2) as [b1 E2].
  pose proof (Hsome _ _ _ Hep H3) as [t2 E3].
  pose proof (Hsome _ _ _ Hep H4) as [b2 E4].
  destruct (process_row_Ok _ _ _ _ _ Ho)
    as (start_text & end_text & start_depth & end_depth & _ & _ & _ & _ & Hadj).
  destruct (adjust_boundaries_rule _ _ _ _ _ _ _ _ _ _ Hadj) as (Hjs & Hje & _).
  assert (Hs : start_depth_in_range o <> Indeterminate).
  { rewrite Hjs, E1, E2. pose proof (check_depth_range_sound start_depth t1 b1) as S.
    intros C. rewrite C in S. exact S. }
  assert (He : end_depth_in_range o <> Indeterminate).
  { rewrite Hje, E3, E4. pose proof (check_depth_range_sound end_depth t2 b2) as S.
    intros C. rewrite C in S. exact S. }
  destruct (adjusted_depths_are_in_range_rule _ _ _ row o Ho) as [Rs Re].
  split; [|split; assumption].
  unfold resolved_row. rewrite E1, E2, E3, E4 in *.
  repeat (split; [eauto|]). auto.
Qed.

End ValidatedMapping.

Section ValidatedMappingExamples.
Import Dictionary Classifier ClassifierSpec ClassifierMore Validator ValidatorMore.

Lemma example_rows_readable :
  Forall (readable_row decimal_float ["A段"]) [well_formed_row; both_high_row].
Proof.
  repeat constructor; try (eexists; reflexivity);
    try (eexists; split; [reflexivity|left]);
    eexists _, _; split; reflexivity.
Qed.

Lemma validated_rows_are_written_witness :
  exists out,
    process_drilling_data decimal_float example_dict example_depths
      [well_formed_row; both_high_row] = Some out
    /\ length out = length [well_formed_row; both_high_row].
Proof.
  apply (validated_rows_are_written decimal_float example_dict example_depths
           ["A段"] ValidatorSpec.categories_P1).
  - vm_compute. reflexivity.
  - exact example_rows_readable.
Defined.

Lemma validated_rows_are_resolved_witness :
  exists out,
    process_drilling_data decimal_float example_dict example_depths
      [well_formed_row; both_high_row] = Some out
    /\ Forall (fun o => resolved_row ValidatorSpec.categories_P1 o
                        /\ start_depth_in_range o <> Indeterminate
                        /\ end_depth_in_range o <> Indeterminate) out.
Proof.
  eexists. split; [vm_compute; reflexivity|].
  apply (validated_rows_are_resolved decimal_float example_dict example_depths
           ["A段"] ValidatorSpec.categories_P1 [well_formed_row; both_high_row]).
  - vm_compute. reflexivity.
  - intros name H. apply elem_of_singleton in H. subst name.
    vm_compute. discriminate.
  - exact example_rows_readable.
  - vm_compute. reflexivity.
Defined.

End ValidatedMappingExamples.

(** * More facts about the confidence scores *)

Section Categories.
Import Confidence ConfidenceSpec ConfidenceMore.

Lemma load_categories_snoc (formation_df : list FormationRow) (row : FormationRow) :
  load_categories (formation_df ++ [row])
  = add_to_group row (load_categories formation_df).
Proof. unfold load_categories. rewrite fold_left_app. reflexivity. Qed.

Lemma add_to_group_names (row : FormationRow) (grouped : list CategoryInfo) :
  category <$> add_to_group row grouped
  = if bool_decide (row_category row ∈ category <$> grouped)
    then category <$> grouped
    else (category <$> grouped) ++ [row_category row].
Proof.
  induction grouped as [|g grouped IH]; [reflexivity|].
  cbn [add_to_group]. rewrite (fmap_cons category g grouped).
  destruct (bool_decide (category g = row_category row)) eqn:E.
  - apply bool_decide_eq_true in E.
    rewrite bool_decide_eq_true_2 by (rewrite E; left). reflexivity.
  - apply bool_decide_eq_false in E. rewrite fmap_cons, IH.
    destruct (bool_decide (row_category row ∈ category <$> grouped)) eqn:M.
    + apply bool_decide_eq_true in M.
      rewrite bool_decide_eq_true_2 by (right; exact M). reflexivity.
    + apply bool_decide_eq_false in M.
      rewrite bool_decide_eq_false_2; [reflexivity|].
      intros H. apply elem_of_cons in H as [H|H]; [congruence|contradiction].
Qed.

(** What [add_to_group] does to the entries: the entry of the row's
    category is widened to take the row in, or a new entry is added for it;
    the other entries stay. *)
Lemma add_to_group_old (row : FormationRow) (grouped : list CategoryInfo)
    (g : CategoryInfo) :
  g ∈ grouped ->
  exists g', g' ∈ add_to_group row grouped
             /\ category g' = category g
             /\ cat_start_depth g' <= cat_start_depth g
             /\ cat_end_depth g <= cat_end_depth g'.
Proof.
  induction grouped as [|x grouped IH]; intros Hg; [inversion Hg|].
  simpl. destruct (bool_decide (category x = row_category row)) eqn:E.
  - apply elem_of_cons in Hg as [->|Hg].
    + eexists. split; [left|]. simpl.
      split; [reflexivity|]. split; [apply Q.le_min_l|apply Q.le_max_l].
    + exists g. split; [right; exact Hg|]. repeat split; lra.
  - apply elem_of_cons in Hg as [->|Hg].
    + exists x. split; [left|]. repeat split; lra.
    + destruct (IH Hg) as (g' & Hg' & H). exists g'. split; [right; exact Hg'|exact H].
Qed.

Lemma add_to_group_row (row : FormationRow) (grouped : list CategoryInfo) :
  exists g', g' ∈ add_to_group row grouped
             /\ category g' = row_category row
             /\ cat_start_depth g' <= row_top row
             /\ row_bottom row <= cat_end_depth g'.
Proof.
  induction grouped as [|x grouped IH]; simpl.
  - eexists. split; [left|]. simpl. repeat split; lra.
  - destruct (bool_decide (category x = row_category row)) eqn:E.
    + apply bool_decide_eq_true in E. eexists. split; [left|]. simpl.
      split; [exact E|]. split; [apply Q.le_min_r|apply Q.le_max_r].
    + destruct IH as (g' & Hg' & H). exists g'. split; [right; exact Hg'|exact H].
Qed.

Lemma add_to_group_new (row : FormationRow) (grouped : list CategoryInfo)
    (g' : CategoryInfo) :
  g' ∈ add_to_group row grouped ->
  g' ∈ grouped
  \/ (category g' = row_category row
      /\ (cat_start_depth g' == row_top row
          \/ exists g, g ∈ grouped /\ category g = category g'
                       /\ cat_start_depth g' == cat_start_depth g)
      /\ (cat_end_depth g' == row_bottom row
          \/ exists g, g ∈ grouped /\ category g = category g'
                       /\ cat_end_depth g' == cat_end_depth g)).
Proof.
  induction grouped as [|x grouped IH]; simpl.
  - intros H. apply list_elem_of_singleton in H as ->. right. simpl.
    split; [reflexivity|]. split; left; reflexivity.
  - destruct (bool_decide (category x = row_category row)) eqn:E.
    + apply bool_decide_eq_true in E. intros H.
      apply elem_of_cons in H as [->|H]; [|left; right; exact H].
      right. simpl. split; [exact E|]. split.
      * destruct (Q.min_spec (cat_start_depth x) (row_top row)) as [[_ M]|[_ M]].
        -- right. exists x. split; [left|]. split; [reflexivity|exact M].
        -- left. exact M.
      * destruct (Q.max_spec (cat_end_depth x) (row_bottom row)) as [[_ M]|[_ M]].
        -- left. exact M.
        -- right. exists x. split; [left|]. split; [reflexivity|exact M].
    + intros H. apply elem_of_cons in H as [->|H]; [left; left|].
      destruct (IH H) as [Hg|(Hc & Hs & He)]; [left; right; exact Hg|].
      right. split; [exact Hc|]. split.
      * destruct Hs as [Hs|(g & Hg & Hgc & Hs)]; [left; exact Hs|].
        right. exists g. split; [right; exact Hg|]. auto.
      * destruct He as [He|(g & Hg & Hgc & He)]; [left; exact He|].
        right. exists g. split; [right; exact Hg|]. auto.
Qed.

Lemma load_categories_invariant (formation_df : list FormationRow) :
  NoDup (category <$> load_categories formation_df)
  /\ (forall name, name ∈ category <$> load_categories formation_df
                   <-> name ∈ row_category <$> formation_df)
  /\ (forall row, row ∈ formation_df ->
        exists g, g ∈ load_categories formation_df
                  /\ category g = row_category row
                  /\ cat_start_depth g <= row_top row
                  /\ row_bottom row <= cat_end_depth g)
  /\ (forall g, g ∈ load_categories formation_df ->
        (exists row, row ∈ formation_df /\ row_category row = category g
                     /\ cat_start_depth g == row_top row)
        /\ (exists row, row ∈ formation_df /\ row_category row = category g
                        /\ cat_end_depth g == row_bottom row)).
Proof.
  induction formation_df as [|row df (Hnd & Hnames & Hin & Hends)] using rev_ind.
  - split; [constructor|]. split; [reflexivity|].
    split; intros x Hx; inversion Hx.
  - rewrite load_categories_snoc.
    split; [|split; [|split]].
    + rewrite add_to_group_names.
      destruct (bool_decide (row_category row ∈ category <$> load_categories df)) eqn:M;
        [exact Hnd|].
      apply bool_decide_eq_false in M.
      apply NoDup_app. split; [exact Hnd|]. split; [|apply NoDup_singleton].
      intros x Hx Hx'. apply list_elem_of_singleton in Hx'. subst x. contradiction.
    + intros name. rewrite add_to_group_names, fmap_app, elem_of_app. simpl.
      rewrite list_elem_of_singleton, <- Hnames.
      destruct (bool_decide (row_category row ∈ category <$> load_categories df)) eqn:M.
      * apply bool_decide_eq_true in M. split; [auto|].
        intros [H| ->]; assumption.
      * rewrite elem_of_app, list_elem_of_singleton. reflexivity.
    + intros r Hr. apply elem_of_app in Hr as [Hr|Hr].
      * destruct (Hin r Hr) as (g & Hg & Hc & Hs & He).
        destruct (add_to_group_old row _ g Hg) as (g' & Hg' & Hc' & Hs' & He').
        exists g'. split; [exact Hg'|]. split; [congruence|]. split; lra.
      * apply list_elem_of_singleton in Hr. subst r. apply add_to_group_row.
    + intros g' Hg'.
      apply add_to_group_new in Hg' as [Hg|(Hc & Hs & He)].
      * destruct (Hends g' Hg) as [(r1 & Hr1 & H1) (r2 & Hr2 & H2)].
        split; [exists r1|exists r2]; (split; [apply elem_of_app; left; assumption|]);
          assumption.
      * split.
        -- destruct Hs as [Hs|(g & Hg & Hgc & Hs)].
           ++ exists row. split; [apply elem_of_app; right; left|]. auto.
           ++ destruct (Hends g Hg) as [(r1 & Hr1 & Hc1 & H1) _].
              exists r1. split; [apply elem_of_app; left; exact Hr1|].
              split; [congruence|]. rewrite Hs. exact H1.
        -- destruct He as [He|(g & Hg & Hgc & He)].
           ++ exists row. split; [apply elem_of_app; right; left|]. auto.
           ++ destruct (Hends g Hg) as [_ (r2 & Hr2 & Hc2 & H2)].
              exists r2. split; [apply elem_of_app; left; exact Hr2|].
              split; [congruence|]. rewrite He. exact H2.
Qed.

(** X18. The categories loaded from the layer table: one entry for each
    category name of the table, each name once; the entry of a category
    contains the interval of every row of that category, and its two ends
    are the top of one of these rows and the bottom of one of them. *)
Theorem load_categories_groups (formation_df : list FormationRow) :
  NoDup (category <$> load_categories formation_df)
  /\ (forall name, name ∈ category <$> load_categories formation_df
                   <-> name ∈ row_category <$> formation_df)
  /\ (forall row, row ∈ formation_df ->
        exists g, g ∈ load_categories formation_df
                  /\ category g = row_category row
                  /\ cat_start_depth g <= row_top row
                  /\ row_bottom row <= cat_end_depth g)
  /\ (forall g, g ∈ load_categories formation_df ->
        (exists row, row ∈ formation_df /\ row_category row = category g
                     /\ cat_start_depth g == row_top row)
        /\ (exists row, row ∈ formation_df /\ row_category row = category g
                        /\ cat_end_depth g == row_bottom row)).
Proof. exact (load_categories_invariant formation_df). Qed.

End Categories.

Section Overlap.
Import Confidence ConfidenceSpec ConfidenceMore.

Lemma category_row_comp (row row' : WellRow) (cat : CategoryInfo) :
  idx row = idx row' ->
  overlap_start row cat == overlap_start row' cat ->
  overlap_end row cat == overlap_end row' cat ->
  total_length row == total_length row' ->
  category_row row cat = category_row row' cat.
Proof.
  intros Hi Hs He Ht. unfold category_row.
  assert (Qle_bool (overlap_start row cat) (overlap_end row cat)
          = Qle_bool (overlap_start row' cat) (overlap_end row' cat)) as ->.
  { destruct (Qle_bool (overlap_start row' cat) (overlap_end row' cat)) eqn:E.
    - apply Qle_bool_iff. apply Qle_bool_iff in E. lra.
    - destruct (Qle_bool (overlap_start row cat) (overlap_end row cat)) eqn:E';
        [|reflexivity].
      apply Qle_bool_iff in E'.
      assert (overlap_start row' cat <= overlap_end row' cat) as H by lra.
      apply Qle_bool_iff in H. congruence. }
  destruct (Qle_bool (overlap_start row' cat) (overlap_end row' cat)); [|reflexivity].
  rewrite Hi. f_equal. f_equal.
  assert (Qeq_bool (total_length row) 0 = Qeq_bool (total_length row') 0) as ->.
  { destruct (Qeq_bool (total_length row') 0) eqn:E.
    - apply Qeq_bool_iff. apply Qeq_bool_iff in E. lra.
    - destruct (Qeq_bool (total_length row) 0) eqn:E'; [|reflexivity].
      apply Qeq_bool_iff in E'.
      assert (total_length row' == 0) as H by lra.
      apply Qeq_bool_iff in H. congruence. }
  apply py_round_comp.
  destruct (Qeq_bool (total_length row') 0) eqn:E; [reflexivity|].
  apply Qeq_bool_neq in E.
  rewrite Hs, He, Ht. reflexivity.
Qed.

Lemma total_length_span (row : WellRow) :
  total_length row
  == Qmax (adjusted_start_depth row) (adjusted_end_depth row)
     - Qmin (adjusted_start_depth row) (adjusted_end_depth row).
Proof.
  unfold total_length.
  set (s := adjusted_start_depth row). set (e := adjusted_end_depth row).
  destruct (Q.max_spec s e) as [[Hlt ->]|[Hle ->]].
  - rewrite Q.min_l by lra. rewrite Qabs_pos by lra. reflexivity.
  - rewrite Q.min_r by lra. rewrite Qabs_neg by lra. ring.
Qed.

(** X19. The direction of a well section does not matter: exchanging the
    adjusted start and end depths of every section gives the same
    confidence rows. *)
Theorem confidence_ignores_direction (categories : list CategoryInfo)
    (well_data_df : list WellRow) :
  calculate_confidence categories (reversed <$> well_data_df)
  = calculate_confidence categories well_data_df.
Proof.
  unfold calculate_confidence.
  induction well_data_df as [|row df IH]; [reflexivity|].
  rewrite fmap_cons. cbn [flat_map]. rewrite IH. f_equal.
  clear IH. induction categories as [|cat cats IHc]; [reflexivity|].
  cbn [omap list_omap]. rewrite IHc.
  rewrite (category_row_comp (reversed row) row cat); [reflexivity|reflexivity| | |].
  - unfold overlap_start, reversed. simpl. rewrite Q.min_comm. reflexivity.
  - unfold overlap_end, reversed. simpl. rewrite Q.max_comm. reflexivity.
  - rewrite !total_length_span. unfold reversed. simpl.
    rewrite Q.min_comm, Q.max_comm. reflexivity.
Qed.

(** X20. A well section that lies inside the interval of a category gets
    the confidence 1 for that category. *)
Theorem contained_section_is_certain (row : WellRow) (cat : CategoryInfo) :
  cat_start_depth cat <= Qmin (adjusted_start_depth row) (adjusted_end_depth row) ->
  Qmax (adjusted_start_depth row) (adjusted_end_depth row) <= cat_end_depth cat ->
  category_row row cat = Some (mkConfidenceRow (idx row) (category cat) 1).
Proof.
  intros Hlo Hhi. apply category_row_Some.
  assert (Hs : overlap_start row cat
               == Qmin (adjusted_start_depth row) (adjusted_end_depth row))
    by (unfold overlap_start; apply Q.max_l; exact Hlo).
  assert (He : overlap_end row cat
               == Qmax (adjusted_start_depth row) (adjusted_end_depth row))
    by (unfold overlap_end; apply Q.min_l; exact Hhi).
  pose proof (total_length_span row) as Ht.
  pose proof (Qabs_nonneg (adjusted_end_depth row - adjusted_start_depth row)) as Hnn.
  fold (total_length row) in Hnn.
  split; [lra|]. f_equal.
  change 1 with (py_round 1 6) at 1. apply py_round_comp.
  destruct (Qeq_bool (total_length row) 0) eqn:E; [reflexivity|].
  apply Qeq_bool_neq in E.
  rewrite Hs, He, <- Ht. field. exact E.
Qed.

Lemma contained_section_is_certain_witness :
  category_row (mkWellRow (Merging.LInt 1) 1050 1080) scenario_D_category
  = Some (mkConfidenceRow (Merging.LInt 1) "P1" 1).
Proof.
  apply (contained_section_is_certain (mkWellRow (Merging.LInt 1) 1050 1080)
           scenario_D_category); vm_compute; discriminate.
Defined.

End Overlap.

(** * The one-step analysis against the confidence scores *)

Section SimpleAnalysisFacts.
Import Confidence ConfidenceSpec ConfidenceMore SimpleAnalysis SimpleAnalysisMore.














End SimpleAnalysisFacts.

(** * Facts about the loading of the depth table *)

Section DepthTableFacts.
Import Dictionary Classifier ClassifierSpec DepthTable DepthTableMore.

Variable py_float : string -> option Q.

Lemma depths_of_dict_set (key name : string) (value : Depths)
    (d : list (string * Depths)) :
  depths_of (dict_set key value d) name
  = if bool_decide (key = name) then Some value else depths_of d name.
Proof.
  unfold depths_of. induction d as [|[k v] d IH]; cbn [dict_set List.find fst snd].
  - destruct (bool_decide (key = name)); reflexivity.
  - destruct (bool_decide (k = key)) eqn:E; cbn [List.find fst snd].
    + apply bool_decide_eq_true in E. subst k.
      destruct (bool_decide (key = name)); reflexivity.
    + apply bool_decide_eq_false in E.
      destruct (bool_decide (k = name)) eqn:N.
      * apply bool_decide_eq_true in N. subst k.
        rewrite bool_decide_eq_false_2 by congruence. reflexivity.
      * exact IH.
Qed.

Lemma dict_set_keys (key : string) (value : Depths) (d : list (string * Depths)) :
  (dict_set key value d).*1
  = if bool_decide (key ∈ d.*1) then d.*1 else d.*1 ++ [key].
Proof.
  induction d as [|[k v] d IH]; [reflexivity|].
  cbn [dict_set fst]. rewrite (fmap_cons fst (k, v) d). cbn [fst].
  destruct (bool_decide (k = key)) eqn:E.
  - apply bool_decide_eq_true in E. subst k.
    rewrite bool_decide_eq_true_2 by left. reflexivity.
  - apply bool_decide_eq_false in E. rewrite fmap_cons, IH. cbn [fst].
    destruct (bool_decide (key ∈ d.*1)) eqn:M.
    + apply bool_decide_eq_true in M.
      rewrite bool_decide_eq_true_2 by (right; exact M). reflexivity.
    + apply bool_decide_eq_false in M.
      rewrite bool_decide_eq_false_2; [reflexivity|].
      intros H. apply elem_of_cons in H as [H|H]; [congruence|contradiction].
Qed.

Lemma dict_set_NoDup (key : string) (value : Depths) (d : list (string * Depths)) :
  NoDup d.*1 -> NoDup (dict_set key value d).*1.
Proof.
  intros Hnd. rewrite dict_set_keys.
  destruct (bool_decide (key ∈ d.*1)) eqn:M; [exact Hnd|].
  apply bool_decide_eq_false in M.
  apply NoDup_app. split; [exact Hnd|]. split; [|apply NoDup_singleton].
  intros x Hx Hx'. apply list_elem_of_singleton in Hx'. subst x. contradiction.
Qed.

Lemma load_rows_table (rows : list (gmap string string)) :
  forall acc table,
    load_rows py_float rows acc = Ok table ->
    (NoDup acc.*1 -> NoDup table.*1)
    /\ forall name,
         depths_of table name
         = match last_depths py_float rows name with
           | Some depths => Some depths
           | None => depths_of acc name
           end.
Proof.
  induction rows as [|row rows IH]; intros acc table H.
  - injection H as <-. split; [auto|reflexivity].
  - cbn [load_rows] in H. cbn [last_depths].
    destruct (read_row py_float row) as [[key value]|e]; cbn [mbind result_bind] in H;
      [|discriminate H].
    destruct (IH _ _ H) as [Hnd Hlook]. cbn [fst snd] in *.
    split; [intros Hacc; apply Hnd, dict_set_NoDup, Hacc|].
    intros name. rewrite (Hlook name), depths_of_dict_set.
    destruct (last_depths py_float rows name); [reflexivity|].
    destruct (bool_decide (key = name)); reflexivity.
Qed.

(** X22. The depth table that is loaded has each name once, and gives a
    name the depths of its last row in the file. *)
Theorem loaded_table (rows : list (gmap string string))
    (table : list (string * Depths)) :
  load_formation_depths py_float rows = Ok table ->
  NoDup table.*1
  /\ forall name, depths_of table name = last_depths py_float rows name.
Proof.
  intros H. destruct (load_rows_table rows [] table H) as [Hnd Hlook].
  split; [apply Hnd; constructor|].
  intros name. rewrite (Hlook name).
  destruct (last_depths py_float rows name); reflexivity.
Qed.

Lemma load_rows_returns (rows : list (gmap string string)) :
  forall acc,
    (exists table, load_rows py_float rows acc = Ok table)
    <-> Forall (fun row => exists entry, read_row py_float row = Ok entry) rows.
Proof.
  induction rows as [|row rows IH]; intros acc.
  - split; [constructor|eauto].
  - cbn [load_rows]. rewrite Forall_cons.
    destruct (read_row py_float row) as [entry|e]; cbn [mbind result_bind].
    + rewrite IH. split; [eauto|tauto].
    + split; [intros [t H]; discriminate H|].
      intros [[entry H] _]. discriminate H.
Qed.

Lemma read_row_depth_record (row : gmap string string) :
  depth_record py_float row -> exists entry, read_row py_float row = Ok entry.
Proof.
  intros (name & top & bottom & t & b & Hn & Ht & Hpt & Hb & Hpb).
  unfold read_row, text_cell. rewrite Hn, Ht, Hb.
  cbn [getitem mbind result_bind float_of]. rewrite Hpt, Hpb.
  cbn [mbind result_bind]. eauto.
Qed.

Lemma read_row_bad_depth (row : gmap string string) (text : string) :
  bad_depth_record py_float row text ->
  read_row py_float row = Raise (ValueError text).
Proof.
  intros [[name Hn] [[Ht Hpt]|(top & t & Ht & Hpt & Hb & Hpb)]];
    unfold read_row, text_cell; rewrite Hn, Ht;
    cbn [getitem mbind result_bind float_of]; rewrite Hpt;
    cbn [mbind result_bind]; [reflexivity|].
  rewrite Hb. cbn [getitem mbind result_bind float_of]. rewrite Hpb. reflexivity.
Qed.

Lemma load_rows_raises (before after : list (gmap string string))
    (row : gmap string string) (e : Exception) :
  Forall (fun r => exists entry, read_row py_float r = Ok entry) before ->
  read_row py_float row = Raise e ->
  forall acc, load_rows py_float (before ++ row :: after) acc = Raise e.
Proof.
  intros Hbefore Hrow. induction Hbefore as [|r before [entry Hr] _ IH]; intros acc.
  - cbn [app load_rows]. rewrite Hrow. reflexivity.
  - cbn [app load_rows]. rewrite Hr. cbn [mbind result_bind]. apply IH.
Qed.

Lemma table_rule (stratigraphic_dict : gmap string Info)
    (table_rows : list (gmap string string)) (rows : list CsvRow) :
  (Forall (depth_record py_float) table_rows ->
   exists formation_depths,
     load_formation_depths py_float table_rows = Ok formation_depths
     /\ DepthTable.process_drilling_data py_float stratigraphic_dict table_rows rows
        = Ok (Classifier.process_drilling_data py_float stratigraphic_dict
                formation_depths rows))
  /\ (forall before row after text,
        table_rows = before ++ row :: after ->
        Forall (depth_record py_float) before ->
        bad_depth_record py_float row text ->
        DepthTable.process_drilling_data py_float stratigraphic_dict table_rows rows
        = Raise (ValueError text)).
Proof.
  unfold DepthTable.process_drilling_data, load_formation_depths. split.
  - intros Hall.
    destruct (proj2 (load_rows_returns table_rows [])) as [table Htable].
    { eapply Forall_impl; [exact Hall|]. apply read_row_depth_record. }
    exists table. rewrite Htable. split; reflexivity.
  - intros before row after text -> Hbefore Hbad.
    rewrite (load_rows_raises before after row (ValueError text)).
    + reflexivity.
    + eapply Forall_impl; [exact Hbefore|]. apply read_row_depth_record.
    + apply read_row_bad_depth, Hbad.
Qed.

(** X23. The depth mapping does not catch what the loading of the depth
    table raises.  When every record of the table has a name and two
    depths that are numbers, the table loads and the method returns what
    the loop over the well rows gives (the rows, or the failure flag).
    When the first record that is not so has a name and a depth that is
    not a number, the [ValueError] of that depth leaves the method,
    whatever the well rows are. *)
Theorem table_errors_are_not_caught (stratigraphic_dict : gmap string Info)
    (table_rows : list (gmap string string)) (rows : list CsvRow) :
  (Forall (depth_record py_float) table_rows ->
   exists formation_depths,
     load_formation_depths py_float table_rows = Ok formation_depths
     /\ DepthTable.process_drilling_data py_float stratigraphic_dict table_rows rows
        = Ok (Classifier.process_drilling_data py_float stratigraphic_dict
                formation_depths rows))
  /\ (forall before row after text,
        table_rows = before ++ row :: after ->
        Forall (depth_record py_float) before ->
        bad_depth_record py_float row text ->
        DepthTable.process_drilling_data py_float stratigraphic_dict table_rows rows
        = Raise (ValueError text)).
Proof. exact (table_rule stratigraphic_dict table_rows rows). Qed.

End DepthTableFacts.

Section DepthTableExamples.
Import Dictionary Classifier ClassifierSpec DepthTable DepthTableMore.

Lemma table_errors_are_not_caught_witness :
  DepthTable.process_drilling_data decimal_float example_dict
    [depth_row "P1" "1000" "1100"; depth_row "P2" "1200" "deep"] [well_formed_row]
  = Raise (ValueError "deep").
Proof.
  apply (proj2 (table_errors_are_not_caught decimal_float example_dict
                  [depth_row "P1" "1000" "1100"; depth_row "P2" "1200" "deep"]
                  [well_formed_row])
           [depth_row "P1" "1000" "1100"] (depth_row "P2" "1200" "deep") []).
  - reflexivity.
  - repeat constructor. exists "P1", "1000", "1100", 1000, 1100.
    repeat split; reflexivity.
  - split; [eexists; reflexivity|]. right. exists "1200", 1200.
    repeat split; reflexivity.
Defined.

Lemma loaded_table_witness :
  exists table,
    load_formation_depths decimal_float example_table = Ok table
    /\ NoDup table.*1
    /\ forall name, depths_of table name = last_depths decimal_float example_table name.
Proof.
  eexists. split; [reflexivity|].
  apply (loaded_table decimal_float example_table). reflexivity.
Defined.

End DepthTableExamples.

(** * Facts about the conversion of the CSV file to the dictionary *)

Section ConverterFacts.
Import Dictionary Classifier Converter ConverterMore.

Lemma csv_attributes_Ok (row : gmap string string) :
  (exists attributes, csv_attributes row = Ok attributes)
  <-> is_Some (row !! "所属层位") /\ is_Some (row !! "顶界所处位置（0~1）")
      /\ is_Some (row !! "底界所处位置（0~1）").
Proof.
  unfold csv_attributes, text_cell, getitem.
  destruct (row !! "所属层位") as [p|]; cbn [mbind result_bind].
  - destruct (row !! "顶界所处位置（0~1）") as [t|]; cbn [mbind result_bind].
    + destruct (row !! "底界所处位置（0~1）") as [b|]; cbn [mbind result_bind].
      * split; eauto.
      * split; [intros [a H]; discriminate H|].
        intros (_ & _ & [x H]). discriminate H.
    + split; [intros [a H]; discriminate H|].
      intros (_ & [x H] & _). discriminate H.
  - split; [intros [a H]; discriminate H|].
    intros ([x H] & _). discriminate H.
Qed.

Lemma convert_rows_returns (existing_data result_dict : gmap string Info)
    (update_strategy : string) (rows : list (gmap string string)) :
  (exists result, convert_rows existing_data result_dict update_strategy rows = Ok result)
  <-> Forall complete_row rows.
Proof.
  revert result_dict. induction rows as [|row rows IH]; intros result_dict.
  - split; [constructor|eauto].
  - cbn [convert_rows]. rewrite Forall_cons. unfold complete_row at 1.
    rewrite <- (csv_attributes_Ok row).
    unfold text_cell at 1, getitem.
    destruct (row !! "地层名称") as [name|]; cbn [mbind result_bind].
    + destruct (csv_attributes row) as [attributes|e]; cbn [mbind result_bind].
      * repeat match goal with
               | |- context [bool_decide ?P] => destruct (bool_decide P)
               end; rewrite IH; split; try tauto; intros H; repeat split; eauto.
      * split; [intros [r H]; discriminate H|].
        intros ((_ & [a H]) & _). discriminate H.
    + split; [intros [r H]; discriminate H|].
      intros (([x H] & _) & _). discriminate H.
Qed.

Lemma convert_rows_lookup (existing_data : gmap string Info)
    (update_strategy : string) (rows : list (gmap string string)) :
  forall result_dict result,
    convert_rows existing_data result_dict update_strategy rows = Ok result ->
    forall name,
      result !! name
      = match (if bool_decide (update_strategy = "u") then
                 match existing_data !! name with
                 | Some _ => None
                 | None => csv_entry rows name
                 end
               else if bool_decide (update_strategy = "r") then csv_entry rows name
               else None) with
        | Some attributes => Some attributes
        | None => result_dict !! name
        end.
Proof.
  induction rows as [|row rows IH]; intros result_dict result H name.
  - injection H as <-. cbn [csv_entry].
    destruct (bool_decide (update_strategy = "u"));
      [destruct (existing_data !! name)|destruct (bool_decide (update_strategy = "r"))];
      reflexivity.
  - cbn [convert_rows] in H. cbn [csv_entry].
    destruct (text_cell row "地层名称") as [n|e]; cbn [mbind result_bind] in H;
      [|discriminate H].
    destruct (csv_attributes row) as [attributes|e]; cbn [mbind result_bind] in H;
      [|discriminate H].
    destruct (bool_decide (update_strategy = "u")) eqn:U.
    + destruct (bool_decide (is_Some (existing_data !! n))) eqn:B.
      * apply bool_decide_eq_true in B. rewrite (IH _ _ H name).
        destruct (existing_data !! name) as [i|] eqn:En; [reflexivity|].
        destruct (csv_entry rows name); [reflexivity|].
        rewrite bool_decide_eq_false_2; [reflexivity|].
        intros ->. rewrite En in B. destruct B as [x B]. discriminate B.
      * apply bool_decide_eq_false in B. rewrite (IH _ _ H name).
        destruct (existing_data !! name) as [i|] eqn:En.
        -- rewrite lookup_insert_ne; [reflexivity|].
           intros ->. apply B. rewrite En. eauto.
        -- destruct (csv_entry rows name); [reflexivity|].
           destruct (bool_decide (n = name)) eqn:N.
           ++ apply bool_decide_eq_true in N. subst n. apply lookup_insert_eq.
           ++ apply bool_decide_eq_false in N. apply lookup_insert_ne, N.
    + destruct (bool_decide (update_strategy = "r")) eqn:R.
      * rewrite (IH _ _ H name).
        destruct (csv_entry rows name); [reflexivity|].
        destruct (bool_decide (n = name)) eqn:N.
        -- apply bool_decide_eq_true in N. subst n. apply lookup_insert_eq.
        -- apply bool_decide_eq_false in N. apply lookup_insert_ne, N.
      * rewrite (IH _ _ H name). reflexivity.
Qed.

(** X24. What the converter writes for a name.  With the strategy u the
    configuration file wins: a name it has keeps its entry, any other name
    gets the attributes of its last row in the CSV file.  With the
    strategy r the CSV file wins: a name it has gets the attributes of its
    last row, any other name keeps the entry of the configuration file. *)
Theorem converter_entries (rows : list (gmap string string))
    (config : option (gmap string Info)) (update_strategy : string)
    (result : gmap string Info) :
  convert_csv_to_json rows config update_strategy = Ok result ->
  (update_strategy = "u" ->
   forall name, result !! name
                = match default ∅ config !! name with
                  | Some entry => Some entry
                  | None => csv_entry rows name
                  end)
  /\ (update_strategy = "r" ->
      forall name, result !! name
                   = match csv_entry rows name with
                     | Some attributes => Some attributes
                     | None => default ∅ config !! name
                     end).
Proof.
  intros H. unfold convert_csv_to_json in H.
  pose proof (convert_rows_lookup _ _ _ _ _ H) as L.
  split; intros -> name; rewrite (L name).
  - rewrite bool_decide_eq_true_2 by reflexivity.
    destruct (default ∅ config !! name); [reflexivity|].
    destruct (csv_entry rows name); reflexivity.
  - rewrite bool_decide_eq_false_2 by discriminate.
    rewrite bool_decide_eq_true_2 by reflexivity. reflexivity.
Qed.

(** X25. Converting again with the result as the configuration file gives
    the same dictionary, whatever the strategy. *)
Theorem converter_idempotent (rows : list (gmap string string))
    (config : option (gmap string Info)) (update_strategy : string)
    (result : gmap string Info) :
  convert_csv_to_json rows config update_strategy = Ok result ->
  convert_csv_to_json rows (Some result) update_strategy = Ok result.
Proof.
  intros H. unfold convert_csv_to_json in *. cbn [default from_option id].
  assert (Hrows : Forall complete_row rows)
    by (apply (convert_rows_returns (default ∅ config) (default ∅ config)
                 update_strategy rows); eauto).
  destruct (proj2 (convert_rows_returns result result update_strategy rows) Hrows)
    as [result' H'].
  rewrite H'. f_equal. apply map_eq. intros name.
  rewrite (convert_rows_lookup _ _ _ _ _ H' name).
  pose proof (convert_rows_lookup _ _ _ _ _ H name) as L.
  destruct (bool_decide (update_strategy = "u")).
  - destruct (result !! name) as [i|] eqn:E; [reflexivity|].
    destruct (default ∅ config !! name); [discriminate L|].
    destruct (csv_entry rows name); [discriminate L|reflexivity].
  - destruct (bool_decide (update_strategy = "r")); [|reflexivity].
    destruct (csv_entry rows name); [symmetry; exact L|reflexivity].
Qed.

(** X26. The converter returns a dictionary for every CSV file whose
    records have a text in each of the four columns it reads, whatever the
    strategy and the configuration file. *)
Theorem converter_returns (rows : list (gmap string string))
    (config : option (gmap string Info)) (update_strategy : string) :
  Forall complete_row rows ->
  exists result, convert_csv_to_json rows config update_strategy = Ok result.
Proof. intros H. apply convert_rows_returns, H. Qed.

End ConverterFacts.

Section ConverterExamples.
Import Dictionary Classifier Converter ConverterMore.

Lemma converter_entries_witness :
  exists result,
    convert_csv_to_json example_csv (Some example_config) "u" = Ok result
    /\ forall name, result !! name
                    = match example_config !! name with
                      | Some entry => Some entry
                      | None => csv_entry example_csv name
                      end.
Proof.
  eexists. split; [reflexivity|].
  apply (converter_entries example_csv (Some example_config) "u");
    reflexivity.
Defined.

Lemma converter_idempotent_witness :
  exists result,
    convert_csv_to_json example_csv (Some example_config) "r" = Ok result
    /\ convert_csv_to_json example_csv (Some result) "r" = Ok result.
Proof.
  eexists. split; [reflexivity|].
  apply (converter_idempotent example_csv (Some example_config) "r").
  reflexivity.
Defined.

Lemma converter_returns_witness :
  exists result, convert_csv_to_json example_csv None "x" = Ok result.
Proof.
  apply (converter_returns example_csv None "x").
  repeat constructor; eexists; reflexivity.
Defined.

End ConverterExamples.

(** * Failures in the depth mapping and in the run consolidation *)

Section FailureClaims.
Import Dictionary Classifier ClassifierSpec DepthTableMore.

Section Rows.

Variable py_float : string -> option Q.
Variable stratigraphic_dict : gmap string Info.
Variable formation_depths : list (string * Depths).


End Rows.







End FailureClaims.
